(** * Velodyne raw-data decoder: a shallow embedding of
      [velodyne_pointcloud/src/lib/rawdata.cc]

    The development follows the C++ translation unit:
    - IEEE-754 arithmetic ([float] is binary32, [double] is binary64) is the
      executable specification of the standard library, [SpecFloat],
      instantiated at the two formats;
    - [RawData::setParameters], [RawData::setup], [RawData::unpack] and
      [RawData::unpack_vlp16] are functions over explicit state;
    - the organized output cloud is a flat vector addressed by
      [pc.at(col, row)], with the bounds check of [std::vector::at]. *)

From Stdlib Require Import ZArith Lia Bool.
From Stdlib Require Import Floats.SpecFloat.
From stdpp Require Import base option strings list list_numbers.

Local Open Scope Z_scope.

(** ** Floating point *)

(** Every operation rounds to the format of its C++ type, to nearest with
    ties to even (no contraction into fused operations, no excess
    precision). Comparisons of [SpecFloat] work on canonical
    representations, which every operation below produces. *)
Module Fp.

Definition zero : spec_float := S754_zero false.
Definition nan : spec_float := S754_nan.

Definition ltb (x y : spec_float) : bool := SFltb x y.
Definition leb (x y : spec_float) : bool := SFleb x y.
Definition gtb (x y : spec_float) : bool := SFltb y x.
Definition geb (x y : spec_float) : bool := SFleb y x.

Definition neg (x : spec_float) : spec_float := SFopp x.

(** [std::abs] on a floating-point argument. *)
Definition abs (x : spec_float) : spec_float := SFabs x.

(** The integer part of a finite value (truncation toward zero), as the
    conversion of a floating value to an integer type computes it. *)
Definition trunc (x : spec_float) : option Z :=
  match x with
  | S754_zero _ => Some 0
  | S754_finite s m e =>
      Some (cond_Zopp s (if 0 <=? e then Z.shiftl (Zpos m) e
                         else Z.shiftr (Zpos m) (- e)))
  | _ => None
  end.

(** [round]: nearest integer, halfway cases away from zero; the value is
    returned as the integer it denotes. *)
Definition round (x : spec_float) : option Z :=
  match x with
  | S754_zero _ => Some 0
  | S754_finite s m e =>
      Some (cond_Zopp s (if 0 <=? e then Z.shiftl (Zpos m) e
                         else Z.shiftr (Zpos m + Z.shiftl 1 (- e - 1)) (- e)))
  | _ => None
  end.

Definition INT_MIN : Z := - 2 ^ 31.

(** Conversion to [int]. Out of range (and NaN) is undefined in C++; the
    value recorded here is the one the x86-64 conversion instructions
    produce. *)
Definition to_int (v : option Z) : Z :=
  match v with
  | Some z => if (INT_MIN <=? z) && (z <? 2 ^ 31) then z else INT_MIN
  | None => INT_MIN
  end.

(** Conversion to [uint8_t], through [int]. *)
Definition to_uint8 (v : option Z) : Z := to_int v mod 256.

End Fp.

(** [float] *)
Module Single.
Definition prec : Z := 24.
Definition emax : Z := 128.
Definition add := SFadd prec emax.
Definition sub := SFsub prec emax.
Definition mul := SFmul prec emax.
Definition div := SFdiv prec emax.
Definition of_int (z : Z) : spec_float := binary_normalize prec emax z 0 false.
(** Narrowing conversion from [double]: round to nearest, ties to even. *)
Definition of_double (x : spec_float) : spec_float :=
  match x with
  | S754_finite s m e => binary_round prec emax s m e
  | _ => x
  end.
(** A decimal literal [n / d] with suffix [f]. *)
Definition lit (n d : Z) : spec_float := div (of_int n) (of_int d).
End Single.

(** [double] *)
Module Double.
Definition prec : Z := 53.
Definition emax : Z := 1024.
Definition add := SFadd prec emax.
Definition sub := SFsub prec emax.
Definition mul := SFmul prec emax.
Definition div := SFdiv prec emax.
Definition of_int (z : Z) : spec_float := binary_normalize prec emax z 0 false.
(** Widening conversion from [float]: exact. *)
Definition of_single (x : spec_float) : spec_float :=
  match x with
  | S754_finite s m e => binary_round prec emax s m e
  | _ => x
  end.
Definition lit (n d : Z) : spec_float := div (of_int n) (of_int d).

(** [M_PI], the double nearest to pi: 0x400921FB54442D18. *)
Definition M_PI : spec_float := S754_finite false 7074237752028440 (-51).

(** [fmod x y]: the remainder of the truncated quotient; exact, with the
    sign of [x]. *)
Definition fmod (x y : spec_float) : spec_float :=
  match x, y with
  | S754_nan, _ | _, S754_nan => S754_nan
  | S754_infinity _, _ => S754_nan
  | _, S754_zero _ => S754_nan
  | S754_zero _, _ => x
  | S754_finite _ _ _, S754_infinity _ => x
  | S754_finite sx mx ex, S754_finite _ my ey =>
      let e := Z.min ex ey in
      let r := Z.rem (Z.shiftl (Zpos mx) (ex - e)) (Z.shiftl (Zpos my) (ey - e)) in
      binary_normalize prec emax (cond_Zopp sx r) e sx
  end.
End Double.

(** ** Machine integers

    Unsigned arithmetic and the conversions between integer types wrap
    around; arithmetic on [int] is undefined when it overflows and is
    computed in [Z]. *)

Definition uint32 (z : Z) : Z := z mod 2 ^ 32.
Definition uint64 (z : Z) : Z := z mod 2 ^ 64.
(** Two's-complement [int]. *)
Definition int32 (z : Z) : Z := (z + 2 ^ 31) mod 2 ^ 32 - 2 ^ 31.

(** ** Declarations of the headers

    [rawdata.h], [calibration.h] and [point_types.h] are not part of the
    translation unit; the constants they declare are parameters of the
    development, the structures are the records below. *)

Record Constants := {
  RAW_SCAN_SIZE : Z;
  SCANS_PER_BLOCK : Z;
  ROTATION_MAX_UNITS : Z;
  DISTANCE_RESOLUTION : spec_float;
  UPPER_BANK : Z;
  LOWER_BANK : Z;
  VLP16_FIRINGS_PER_BLOCK : Z;
  VLP16_SCANS_PER_FIRING : Z;
  VLP16_BLOCK_TDURATION : spec_float;
  VLP16_DSR_TOFFSET : spec_float;
  VLP16_FIRING_TOFFSET : spec_float;
  BLOCKS_PER_PACKET : Z;
  PACKET_STATUS_SIZE : Z;
  (** timestamp interpolation of the 16-beam packet tail, in microseconds *)
  packet_interp_time : Z -> spec_float
}.

(** Modelled from the spec: the header constant [SCANS_PER_PACKET]; the
    width of the legacy grid is the total number of beam readings of the scan
    divided by the beam count, and a packet holds [BLOCKS_PER_PACKET] blocks
    of [SCANS_PER_BLOCK] readings. *)
Definition SCANS_PER_PACKET (K : Constants) : Z :=
  SCANS_PER_BLOCK K * BLOCKS_PER_PACKET K.

(** The values of the released driver, used for the worked examples. *)
Definition velodyne_constants : Constants := {|
  RAW_SCAN_SIZE := 3;
  SCANS_PER_BLOCK := 32;
  ROTATION_MAX_UNITS := 36000;
  DISTANCE_RESOLUTION := Single.lit 2 1000;
  UPPER_BANK := 0xeeff;
  LOWER_BANK := 0xddff;
  VLP16_FIRINGS_PER_BLOCK := 2;
  VLP16_SCANS_PER_FIRING := 16;
  VLP16_BLOCK_TDURATION := Single.lit 110592 1000;
  VLP16_DSR_TOFFSET := Single.lit 2304 1000;
  VLP16_FIRING_TOFFSET := Single.lit 55296 1000;
  BLOCKS_PER_PACKET := 12;
  PACKET_STATUS_SIZE := 4;
  packet_interp_time := fun t => Double.of_int t
|}.

(** [velodyne_pointcloud::LaserCorrection]: the fields the decoder reads,
    as it reads them into its [float] locals. *)
Record LaserCorrection := {
  dist_correction : spec_float;
  two_pt_correction_available : bool;
  dist_correction_x : spec_float;
  dist_correction_y : spec_float;
  vert_offset_correction : spec_float;
  horiz_offset_correction : spec_float;
  max_intensity : spec_float;
  min_intensity : spec_float;
  focal_distance : spec_float;
  focal_slope : spec_float;
  cos_rot_correction : spec_float;
  sin_rot_correction : spec_float;
  cos_vert_correction : spec_float;
  sin_vert_correction : spec_float;
  laser_ring : Z
}.

(** [velodyne_pointcloud::Calibration]; [laser_corrections] is indexed with
    [operator[]] by the hardware laser number. *)
Record Calibration := {
  laser_corrections : Z -> LaserCorrection;
  num_lasers : Z;
  initialized : bool
}.

(** [RawData::Config] *)
Record Config := {
  calibrationFile : string;
  max_range : spec_float;          (* double *)
  min_range : spec_float;          (* double *)
  min_angle : Z;                   (* int *)
  max_angle : Z;                   (* int *)
  tmp_min_angle : spec_float;      (* double *)
  tmp_max_angle : spec_float;      (* double *)
  frame_id : string;
  fixed_frame_id : string
}.

(** [VPoint] (x, y, z, intensity, ring) *)
Record VPoint := {
  x : spec_float;
  y : spec_float;
  z : spec_float;
  intensity : spec_float;
  ring : Z
}.

Definition set_ring (r : Z) (p : VPoint) : VPoint :=
  {| x := x p; y := y p; z := z p; intensity := intensity p; ring := r |}.
Definition set_intensity (i : spec_float) (p : VPoint) : VPoint :=
  {| x := x p; y := y p; z := z p; intensity := i; ring := ring p |}.
Definition set_x (v : spec_float) (p : VPoint) : VPoint :=
  {| x := v; y := y p; z := z p; intensity := intensity p; ring := ring p |}.
Definition set_y (v : spec_float) (p : VPoint) : VPoint :=
  {| x := x p; y := v; z := z p; intensity := intensity p; ring := ring p |}.
Definition set_z (v : spec_float) (p : VPoint) : VPoint :=
  {| x := x p; y := y p; z := v; intensity := intensity p; ring := ring p |}.

(** The point both decoders fill the fresh grid with. *)
Definition nanPoint : VPoint :=
  {| x := Fp.nan; y := Fp.nan; z := Fp.nan; intensity := Single.of_int 0; ring := -1 |}.

(** [VPointCloud]: an organized cloud, [points] in row-major order. *)
Record VPointCloud := {
  pc_stamp : Z;
  pc_frame_id : string;
  width : Z;                       (* uint32_t *)
  height : Z;                      (* uint32_t *)
  points : list VPoint
}.

(** A firing block and a packet, as [raw_block_t] and [raw_packet_t] (and
    the 16-beam view [raw_packet_vlp16_t] of the same bytes) lay them over
    the packet buffer. *)
Record raw_block_t := {
  header : Z;                      (* uint16_t *)
  rotation : Z;                    (* uint16_t *)
  data : list Z                    (* uint8_t [BLOCK_DATA_SIZE] *)
}.

Record VelodynePacket := {
  stamp : Z;
  blocks : list raw_block_t;
  status : list Z;                 (* uint8_t [PACKET_STATUS_SIZE] *)
  time : Z                         (* raw_packet_vlp16_t::time *)
}.

Record VelodyneScan := {
  scan_stamp : Z;
  scan_frame_id : string;
  packets : list VelodynePacket
}.

Definition zero_block : raw_block_t := {| header := 0; rotation := 0; data := [] |}.

(** [a[i]] on a fixed-size array held as a list. *)
Definition byte_at (l : list Z) (i : Z) : Z := nth (Z.to_nat i) l 0.
Definition block_at (l : list raw_block_t) (i : Z) : raw_block_t :=
  nth (Z.to_nat i) l zero_block.

(** [geometry_msgs::PointStamped] with its [double] coordinates; the stamp
    is the packet stamp plus a duration in seconds. *)
Record PointStamped := {
  ps_stamp : Z * spec_float;
  ps_frame_id : string;
  ps_x : spec_float;
  ps_y : spec_float;
  ps_z : spec_float
}.

(** [tf::TransformListener]: the two overloads of [transformPoint] the
    decoders call; [None] is a thrown exception. *)
Record TransformListener := {
  transformPoint : string -> PointStamped -> option PointStamped;
  transformPoint_fixed :
    string -> Z -> PointStamped -> string -> option PointStamped
}.

(** The members of [RawData]. *)
Record RawData := {
  config_ : Config;
  calibration_ : Calibration;
  sin_rot_table_ : Z -> spec_float;
  cos_rot_table_ : Z -> spec_float;
  tf_listener_ : option TransformListener
}.

Definition string_empty (s : string) : bool :=
  match s with EmptyString => true | _ => false end.

Definition with_config (c : Config) (rd : RawData) : RawData :=
  {| config_ := c; calibration_ := calibration_ rd;
     sin_rot_table_ := sin_rot_table_ rd; cos_rot_table_ := cos_rot_table_ rd;
     tf_listener_ := tf_listener_ rd |}.

(** ** [RawData::setParameters] *)

Section SetParameters.
Import Double.

Definition two_pi : spec_float := mul (of_int 2) M_PI.

(** Lines 63-68: the window borders in the sensor frame, reduced to
    [0, 2 pi]. *)
Definition positive_modulo (a : spec_float) : spec_float :=
  fmod (add (fmod a two_pi) two_pi) two_pi.

(** Lines 72-73: hundredths of a degree, hardware orientation; the
    assignment to the [int] member truncates. *)
Definition to_hardware_angle (tmp : spec_float) : Z :=
  Fp.to_int (Fp.trunc
    (add (div (mul (mul (of_int 100) (sub two_pi tmp)) (of_int 180)) M_PI)
         (lit 1 2))).

(** Lines 74-79. *)
Definition normalize_window (mn mx : Z) : Z * Z :=
  if mn =? mx then (0, 36000) else (mn, mx).

Definition setParameters (min_range' max_range' view_direction view_width : spec_float)
    (frame_id' fixed_frame_id' : string) (rd : RawData) : RawData :=
  let c := config_ rd in
  let tmp_min := positive_modulo (add view_direction (div view_width (of_int 2))) in
  let tmp_max := positive_modulo (sub view_direction (div view_width (of_int 2))) in
  let '(mn, mx) :=
    normalize_window (to_hardware_angle tmp_min) (to_hardware_angle tmp_max) in
  with_config
    {| calibrationFile := calibrationFile c;
       max_range := max_range'; min_range := min_range';
       min_angle := mn; max_angle := mx;
       tmp_min_angle := tmp_min; tmp_max_angle := tmp_max;
       frame_id := frame_id'; fixed_frame_id := fixed_frame_id' |} rd.
End SetParameters.

(** ** [RawData::setup] *)

(** What [setup] reads from its surroundings: the private parameter server
    ([getParam]), [ros::package::getPath], the calibration reader
    ([Calibration::read], which sets [initialized] when the file parses) and
    the single-precision [cosf], [sinf] of the heading of a rotation code. *)
Record SetupEnv := {
  getParam : string -> option string;
  package_path : string;
  read_calibration : string -> Calibration;
  cosf_of_code : Z -> spec_float;
  sinf_of_code : Z -> spec_float
}.

Inductive log_entry :=
| ROS_ERROR_no_calibration        (* "No calibration angles specified! Using test values!" *)
| ROS_ERROR_unable_to_open (file : string)
| ROS_INFO_correction_angles (file : string)
| ROS_INFO_number_of_lasers (n : Z).

Definition default_calibration (E : SetupEnv) : string :=
  package_path E +:+ "/params/64e_utexas.yaml".

(** The file [setup] hands to the calibration reader (lines 99-106). *)
Definition calibration_file (E : SetupEnv) : string :=
  match getParam E "calibration" with
  | Some f => f
  | None => default_calibration E
  end.

Definition with_calibrationFile (f : string) (c : Config) : Config :=
  {| calibrationFile := f;
     max_range := max_range c; min_range := min_range c;
     min_angle := min_angle c; max_angle := max_angle c;
     tmp_min_angle := tmp_min_angle c; tmp_max_angle := tmp_max_angle c;
     frame_id := frame_id c; fixed_frame_id := fixed_frame_id c |}.

(** [setup] returns its [int] result, the object after the call and the
    messages it logged. *)
Definition setup (K : Constants) (E : SetupEnv) (tf_listener : option TransformListener)
    (rd : RawData) : Z * RawData * list log_entry :=
  let '(file, log0) :=
    match getParam E "calibration" with
    | Some f => (f, [])
    | None => (default_calibration E, [ROS_ERROR_no_calibration])
    end in
  let log1 := log0 ++ [ROS_INFO_correction_angles file] in
  let cal := read_calibration E file in
  let rd1 :=
    {| config_ := with_calibrationFile file (config_ rd);
       calibration_ := cal;
       sin_rot_table_ := sin_rot_table_ rd; cos_rot_table_ := cos_rot_table_ rd;
       tf_listener_ := tf_listener_ rd |} in
  if negb (initialized cal) then
    (-1, rd1, log1 ++ [ROS_ERROR_unable_to_open file])
  else
    let in_table i := (0 <=? i) && (i <? ROTATION_MAX_UNITS K) in
    (0,
     {| config_ := config_ rd1;
        calibration_ := cal;
        sin_rot_table_ := fun i => if in_table i then sinf_of_code E i else sin_rot_table_ rd i;
        cos_rot_table_ := fun i => if in_table i then cosf_of_code E i else cos_rot_table_ rd i;
        tf_listener_ := tf_listener |},
     log1 ++ [ROS_INFO_number_of_lasers (num_lasers cal)]).

(** ** Decoder state and control *)

(** What the decoders do besides writing the cloud, in program order:
    reads of the heading tables, [pc.at(col, row)] calls, lines written to
    the azimuth file, and requests to the throttled warning macros. *)
Inductive event :=
| TrigLookup (index : Z)
| CloudAt (col row : Z)
| AzimuthLine (offset : spec_float) (azimuth_corrected : Z)
| WarnTransform
| WarnBadHeader (block header : Z).

Record env := {
  cloud : VPointCloud;
  trace : list event
}.

Definition emit (ev : event) (e : env) : env :=
  {| cloud := cloud e; trace := trace e ++ [ev] |}.

(** How a piece of the decoder ends: it falls through to the next
    statement, executes [return], lets an exception escape, or stops the
    process (failed [assert], integer division by zero). *)
Inductive ctl := Next | Returned | Thrown | Aborted.

(** A [for] loop over [xs]; a body ending with [continue] ends with [Next]. *)
Fixpoint for_each {A S : Type} (body : A -> S -> ctl * S) (xs : list A) (s : S)
  : ctl * S :=
  match xs with
  | [] => (Next, s)
  | a :: xs' =>
      match body a s with
      | (Next, s') => for_each body xs' s'
      | stop => stop
      end
  end.

(** The same with the index of the element, as in
    [for (size_t i = 0; i < v.size(); ++i)]. *)
Fixpoint for_each_from {A S : Type} (body : Z -> A -> S -> ctl * S) (i : Z)
    (xs : list A) (s : S) : ctl * S :=
  match xs with
  | [] => (Next, s)
  | a :: xs' =>
      match body i a s with
      | (Next, s') => for_each_from body (i + 1) xs' s'
      | stop => stop
      end
  end.

Definition with_points (l : list VPoint) (pc : VPointCloud) : VPointCloud :=
  {| pc_stamp := pc_stamp pc; pc_frame_id := pc_frame_id pc;
     width := width pc; height := height pc; points := l |}.

(** [pcl::PointCloud::at(column, row)]: organized clouds only, then
    [points.at(row * width + column)] in unsigned arithmetic. *)
Definition at_index (pc : VPointCloud) (col row : Z) : option nat :=
  if 1 <? height pc then
    let i := uint32 (uint32 row * width pc + uint32 col) in
    if i <? Z.of_nat (length (points pc)) then Some (Z.to_nat i) else None
  else None.

(** [pc.at(col, row).field = v] and [pc.at(col, row) = point]. *)
Definition cloud_update (col row : Z) (f : VPoint -> VPoint) (e : env) : ctl * env :=
  let e' := emit (CloudAt col row) e in
  match at_index (cloud e) col row with
  | Some i =>
      (Next, {| cloud := with_points (alter f i (points (cloud e))) (cloud e);
                trace := trace e' |})
  | None => (Thrown, e')
  end.

(** Sequencing of statements. *)
Definition and_then {S : Type} (r : ctl * S) (k : S -> ctl * S) : ctl * S :=
  match r with
  | (Next, s) => k s
  | stop => stop
  end.

Notation "r >>> k" := (and_then r k) (at level 90, right associativity).

Declare Scope single_scope.
Delimit Scope single_scope with single.
Infix "+" := Single.add : single_scope.
Infix "-" := Single.sub : single_scope.
Infix "*" := Single.mul : single_scope.
Infix "/" := Single.div : single_scope.
Declare Scope double_scope.
Delimit Scope double_scope with double.
Infix "+" := Double.add : double_scope.
Infix "-" := Double.sub : double_scope.
Infix "*" := Double.mul : double_scope.
Infix "/" := Double.div : double_scope.

(** The values a reading is turned into before it is stored. *)
Record reading := {
  distance : spec_float;
  x_coord : spec_float;
  y_coord : spec_float;
  z_coord : spec_float;
  intensity_ : spec_float
}.

Section Decoder.
Context (K : Constants) (rd : RawData).

Let cfg := config_ rd.
Let num := num_lasers (calibration_ rd).

(** Modelled from the spec: [pointInRange] is declared in [rawdata.h];
    [in_range(distance, min, max)] is true iff [min <= distance <= max],
    with the [double] borders of the configuration. *)
Definition pointInRange (range : spec_float) : bool :=
  Fp.geb (Double.of_single range) (min_range cfg)
  && Fp.leb (Double.of_single range) (max_range cfg).

(** [tf_listener_ == NULL || config_.frame_id.empty()] *)
Definition no_transform : bool :=
  match tf_listener_ rd with
  | None => true
  | Some _ => string_empty (frame_id cfg)
  end.

Definition output_frame (scan : VelodyneScan) : string :=
  if no_transform then scan_frame_id scan else frame_id cfg.

(** *** [RawData::unpack], 32/64-beam layout *)

(** Lines 197-202, on the rotation code of the block. *)
Definition in_angle_window (rot : Z) : bool :=
  ((rot >=? min_angle cfg) && (rot <=? max_angle cfg)
     && (min_angle cfg <? max_angle cfg))
  || ((min_angle cfg >? max_angle cfg)
        && ((rot <=? max_angle cfg) || (rot >=? min_angle cfg))).

(** Lines 203-299: position and intensity of one reading. *)
Definition unpack_point (corrections : LaserCorrection) (rot tmp_uint raw_intensity : Z)
  : reading :=
  let f := Single.of_int in
  let d := Double.of_single in
  let distance := (f tmp_uint * DISTANCE_RESOLUTION K)%single in
  let distance := (distance + dist_correction corrections)%single in
  let cos_vert_angle := cos_vert_correction corrections in
  let sin_vert_angle := sin_vert_correction corrections in
  let cos_rot_correction := cos_rot_correction corrections in
  let sin_rot_correction := sin_rot_correction corrections in
  let cos_rot_angle :=
    (cos_rot_table_ rd rot * cos_rot_correction
     + sin_rot_table_ rd rot * sin_rot_correction)%single in
  let sin_rot_angle :=
    (sin_rot_table_ rd rot * cos_rot_correction
     - cos_rot_table_ rd rot * sin_rot_correction)%single in
  let horiz_offset := horiz_offset_correction corrections in
  let vert_offset := vert_offset_correction corrections in
  let xy_distance := (distance * cos_vert_angle - vert_offset * sin_vert_angle)%single in
  let xx := (xy_distance * sin_rot_angle - horiz_offset * cos_rot_angle)%single in
  let yy := (xy_distance * cos_rot_angle + horiz_offset * sin_rot_angle)%single in
  let xx := if Fp.ltb xx (f 0) then Fp.neg xx else xx in
  let yy := if Fp.ltb yy (f 0) then Fp.neg yy else yy in
  let distance_corr_x :=
    if two_pt_correction_available corrections then
      let v := Single.of_double
        (d (dist_correction corrections - dist_correction_x corrections)%single
           * (d xx - Double.lit 24 10) / (Double.lit 2504 100 - Double.lit 24 10)
         + d (dist_correction_x corrections))%double in
      (v - dist_correction corrections)%single
    else f 0 in
  let distance_corr_y :=
    if two_pt_correction_available corrections then
      let v := Single.of_double
        (d (dist_correction corrections - dist_correction_y corrections)%single
           * (d yy - Double.lit 193 100) / (Double.lit 2504 100 - Double.lit 193 100)
         + d (dist_correction_y corrections))%double in
      (v - dist_correction corrections)%single
    else f 0 in
  let distance_x := (distance + distance_corr_x)%single in
  let xy_distance := (distance_x * cos_vert_angle - vert_offset * sin_vert_angle)%single in
  let x := (xy_distance * sin_rot_angle - horiz_offset * cos_rot_angle)%single in
  let distance_y := (distance + distance_corr_y)%single in
  let xy_distance := (distance_y * cos_vert_angle - vert_offset * sin_vert_angle)%single in
  let y := (xy_distance * cos_rot_angle + horiz_offset * sin_rot_angle)%single in
  let z := (distance_y * sin_vert_angle + vert_offset * cos_vert_angle)%single in
  let min_intensity := min_intensity corrections in
  let max_intensity := max_intensity corrections in
  let intensity := f raw_intensity in
  let focal_offset :=
    (f 256 * (f 1 - focal_distance corrections / f 13100)
           * (f 1 - focal_distance corrections / f 13100))%single in
  let focal_slope := focal_slope corrections in
  let intensity :=
    (intensity + focal_slope * Fp.abs (focal_offset - f 256
       * (f 1 - f tmp_uint / f 65535) * (f 1 - f tmp_uint / f 65535)))%single in
  let intensity := if Fp.ltb intensity min_intensity then min_intensity else intensity in
  let intensity := if Fp.gtb intensity max_intensity then max_intensity else intensity in
  {| distance := distance;
     x_coord := y; y_coord := Fp.neg x; z_coord := z;
     intensity_ := intensity |}.

(** Lines 319-353: the coordinates are stored as they are, or after the
    transform into the target frame. *)
Definition store_coordinates (scan : VelodyneScan) (pkt : VelodynePacket)
    (col row : Z) (p : reading) (e : env) : ctl * env :=
  let store vx vy vz e :=
    cloud_update col row (set_x vx) e >>> fun e =>
    cloud_update col row (set_y vy) e >>> fun e =>
    cloud_update col row (set_z vz) e in
  match tf_listener_ rd with
  | Some tf =>
      if string_empty (frame_id cfg) then
        store (x_coord p) (y_coord p) (z_coord p) e
      else
        let t_point :=
          {| ps_stamp := (stamp pkt, Fp.zero);
             ps_frame_id := scan_frame_id scan;
             ps_x := Double.of_single (x_coord p);
             ps_y := Double.of_single (y_coord p);
             ps_z := Double.of_single (z_coord p) |} in
        match transformPoint tf (pc_frame_id (cloud e)) t_point with
        | None => (Next, emit WarnTransform e)          (* skip this point *)
        | Some t =>
            store (Single.of_double (ps_x t)) (Single.of_double (ps_y t))
                  (Single.of_double (ps_z t)) e
        end
  | None => store (x_coord p) (y_coord p) (z_coord p) e
  end.

(** Lines 174-178. *)
Definition bank_origin (blk : raw_block_t) : Z :=
  if header blk =? LOWER_BANK K then 32 else 0.

(** Lines 192-194 and 442-444: the two bytes read through
    [union two_bytes]. *)
Definition distance_code (blk : raw_block_t) (k : Z) : Z :=
  byte_at (data blk) k + 256 * byte_at (data blk) (k + 1).

(** Lines 186-188; [laser_number] is a [uint8_t]. *)
Definition reading_corrections (blk : raw_block_t) (j : Z) : LaserCorrection :=
  laser_corrections (calibration_ rd) ((j + bank_origin blk) mod 256).

(** The values of reading [j] of a block. *)
Definition reading_values (blk : raw_block_t) (j : Z) : reading :=
  let k := j * RAW_SCAN_SIZE K in
  unpack_point (reading_corrections blk j) (rotation blk)
    (distance_code blk k) (byte_at (data blk) (k + 2)).

(** Lines 308-353: the ring, then, for a reading in range, the intensity
    and the coordinates. *)
Definition store_point (scan : VelodyneScan) (pkt : VelodynePacket)
    (col row : Z) (corrections : LaserCorrection) (p : reading) (e : env) : ctl * env :=
  cloud_update col row (set_ring (laser_ring corrections)) e >>> fun e =>
  if negb (pointInRange (distance p)) then (Next, e) else
  cloud_update col row (set_intensity (intensity_ p)) e >>> fun e =>
  store_coordinates scan pkt col row p e.

(** The body of the loop over [j] (lines 180-355); the state is the
    cloud with the trace, and [n_points]. *)
Definition unpack_reading (scan : VelodyneScan) (pkt : VelodynePacket) (i j : Z)
    (s : env * Z) : ctl * (env * Z) :=
  let '(e, n_points) := s in
  let blk := block_at (blocks pkt) i in
  let corrections := reading_corrections blk j in
  if in_angle_window (rotation blk) then
    let e := emit (TrigLookup (rotation blk)) e in
    let p := reading_values blk j in
    if num =? 0 then (Aborted, (e, n_points)) else
    let col := Z.quot n_points num in
    let row := num - 1 - laser_ring corrections in
    let n_points := n_points + 1 in
    let r := store_point scan pkt col row corrections p e in
    (r.1, (r.2, n_points))
  else (Next, (e, n_points)).

Definition unpack_block (scan : VelodyneScan) (pkt : VelodynePacket) (i : Z)
    (s : env * Z) : ctl * (env * Z) :=
  for_each (unpack_reading scan pkt i) (seqZ 0 (SCANS_PER_BLOCK K)) s.

Definition unpack_packet (scan : VelodyneScan) (pkt : VelodynePacket)
    (s : env * Z) : ctl * (env * Z) :=
  for_each (unpack_block scan pkt) (seqZ 0 (BLOCKS_PER_PACKET K)) s.

(** Lines 147-162 and 373-388: header, frame, and the cloud resized
    with the NaN point. *)
Definition prepare_cloud (scan : VelodyneScan) (w : Z) (pc : VPointCloud) : VPointCloud :=
  let h := uint32 num in
  {| pc_stamp := scan_stamp scan;
     pc_frame_id := output_frame scan;
     width := w; height := h;
     points := resize (Z.to_nat (uint32 (w * h))) nanPoint (points pc) |}.

(** Line 150, in [size_t] arithmetic, stored in the [uint32_t] width. *)
Definition legacy_width (scan : VelodyneScan) : Z :=
  uint32 (uint64 (Z.of_nat (length (packets scan)) * SCANS_PER_PACKET K) / uint64 num).

(** The state before the first packet: the prepared cloud, [n_points = 0]. *)
Definition legacy_start (scan : VelodyneScan) (pc : VPointCloud) : env * Z :=
  ({| cloud := prepare_cloud scan (legacy_width scan) pc; trace := [] |}, 0).

(** The legacy path of [unpack] (lines 146-357). *)
Definition unpack_legacy (scan : VelodyneScan) (pc : VPointCloud) : ctl * (env * Z) :=
  if uint64 num =? 0 then (Aborted, ({| cloud := pc; trace := [] |}, 0)) else
  for_each (unpack_packet scan) (packets scan) (legacy_start scan pc).

(** *** [RawData::unpack_vlp16], 16-beam layout *)

(** Lines 454-459, on the corrected azimuth of the beam. *)
Definition in_angle_window_vlp16 (azimuth_corrected : Z) : bool :=
  ((azimuth_corrected >=? min_angle cfg) && (azimuth_corrected <=? max_angle cfg)
     && (min_angle cfg <? max_angle cfg))
  || ((min_angle cfg >? max_angle cfg)
        && ((azimuth_corrected <=? max_angle cfg)
            || (azimuth_corrected >=? min_angle cfg))).

(** Line 436: time of the beam firing from the beginning of the block. *)
Definition t_beam (dsr firing : Z) : spec_float :=
  (Single.of_int dsr * VLP16_DSR_TOFFSET K
   + Single.of_int firing * VLP16_FIRING_TOFFSET K)%single.

(** Lines 447-448. *)
Definition azimuth_corrected (azimuth azimuth_diff t : spec_float) : Z :=
  let azimuth_corrected_f :=
    (azimuth + azimuth_diff * t / VLP16_BLOCK_TDURATION K)%single in
  Z.rem (Fp.to_int (Fp.round azimuth_corrected_f)) 36000.

(** Lines 462-556: position and intensity of one reading. *)
Definition unpack_vlp16_point (corrections : LaserCorrection)
    (azimuth_corrected tmp_uint raw_intensity : Z) : reading :=
  let f := Single.of_int in
  let d := Double.of_single in
  let distance := (f tmp_uint * DISTANCE_RESOLUTION K)%single in
  let distance := (distance + dist_correction corrections)%single in
  let cos_vert_angle := cos_vert_correction corrections in
  let sin_vert_angle := sin_vert_correction corrections in
  let cos_rot_correction := cos_rot_correction corrections in
  let sin_rot_correction := sin_rot_correction corrections in
  let cos_rot_angle :=
    (cos_rot_table_ rd azimuth_corrected * cos_rot_correction
     + sin_rot_table_ rd azimuth_corrected * sin_rot_correction)%single in
  let sin_rot_angle :=
    (sin_rot_table_ rd azimuth_corrected * cos_rot_correction
     - cos_rot_table_ rd azimuth_corrected * sin_rot_correction)%single in
  let horiz_offset := horiz_offset_correction corrections in
  let vert_offset := vert_offset_correction corrections in
  let xy_distance := (distance * cos_vert_angle - vert_offset * sin_vert_angle)%single in
  let xx := (xy_distance * sin_rot_angle - horiz_offset * cos_rot_angle)%single in
  let yy := (xy_distance * cos_rot_angle + horiz_offset * sin_rot_angle)%single in
  let xx := if Fp.ltb xx (f 0) then Fp.neg xx else xx in
  let yy := if Fp.ltb yy (f 0) then Fp.neg yy else yy in
  let distance_corr_x :=
    if two_pt_correction_available corrections then
      let v := Single.of_double
        (d (dist_correction corrections - dist_correction_x corrections)%single
           * (d xx - Double.lit 24 10) / (Double.lit 2504 100 - Double.lit 24 10)
         + d (dist_correction_x corrections))%double in
      (v - dist_correction corrections)%single
    else f 0 in
  let distance_corr_y :=
    if two_pt_correction_available corrections then
      let v := Single.of_double
        (d (dist_correction corrections - dist_correction_y corrections)%single
           * (d yy - Double.lit 193 100) / (Double.lit 2504 100 - Double.lit 193 100)
         + d (dist_correction_y corrections))%double in
      (v - dist_correction corrections)%single
    else f 0 in
  let distance_x := (distance + distance_corr_x)%single in
  let xy_distance := (distance_x * cos_vert_angle - vert_offset * sin_vert_angle)%single in
  let x := (xy_distance * sin_rot_angle - horiz_offset * cos_rot_angle)%single in
  let distance_y := (distance + distance_corr_y)%single in
  let xy_distance := (distance_y * cos_vert_angle - vert_offset * sin_vert_angle)%single in
  let y := (xy_distance * cos_rot_angle + horiz_offset * sin_rot_angle)%single in
  let z := (distance_y * sin_vert_angle + vert_offset * cos_vert_angle)%single in
  let min_intensity := min_intensity corrections in
  let max_intensity := max_intensity corrections in
  let intensity := f raw_intensity in
  let focal_offset :=
    (f 256 * (f 1 - focal_distance corrections / f 13100)
           * (f 1 - focal_distance corrections / f 13100))%single in
  let focal_slope := focal_slope corrections in
  (* [tmp.uint/65535] divides two integers *)
  let intensity :=
    (intensity + focal_slope * Fp.abs (focal_offset - f (256
       * (1 - Z.quot tmp_uint 65535) * (1 - Z.quot tmp_uint 65535))%Z))%single in
  let intensity := if Fp.ltb intensity min_intensity then min_intensity else intensity in
  let intensity := if Fp.gtb intensity max_intensity then max_intensity else intensity in
  {| distance := distance;
     x_coord := y; y_coord := Fp.neg x; z_coord := z;
     intensity_ := intensity |}.

(** Lines 564-575; [packet] is a [size_t], the result an [int]. *)
Definition vlp16_col (dual_return : bool) (packet block firing : Z) : Z :=
  if dual_return then
    int32 (uint64 (packet * BLOCKS_PER_PACKET K * VLP16_FIRINGS_PER_BLOCK K
                   + Z.quot block 2 * 2 * VLP16_FIRINGS_PER_BLOCK K
                   + firing * 2
                   + Z.rem block 2))
  else
    int32 (uint64 (packet * BLOCKS_PER_PACKET K * VLP16_FIRINGS_PER_BLOCK K
                   + block * VLP16_FIRINGS_PER_BLOCK K
                   + firing)).

(** The values of beam [dsr] of firing [firing] of a block, at the
    corrected azimuth [az]. *)
Definition vlp16_values (blk : raw_block_t) (firing dsr az : Z) : reading :=
  let k := (firing * VLP16_SCANS_PER_FIRING K + dsr) * RAW_SCAN_SIZE K in
  unpack_vlp16_point (laser_corrections (calibration_ rd) dsr) az
    (distance_code blk k) (byte_at (data blk) (k + 2)).

(** Lines 577-612: the NaN point with the ring, then, for a reading in
    range, coordinates and intensity. *)
Definition store_vlp16_point (scan : VelodyneScan) (pkt : VelodynePacket)
    (offset : spec_float) (col row : Z) (point : VPoint) (p : reading) (e : env)
  : ctl * env :=
  let store vx vy vz e :=
    cloud_update col row (set_x vx) e >>> fun e =>
    cloud_update col row (set_y vy) e >>> fun e =>
    cloud_update col row (set_z vz) e >>> fun e =>
    cloud_update col row
      (set_intensity (Single.of_int (Fp.to_uint8 (Fp.trunc (intensity_ p))))) e in
  cloud_update col row (fun _ => point) e >>> fun e =>
  if negb (pointInRange (distance p)) then (Next, e) else
  match tf_listener_ rd with
  | Some tf =>
      if string_empty (frame_id cfg) then
        store (x_coord p) (y_coord p) (z_coord p) e
      else
        let t_point :=
          {| ps_stamp := (stamp pkt, offset);
             ps_frame_id := scan_frame_id scan;
             ps_x := Double.of_single (x_coord p);
             ps_y := Double.of_single (y_coord p);
             ps_z := Double.of_single (z_coord p) |} in
        match transformPoint_fixed tf (frame_id cfg) (scan_stamp scan) t_point
                (fixed_frame_id cfg) with
        | None => (Next, emit WarnTransform e)        (* skip this point *)
        | Some t =>
            store (Single.of_double (ps_x t)) (Single.of_double (ps_y t))
                  (Single.of_double (ps_z t)) e
        end
  | None => store (x_coord p) (y_coord p) (z_coord p) e
  end.

(** The body of the loop over [dsr] (lines 434-614). *)
Definition unpack_vlp16_reading (scan : VelodyneScan) (packet : Z) (pkt : VelodynePacket)
    (dual_return : bool) (block : Z) (azimuth azimuth_diff : spec_float)
    (firing dsr : Z) (e : env) : ctl * env :=
  let blk := block_at (blocks pkt) block in
  let t := t_beam dsr firing in
  let corrections := laser_corrections (calibration_ rd) dsr in
  let az := azimuth_corrected azimuth azimuth_diff t in
  let offset :=
    (Double.of_single (Single.of_int block * VLP16_BLOCK_TDURATION K + t)%single
     * Double.lit 1 1000000)%double in
  let e := emit (AzimuthLine offset az) e in
  if in_angle_window_vlp16 az then
    let e := emit (TrigLookup az) e in
    let p := vlp16_values blk firing dsr az in
    let point :=
      {| x := Fp.nan; y := Fp.nan; z := Fp.nan; intensity := Single.of_int 0;
         ring := laser_ring corrections |} in
    let row := num - 1 - ring point in
    let col := vlp16_col dual_return packet block firing in
    store_vlp16_point scan pkt offset col row point p e
  else (Next, e).

(** Lines 423-430: the azimuth difference of the block and the value
    remembered for the blocks without a successor. *)
Definition block_azimuth_diff (pkt : VelodynePacket) (i_diff block : Z)
    (last_azimuth_diff : spec_float) : spec_float * spec_float :=
  if block <? BLOCKS_PER_PACKET K - i_diff then
    let azimuth_diff :=
      Single.of_int
        (Z.rem (36000 + rotation (block_at (blocks pkt) (block + i_diff))
                - rotation (block_at (blocks pkt) block)) 36000) in
    (azimuth_diff, azimuth_diff)
  else (last_azimuth_diff, last_azimuth_diff).

(** The body of the loop over [block] (lines 411-616); the state is the
    cloud with the trace, and [last_azimuth_diff]. *)
Definition unpack_vlp16_block (scan : VelodyneScan) (packet : Z) (pkt : VelodynePacket)
    (dual_return : bool) (i_diff block : Z) (s : env * spec_float)
  : ctl * (env * spec_float) :=
  let '(e, last_azimuth_diff) := s in
  let blk := block_at (blocks pkt) block in
  if negb (UPPER_BANK K =? header blk) then
    (Returned, (emit (WarnBadHeader block (header blk)) e, last_azimuth_diff))
  else
    let azimuth := Single.of_int (rotation blk) in
    let '(azimuth_diff, last_azimuth_diff) :=
      block_azimuth_diff pkt i_diff block last_azimuth_diff in
    let r :=
      for_each
        (fun firing =>
           for_each
             (unpack_vlp16_reading scan packet pkt dual_return block
                azimuth azimuth_diff firing)
             (seqZ 0 (VLP16_SCANS_PER_FIRING K)))
        (seqZ 0 (VLP16_FIRINGS_PER_BLOCK K)) e in
    (r.1, (r.2, last_azimuth_diff)).

(** Line 403. *)
Definition is_dual_return (pkt : VelodynePacket) : bool :=
  byte_at (status pkt) (PACKET_STATUS_SIZE K - 2) =? 0x39.

(** The body of the loop over [packet] (lines 391-617). *)
Definition unpack_vlp16_packet (scan : VelodyneScan) (packet : Z) (pkt : VelodynePacket)
    (s : env * spec_float) : ctl * (env * spec_float) :=
  if negb (Fp.ltb (packet_interp_time K (time pkt))
                  (Double.of_int 3600 * Double.lit 1000000 1)%double) then
    (Aborted, s)
  else
    let dual_return := is_dual_return pkt in
    let i_diff := 1 + (if dual_return then 1 else 0) in
    for_each (unpack_vlp16_block scan packet pkt dual_return i_diff)
      (seqZ 0 (BLOCKS_PER_PACKET K)) s.

(** Line 376, in [size_t] arithmetic, stored in the [uint32_t] width. *)
Definition vlp16_width (scan : VelodyneScan) : Z :=
  uint32 (uint64 (Z.of_nat (length (packets scan)) * BLOCKS_PER_PACKET K
                  * VLP16_FIRINGS_PER_BLOCK K)).

(** The state before the first packet: the prepared cloud,
    [last_azimuth_diff = 0.0]. *)
Definition vlp16_start (scan : VelodyneScan) (pc : VPointCloud) : env * spec_float :=
  ({| cloud := prepare_cloud scan (vlp16_width scan) pc; trace := [] |}, Single.of_int 0).

Definition unpack_vlp16 (scan : VelodyneScan) (pc : VPointCloud)
  : ctl * (env * spec_float) :=
  for_each_from (unpack_vlp16_packet scan) 0 (packets scan) (vlp16_start scan pc).

(** [RawData::unpack] *)
Definition unpack (scan : VelodyneScan) (pc : VPointCloud) : ctl * env :=
  if num =? 16 then
    let r := unpack_vlp16 scan pc in (r.1, r.2.1)
  else
    let r := unpack_legacy scan pc in (r.1, r.2.1).
End Decoder.

(** ** Vocabulary of the statements *)

(** The events the stores of one reading may emit after the first call of
    [pc.at(col, row)]. *)
Definition cell_event (col row : Z) (ev : event) : Prop :=
  ev = CloudAt col row \/ ev = WarnTransform.

(** A piece of the decoder that, started where [pc.at(col, row)] is the
    cell [idx], falls through after stores into that cell which leave its
    ring alone. *)
Definition ok_result (col row : Z) (idx : nat) (e : env) (r : ctl * env) : Prop :=
  at_index (cloud e) col row = Some idx ->
  exists e', r = (Next, e') /\
    exists g evs,
      (forall p0, ring (g p0) = ring p0)
      /\ cloud e' = with_points (alter g idx (points (cloud e))) (cloud e)
      /\ trace e' = trace e ++ evs
      /\ Forall (cell_event col row) evs.

(** The effect of one reading aimed at [(col, row)]: the events [pre],
    the first call of [pc.at], further events of the cell; the cell, when it
    exists, is rewritten and ends with ring [rng], otherwise the call throws
    and the cloud is as before. *)
Definition cell_effect (pre : list event) (col row rng : Z) (e : env)
    (r : ctl * env) : Prop :=
  (r.1 = match at_index (cloud e) col row with Some _ => Next | None => Thrown end)
  /\ exists evs,
      trace r.2 = trace e ++ pre ++ CloudAt col row :: evs
      /\ Forall (cell_event col row) evs
      /\ match at_index (cloud e) col row with
         | Some idx =>
             exists g, cloud r.2 = with_points (alter g idx (points (cloud e))) (cloud e)
                       /\ forall p0, ring (g p0) = rng
         | None => cloud r.2 = cloud e
         end.

(** The beam readings of a scan, in the order of the loops over packets,
    blocks and readings. *)
Definition scan_readings (K : Constants) (scan : VelodyneScan)
  : list (VelodynePacket * (Z * Z)) :=
  packets scan ≫= fun pkt =>
    (fun ij => (pkt, ij)) <$>
      (seqZ 0 (BLOCKS_PER_PACKET K) ≫= fun i =>
         (fun j => (i, j)) <$> seqZ 0 (SCANS_PER_BLOCK K)).

(** The loop body at a reading of that list. *)
Definition reading_step (K : Constants) (rd : RawData) (scan : VelodyneScan)
    (r : VelodynePacket * (Z * Z)) (s : env * Z) : ctl * (env * Z) :=
  unpack_reading K rd scan r.1 r.2.1 r.2.2 s.

(** The rotation code of the reading's block passes the angle gate. *)
Definition passes_gate (rd : RawData) (r : VelodynePacket * (Z * Z)) : bool :=
  in_angle_window rd (rotation (block_at (blocks r.1) r.2.1)).

(** [e'] is reached from [e] by a piece of the decoder: the dimensions of
    the cloud are those of [e], the trace grew by events that satisfy [Q],
    and a cell that none of the new [pc.at] calls addresses holds what it
    held in [e]. *)
Definition extends (Q : event -> Prop) (e e' : env) : Prop :=
  width (cloud e') = width (cloud e)
  /\ height (cloud e') = height (cloud e)
  /\ length (points (cloud e')) = length (points (cloud e))
  /\ exists evs,
       trace e' = trace e ++ evs
       /\ Forall Q evs
       /\ forall k,
            (forall col row, CloudAt col row ∈ evs -> at_index (cloud e) col row <> Some k) ->
            points (cloud e') !! k = points (cloud e) !! k.

(** The throttled logging macros ([ROS_WARN_THROTTLE] and the like), one
    state per call site: a request at time [now] is printed when nothing was
    printed at this site during the last [period]. [printed] gives the times
    of the printed messages among requests made at the given times. *)
Fixpoint printed (period : Z) (last : option Z) (requests : list Z) : list Z :=
  match requests with
  | [] => []
  | now :: rest =>
      match last with
      | Some t =>
          if t + period <=? now then now :: printed period (Some now) rest
          else printed period last rest
      | None => now :: printed period (Some now) rest
      end
  end.

Definition is_bad_header (ev : event) : bool :=
  match ev with WarnBadHeader _ _ => true | _ => false end.

(** Consecutive times of a list lie at least [period] apart, the first at
    least [period] after [last]. *)
Fixpoint spaced (period : Z) (last : option Z) (l : list Z) : Prop :=
  match l with
  | [] => True
  | t :: l' =>
      match last with Some t0 => t0 + period <= t | None => True end
      /\ spaced period (Some t) l'
  end.

(** [Q] holds of the events that do not depend on the reading. *)
Definition plain_events (Q : event -> Prop) : Prop :=
  (forall offset az, Q (AzimuthLine offset az)) /\ Q WarnTransform.

(** Magnitudes of floating-point values: [fits k x] reads [0 <= x < 2^k],
    [at_least j x] reads [2^j <= x]; both exclude infinities and NaN. *)
Definition fits (k : Z) (x : spec_float) : Prop :=
  match x with
  | S754_zero _ => True
  | S754_finite false m e => Zpos m < 2 ^ (k - e)
  | _ => False
  end.

Definition at_least (j : Z) (x : spec_float) : Prop :=
  match x with
  | S754_finite false m e => e <= j /\ 2 ^ (j - e) <= Zpos m
  | _ => False
  end.

Definition fitsb (k : Z) (x : spec_float) : bool :=
  match x with
  | S754_zero _ => true
  | S754_finite false m e => Zpos m <? 2 ^ (k - e)
  | _ => false
  end.

Definition at_leastb (j : Z) (x : spec_float) : bool :=
  match x with
  | S754_finite false m e => (e <=? j) && (2 ^ (j - e) <=? Zpos m)
  | _ => false
  end.

(** The timing constants of the 16-beam layout are sane: every beam fires
    in [0, 128) microseconds from the beginning of its block and a block
    lasts 64 microseconds or more. *)
Definition timing_ok (K : Constants) : bool :=
  forallb (fun firing =>
             forallb (fun dsr => fitsb 7 (t_beam K dsr firing))
                     (seqZ 0 (VLP16_SCANS_PER_FIRING K)))
          (seqZ 0 (VLP16_FIRINGS_PER_BLOCK K))
  && at_leastb 6 (VLP16_BLOCK_TDURATION K).

(** *** The azimuth interpolation in the words of the specification *)

(** The azimuth difference of block [i] to block [i + s], modulo 36000. *)
Definition spec_azimuth_diff (pkt : VelodynePacket) (s i : Z) : Z :=
  (36000 + rotation (block_at (blocks pkt) (i + s)) - rotation (block_at (blocks pkt) i))
  mod 36000.

(** The difference used for block [i]: its own when block [i + s] exists,
    otherwise the last one computed, that of block
    [BLOCKS_PER_PACKET - s - 1]. *)
Definition spec_block_diff (K : Constants) (pkt : VelodynePacket) (s i : Z) : spec_float :=
  Single.of_int (spec_azimuth_diff pkt s (Z.min i (BLOCKS_PER_PACKET K - s - 1))).

(** [round(block_azimuth + diff * t_offset / block_duration) mod 36000]
    with [t_offset = dsr * per_beam_time_offset + f * per_firing_time_offset],
    in single precision. *)
Definition spec_azimuth_corrected (K : Constants) (block_azimuth : Z) (diff : spec_float)
    (dsr f : Z) : Z :=
  let t_offset :=
    (Single.of_int dsr * VLP16_DSR_TOFFSET K
     + Single.of_int f * VLP16_FIRING_TOFFSET K)%single in
  match Fp.round (Single.of_int block_azimuth
                  + diff * t_offset / VLP16_BLOCK_TDURATION K)%single with
  | Some z => z mod 36000
  | None => 0
  end.

(** Every block of the packet carries a rotation code of the circle. *)
Definition rotations_ok (pkt : VelodynePacket) : Prop :=
  Forall (fun blk => 0 <= rotation blk < 36000) (blocks pkt).

(** An indexed access stays inside its array: the heading tables have
    36000 entries, the cloud [w] columns and [h] rows. *)
Definition in_bounds (w h : Z) (ev : event) : bool :=
  match ev with
  | TrigLookup i => (0 <=? i) && (i <? 36000)
  | CloudAt col row => (0 <=? col) && (col <? w) && (0 <=? row) && (row <? h)
  | _ => true
  end.

(** The calibration gives every laser a ring of the grid. *)
Definition rings_ok (rd : RawData) : Prop :=
  forall l, 0 <= laser_ring (laser_corrections (calibration_ rd) l)
            < num_lasers (calibration_ rd).
(** ** Values of floating-point numbers

    The rational number a finite [spec_float] denotes, for the bounds on
    the angle window of [setParameters]. *)

From Stdlib Require Import QArith Qpower Lqa.
Local Open Scope Z_scope.

Definition q2 (e : Z) : Q := (2 ^ e)%Q.

Definition SF2Q (x : spec_float) : Q :=
  match x with
  | S754_finite s m e => (inject_Z (cond_Zopp s (Zpos m)) * q2 e)%Q
  | _ => 0%Q
  end.

(** A zero or a finite number. *)
Definition is_finite (x : spec_float) : bool :=
  match x with S754_zero _ | S754_finite _ _ _ => true | _ => false end.

(** A zero or a positive finite number. *)
Definition nonneg_finite (x : spec_float) : Prop :=
  match x with
  | S754_zero _ | S754_finite false _ _ => True
  | _ => False
  end.

(** The mantissa of a finite number has at most [prec] digits and its
    exponent is at least [emin], as for every number of the format. *)
Definition in_format (prec emax : Z) (x : spec_float) : Prop :=
  match x with
  | S754_finite _ m e => Zdigits2 (Zpos m) <= prec /\ emin prec emax <= e
  | _ => True
  end.

(** ** Messages of [RawData::setParameters] *)

Inductive frame_info :=
| ROS_INFO_fixed_frame (f : string)      (* "Fixed frame: " *)
| ROS_INFO_target_frame (f : string).    (* "Target frame: " *)

(** Lines 81-91: a frame is reported when it is not empty and differs from
    the one the configuration held before the call; the fixed frame first. *)
Definition setParameters_log (frame_id' fixed_frame_id' : string) (rd : RawData)
  : list frame_info :=
  let last_fixed_frame_id := fixed_frame_id (config_ rd) in
  let last_frame_id := frame_id (config_ rd) in
  (if negb (string_empty fixed_frame_id')
      && negb (String.eqb fixed_frame_id' last_fixed_frame_id)
   then [ROS_INFO_fixed_frame fixed_frame_id'] else [])
  ++ (if negb (string_empty frame_id') && negb (String.eqb frame_id' last_frame_id)
      then [ROS_INFO_target_frame frame_id'] else []).

(** ** Vocabulary of the statements about whole scans *)

(** Header, dimensions and number of points of [pc'] are those of [pc]. *)
Definition same_header (pc pc' : VPointCloud) : Prop :=
  pc_stamp pc' = pc_stamp pc /\ pc_frame_id pc' = pc_frame_id pc
  /\ width pc' = width pc /\ height pc' = height pc
  /\ length (points pc') = length (points pc).

(** [pc] is a grid of [w] columns and [h] rows that holds all its cells. *)
Definition grid (w h : Z) (pc : VPointCloud) : Prop :=
  width pc = w /\ height pc = h /\ Z.of_nat (length (points pc)) = w * h.

(** Row-major position of a cell. *)
Definition cell_row (w : Z) (k : nat) : Z := Z.of_nat k / w.
Definition cell_col (w : Z) (k : nat) : Z := Z.of_nat k mod w.

(** Every cell of [pc] holds what it held in [pc0], or a point whose ring
    is the one of its row: row [num - 1 - ring]. *)
Definition rows_by_ring (num : Z) (pc0 pc : VPointCloud) : Prop :=
  forall k p, points pc !! k = Some p ->
    points pc0 !! k = Some p \/ ring p = num - 1 - cell_row (width pc0) k.

(** The assertion of line 399 holds for the packet. *)
Definition time_asserted (K : Constants) (pkt : VelodynePacket) : bool :=
  Fp.ltb (packet_interp_time K (time pkt))
         (Double.of_int 3600 * Double.lit 1000000 1)%double.

(** Every block of the packet carries the marker [UPPER_BANK]. *)
Definition headers_ok (K : Constants) (pkt : VelodynePacket) : Prop :=
  forall b, 0 <= b < BLOCKS_PER_PACKET K ->
            header (block_at (blocks pkt) b) = UPPER_BANK K.

Definition is_azimuth_line (ev : event) : bool :=
  match ev with AzimuthLine _ _ => true | _ => false end.

Definition is_warning (ev : event) : bool :=
  match ev with WarnTransform | WarnBadHeader _ _ => true | _ => false end.

(** The decoder finished without an exception and without stopping the
    process. *)
Definition completed (c : ctl) : Prop := c = Next \/ c = Returned.

(** [x] is a number or an infinity. *)
Definition is_nan (x : spec_float) : bool :=
  match x with S754_nan => true | _ => false end.

(** Dual-return packets carry every azimuth twice: the blocks [2 b] and
    [2 b + 1] hold the two returns of the same firings. *)
Definition paired_rotations (pkt : VelodynePacket) : Prop :=
  forall b, rotation (block_at (blocks pkt) (2 * b + 1))
            = rotation (block_at (blocks pkt) (2 * b)).

(** The number of lines written to the azimuth file. *)
Definition azimuth_lines (e : env) : Z :=
  Z.of_nat (length (List.filter is_azimuth_line (trace e))).

(** ** Worked examples: a small calibration, configuration and scans *)

Definition demo_correction (r : Z) : LaserCorrection :=
  {| dist_correction := Fp.zero; two_pt_correction_available := false;
     dist_correction_x := Fp.zero; dist_correction_y := Fp.zero;
     vert_offset_correction := Fp.zero; horiz_offset_correction := Fp.zero;
     max_intensity := Single.of_int 255; min_intensity := Single.of_int 0;
     focal_distance := Fp.zero; focal_slope := Single.of_int 1;
     cos_rot_correction := Single.of_int 1; sin_rot_correction := Fp.zero;
     cos_vert_correction := Single.of_int 1; sin_vert_correction := Fp.zero;
     laser_ring := r |}.

(** [n] lasers, laser [i] on ring [i mod n]. *)
Definition demo_calibration (n : Z) : Calibration :=
  {| laser_corrections := fun i => demo_correction (i mod n);
     num_lasers := n; initialized := true |}.

(** Ranges from 0.9 to 130, the window [mn, mx], and a target frame. *)
Definition demo_config (mn mx : Z) (target : string) : Config :=
  {| calibrationFile := EmptyString;
     max_range := Double.of_int 130; min_range := Double.lit 9 10;
     min_angle := mn; max_angle := mx;
     tmp_min_angle := Fp.zero; tmp_max_angle := Fp.zero;
     frame_id := target; fixed_frame_id := EmptyString |}.

(** A listener whose every lookup throws. *)
Definition failing_listener : TransformListener :=
  {| transformPoint := fun _ _ => None;
     transformPoint_fixed := fun _ _ _ _ => None |}.

Definition demo_rd (n : Z) (c : Config) (tf : option TransformListener) : RawData :=
  {| config_ := c; calibration_ := demo_calibration n;
     sin_rot_table_ := fun _ => Fp.zero; cos_rot_table_ := fun _ => Single.of_int 1;
     tf_listener_ := tf |}.

(** A block whose 32 readings all carry distance code [d] and
    reflectivity [i]. *)
Definition demo_block (h r d i : Z) : raw_block_t :=
  {| header := h; rotation := r;
     data := concat (replicate 32 [d mod 256; d / 256; i]) |}.

(** Twelve blocks with the headers [h b] and rotation codes [100 * b]. *)
Definition demo_packet (h : Z -> Z) (d : Z) (ret : Z) : VelodynePacket :=
  {| stamp := 0;
     blocks := (fun b => demo_block (h b) (100 * b) d 50) <$> seqZ 0 12;
     status := [0; 0; ret; 0x22]; time := 5 |}.

Definition demo_scan (ps : list VelodynePacket) : VelodyneScan :=
  {| scan_stamp := 0; scan_frame_id := "velodyne"; packets := ps |}.

Definition empty_cloud : VPointCloud :=
  {| pc_stamp := 0; pc_frame_id := EmptyString; width := 0; height := 0; points := [] |}.

Definition unread_calibration : Calibration :=
  {| laser_corrections := demo_correction; num_lasers := 0; initialized := false |}.

(** No [calibration] parameter; only the packaged file can be read. *)
Definition env_without_parameter : SetupEnv :=
  {| getParam := fun _ => None;
     package_path := "/opt/velodyne_pointcloud";
     read_calibration := fun file =>
       if String.eqb file "/opt/velodyne_pointcloud/params/64e_utexas.yaml"
       then demo_calibration 64 else unread_calibration;
     cosf_of_code := fun _ => Single.of_int 1;
     sinf_of_code := fun _ => Fp.zero |}.

(** A [calibration] parameter naming a readable file with five lasers. *)
Definition env_five_lasers : SetupEnv :=
  {| getParam := fun name =>
       if String.eqb name "calibration" then Some "five.yaml" else None;
     package_path := "/opt/velodyne_pointcloud";
     read_calibration := fun file =>
       if String.eqb file "five.yaml" then demo_calibration 5 else unread_calibration;
     cosf_of_code := fun _ => Single.of_int 1;
     sinf_of_code := fun _ => Fp.zero |}.

(** A [calibration] parameter naming a file that cannot be read. *)
Definition env_unreadable : SetupEnv :=
  {| getParam := fun name =>
       if String.eqb name "calibration" then Some "missing.yaml" else None;
     package_path := "/opt/velodyne_pointcloud";
     read_calibration := fun _ => unread_calibration;
     cosf_of_code := fun _ => Single.of_int 1;
     sinf_of_code := fun _ => Fp.zero |}.

(** The object before [setup]. *)
Definition fresh_rd : RawData :=
  demo_rd 0 (demo_config 0 36000 EmptyString) None.

(** Headers of a 64-beam packet: upper and lower bank in turn. *)
Definition hdl64_headers (b : Z) : Z := if Z.even b then 0xeeff else 0xddff.
Definition vlp16_headers (b : Z) : Z := 0xeeff.

(** A 64-beam and a 16-beam decoder with target frame [map] and a
    listener that always fails, each with a scan of one packet. *)
Definition rd64_failing_tf : RawData :=
  demo_rd 64 (demo_config 0 36000 "map") (Some failing_listener).
Definition rd16_failing_tf : RawData :=
  demo_rd 16 (demo_config 0 36000 "map") (Some failing_listener).
Definition scan64 : VelodyneScan := demo_scan [demo_packet hdl64_headers 1000 0x37].
Definition scan16 : VelodyneScan := demo_scan [demo_packet vlp16_headers 1000 0x37].

(** Decoders without a target frame, and packets whose readings lie at
    0.2, below the minimum range 0.9. *)
Definition rd64 : RawData := demo_rd 64 (demo_config 0 36000 EmptyString) None.
Definition rd16 : RawData := demo_rd 16 (demo_config 0 36000 EmptyString) None.
Definition near_packet64 : VelodynePacket := demo_packet hdl64_headers 100 0x37.
Definition near_packet16 : VelodynePacket := demo_packet vlp16_headers 100 0x37.

(** The clouds the decoders start from for a scan of one packet. *)
Definition start64 : env :=
  {| cloud := prepare_cloud rd64 (demo_scan [near_packet64]) 6 empty_cloud; trace := [] |}.
Definition start16 : env :=
  {| cloud := prepare_cloud rd16 (demo_scan [near_packet16]) 24 empty_cloud; trace := [] |}.

(** A 64-beam decoder whose window [100, 1000] rejects the first block of
    [scan64] (rotation code 0), and the state it reaches after forty
    readings, eight of them in the window. *)
Definition rd64_window : RawData := demo_rd 64 (demo_config 100 1000 EmptyString) None.
Definition readings64 : list (VelodynePacket * (Z * Z)) :=
  scan_readings velodyne_constants scan64.
Definition reading40 : VelodynePacket * (Z * Z) := (demo_packet hdl64_headers 1000 0x37, (1, 8)).
Definition state40 : env * Z :=
  (for_each (reading_step velodyne_constants rd64_window scan64) (take 40 readings64)
     (legacy_start velodyne_constants rd64_window scan64 empty_cloud)).2.

(** A 16-beam scan of two packets; block 3 of the first packet carries a
    wrong marker. The state before that block, after blocks 0 to 2. *)
Definition bad_packet16 : VelodynePacket :=
  demo_packet (fun b => if b =? 3 then 0x1234 else 0xeeff) 1000 0x37.
Definition bad_scan16 : VelodyneScan := demo_scan [bad_packet16; demo_packet vlp16_headers 1000 0x37].
Definition before_bad_block : env * spec_float :=
  (for_each (unpack_vlp16_block velodyne_constants rd16 bad_scan16 0 bad_packet16 false 1)
     (seqZ 0 3) (vlp16_start velodyne_constants rd16 bad_scan16 empty_cloud)).2.

(** The state of the 16-beam decoder before the last block of [scan16]. *)
Definition before_last_block : env * spec_float :=
  (for_each (unpack_vlp16_block velodyne_constants rd16 scan16 0
               (demo_packet vlp16_headers 1000 0x37) false 1)
     (seqZ 0 11) (vlp16_start velodyne_constants rd16 scan16 empty_cloud)).2.

(** A calibration of forty lasers (rings 0 to 39) for the legacy decoder. *)
Definition rd40 : RawData := demo_rd 40 (demo_config 0 36000 EmptyString) None.
Definition scan32 : VelodyneScan := demo_scan [demo_packet vlp16_headers 1000 0x37].

(** Closed facts about the worked examples. *)
Ltac by_computation :=
  vm_compute; repeat split; solve [reflexivity | discriminate].

(** A listener that moves every point one unit along x into frame [map]. *)
Definition shift_point (pt : PointStamped) : PointStamped :=
  {| ps_stamp := ps_stamp pt; ps_frame_id := "map";
     ps_x := Double.add (ps_x pt) (Double.of_int 1);
     ps_y := ps_y pt; ps_z := ps_z pt |}.
Definition shifting_listener : TransformListener :=
  {| transformPoint := fun _ pt => Some (shift_point pt);
     transformPoint_fixed := fun _ _ pt _ => Some (shift_point pt) |}.
Definition rd64_tf : RawData :=
  demo_rd 64 (demo_config 0 36000 "map") (Some shifting_listener).
Definition rd16_tf : RawData :=
  demo_rd 16 (demo_config 0 36000 "map") (Some shifting_listener).

(** The packet of [scan64] and [scan16], readings at 2.0. *)
Definition far_packet64 : VelodynePacket := demo_packet hdl64_headers 1000 0x37.
Definition far_packet16 : VelodynePacket := demo_packet vlp16_headers 1000 0x37.

(** The states the decoders start [scan64] and [scan16] from. *)
Definition begin64 : env := (legacy_start velodyne_constants rd64 scan64 empty_cloud).1.
Definition begin64_tf : env :=
  (legacy_start velodyne_constants rd64_tf scan64 empty_cloud).1.
Definition begin16 : env := (vlp16_start velodyne_constants rd16 scan16 empty_cloud).1.
Definition begin16_tf : env :=
  (vlp16_start velodyne_constants rd16_tf scan16 empty_cloud).1.

(** The first beam of [scan16], and the state after it was decoded once. *)
Definition first_beam16 (e : env) : ctl * env :=
  unpack_vlp16_reading velodyne_constants rd16 scan16 0 far_packet16 false 0
    (Single.of_int 0) (Single.of_int 100) 0 0 e.
Definition after_first_beam16 : env := (first_beam16 begin16).2.

(** A dual-return packet: the blocks [2 b] and [2 b + 1] carry the rotation
    code [100 * b]. *)
Definition dual_packet16 : VelodynePacket :=
  {| stamp := 0;
     blocks := (fun b => demo_block 0xeeff (100 * (b / 2)) 1000 50) <$> seqZ 0 12;
     status := [0; 0; 0x39; 0x22]; time := 5 |}.

(** * Properties *)

(** ** The angle gate and its configuration *)

Lemma in_angle_window_vlp16_plain (rd : RawData) (code : Z) :
  min_angle (config_ rd) < max_angle (config_ rd) ->
  in_angle_window_vlp16 rd code = true <->
  min_angle (config_ rd) <= code <= max_angle (config_ rd).
Proof.
  intros Hlt. unfold in_angle_window_vlp16.
  rewrite orb_true_iff, !andb_true_iff, orb_true_iff.
  rewrite Z.geb_le, !Z.leb_le, Z.ltb_lt, Z.gtb_gt. lia.
Qed.

Lemma in_angle_window_vlp16_wrapped (rd : RawData) (code : Z) :
  min_angle (config_ rd) > max_angle (config_ rd) ->
  in_angle_window_vlp16 rd code = true <->
  code >= min_angle (config_ rd) \/ code <= max_angle (config_ rd).
Proof.
  intros Hgt. unfold in_angle_window_vlp16.
  rewrite orb_true_iff, !andb_true_iff, orb_true_iff.
  rewrite Z.geb_le, !Z.leb_le, Z.ltb_lt, Z.gtb_gt. lia.
Qed.

Lemma in_angle_window_plain (rd : RawData) (code : Z) :
  min_angle (config_ rd) < max_angle (config_ rd) ->
  in_angle_window rd code = true <->
  min_angle (config_ rd) <= code <= max_angle (config_ rd).
Proof.
  intros Hlt. unfold in_angle_window.
  rewrite orb_true_iff, !andb_true_iff, orb_true_iff.
  rewrite Z.geb_le, !Z.leb_le, Z.ltb_lt, Z.gtb_gt. lia.
Qed.

Lemma in_angle_window_wrapped (rd : RawData) (code : Z) :
  min_angle (config_ rd) > max_angle (config_ rd) ->
  in_angle_window rd code = true <->
  code >= min_angle (config_ rd) \/ code <= max_angle (config_ rd).
Proof.
  intros Hgt. unfold in_angle_window.
  rewrite orb_true_iff, !andb_true_iff, orb_true_iff.
  rewrite Z.geb_le, !Z.leb_le, Z.ltb_lt, Z.gtb_gt. lia.
Qed.

Lemma normalize_window_cases (mn mx : Z) :
  (mn = mx /\ normalize_window mn mx = (0, 36000)) \/
  (mn <> mx /\ normalize_window mn mx = (mn, mx)).
Proof.
  unfold normalize_window. destruct (Z.eqb_spec mn mx); [left | right]; done.
Qed.

(** The window [setParameters] leaves in the configuration. *)
Lemma setParameters_window (mnr mxr vd vw : spec_float) (f ff : string) (rd : RawData) :
  let tmp_min := positive_modulo (Double.add vd (Double.div vw (Double.of_int 2))) in
  let tmp_max := positive_modulo (Double.sub vd (Double.div vw (Double.of_int 2))) in
  let c := config_ (setParameters mnr mxr vd vw f ff rd) in
  (min_angle c, max_angle c)
  = normalize_window (to_hardware_angle tmp_min) (to_hardware_angle tmp_max).
Proof.
  intros tmp_min tmp_max c. subst c. unfold setParameters.
  fold tmp_min tmp_max.
  destruct (normalize_window _ _) as [mn mx]. reflexivity.
Qed.

(** C3. Both decoders process a reading exactly when its rotation code
    lies in the configured window: between the borders when
    [min_angle < max_angle], outside the gap when [min_angle > max_angle]
    (wraparound). [setParameters] replaces a degenerate window
    ([min_angle = max_angle] after the conversion) by [0, 36000], so the
    configured borders are never equal and, in the degenerate case, every
    rotation code of the circle passes the gate of both decoders. *)
Theorem angle_gate_and_normalization
    (rd : RawData) (code : Z)
    (mnr mxr vd vw : spec_float) (f ff : string) :
  let c := config_ rd in
  let rd' := setParameters mnr mxr vd vw f ff rd in
  let hw_min := to_hardware_angle
      (positive_modulo (Double.add vd (Double.div vw (Double.of_int 2)))) in
  let hw_max := to_hardware_angle
      (positive_modulo (Double.sub vd (Double.div vw (Double.of_int 2)))) in
  (min_angle c < max_angle c ->
     (in_angle_window rd code = true <-> min_angle c <= code <= max_angle c) /\
     (in_angle_window_vlp16 rd code = true <-> min_angle c <= code <= max_angle c))
  /\ (min_angle c > max_angle c ->
     (in_angle_window rd code = true <-> code >= min_angle c \/ code <= max_angle c) /\
     (in_angle_window_vlp16 rd code = true <-> code >= min_angle c \/ code <= max_angle c))
  /\ min_angle (config_ rd') <> max_angle (config_ rd')
  /\ (hw_min = hw_max ->
      min_angle (config_ rd') = 0 /\ max_angle (config_ rd') = 36000 /\
      (0 <= code <= 36000 ->
       in_angle_window rd' code = true /\ in_angle_window_vlp16 rd' code = true))
  /\ (hw_min <> hw_max ->
      min_angle (config_ rd') = hw_min /\ max_angle (config_ rd') = hw_max).
Proof.
  intros c rd' hw_min hw_max.
  pose proof (setParameters_window mnr mxr vd vw f ff rd) as Hw.
  cbv zeta in Hw. fold rd' hw_min hw_max in Hw.
  clearbody rd' hw_min hw_max.
  destruct (normalize_window_cases hw_min hw_max) as [[He E] | [Hne E]];
    rewrite E in Hw; injection Hw as H0 H1.
  all: split; [| split; [| split; [| split]]].
  all: try (intros Hlt; split;
            [by apply in_angle_window_plain | by apply in_angle_window_vlp16_plain]).
  all: try (intros Hgt; split;
            [by apply in_angle_window_wrapped | by apply in_angle_window_vlp16_wrapped]).
  all: try lia.
  - intros _. split; [done | split; [done |]]. intros Hc.
    split; [apply in_angle_window_plain | apply in_angle_window_vlp16_plain]; lia.
Qed.

Lemma angle_gate_and_normalization_witness :
  let rd' := setParameters (Double.lit 9 10) (Double.of_int 130) Fp.zero two_pi
               EmptyString EmptyString fresh_rd in
  min_angle (config_ rd') = 0 /\ max_angle (config_ rd') = 36000
  /\ in_angle_window rd' 18000 = true /\ in_angle_window_vlp16 rd' 18000 = true.
Proof.
  destruct (angle_gate_and_normalization fresh_rd 18000 (Double.lit 9 10)
              (Double.of_int 130) Fp.zero two_pi EmptyString EmptyString)
    as (_ & _ & _ & H & _).
  destruct H as (H0 & H1 & H2); [vm_compute; reflexivity |].
  destruct H2 as [H2 H3]; [lia |].
  exact (conj H0 (conj H1 (conj H2 H3))).
Defined.

(** ** Machine integers in range *)

Lemma uint32_small (z : Z) : 0 <= z < 2 ^ 32 -> uint32 z = z.
Proof. intros H. unfold uint32. by apply Z.mod_small. Qed.

Lemma uint64_small (z : Z) : 0 <= z < 2 ^ 64 -> uint64 z = z.
Proof. intros H. unfold uint64. by apply Z.mod_small. Qed.

Lemma int32_small (z : Z) : - 2 ^ 31 <= z < 2 ^ 31 -> int32 z = z.
Proof. intros H. unfold int32. rewrite Z.mod_small; lia. Qed.

Lemma int32_uint64_small (z : Z) : 0 <= z < 2 ^ 31 -> int32 (uint64 z) = z.
Proof. intros H. rewrite uint64_small by lia. apply int32_small; lia. Qed.

(** ** Column arithmetic of the 16-beam decoder *)

Lemma vlp16_col_single (K : Constants) (p b f : Z) :
  let col := p * BLOCKS_PER_PACKET K * VLP16_FIRINGS_PER_BLOCK K
             + b * VLP16_FIRINGS_PER_BLOCK K + f in
  0 <= col < 2 ^ 31 ->
  vlp16_col K false p b f = col.
Proof. intros col H. unfold vlp16_col. by apply int32_uint64_small. Qed.

Lemma vlp16_col_dual (K : Constants) (p b f : Z) :
  let col := p * BLOCKS_PER_PACKET K * VLP16_FIRINGS_PER_BLOCK K
             + Z.quot b 2 * 2 * VLP16_FIRINGS_PER_BLOCK K + f * 2 + Z.rem b 2 in
  0 <= col < 2 ^ 31 ->
  vlp16_col K true p b f = col.
Proof. intros col H. unfold vlp16_col. by apply int32_uint64_small. Qed.

(** The columns of a packet lie in the packet's own range. *)
Lemma single_column_range (B F p b f : Z) :
  0 <= p -> 0 <= b < B -> 0 <= f < F ->
  p * B * F <= p * B * F + b * F + f < (p + 1) * B * F.
Proof. intros Hp Hb Hf. nia. Qed.

Lemma dual_column_range (B F p b f r : Z) :
  0 <= p -> 0 <= b -> 2 * b + 1 < B -> 0 <= f < F -> 0 <= r <= 1 ->
  p * B * F <= p * B * F + b * 2 * F + f * 2 + r < (p + 1) * B * F.
Proof. intros Hp Hb Hb' Hf Hr. nia. Qed.

Lemma single_column_inj (B F p b f p' b' f' : Z) :
  0 <= b < B -> 0 <= f < F -> 0 <= b' < B -> 0 <= f' < F ->
  p * B * F + b * F + f = p' * B * F + b' * F + f' ->
  p = p' /\ b = b' /\ f = f'.
Proof.
  intros Hb Hf Hb' Hf' E.
  destruct (Z.div_mod_unique F (p * B + b) (p' * B + b') f f') as [E1 E2];
    [lia | lia | lia |].
  destruct (Z.div_mod_unique B p p' b b') as [E3 E4]; [lia | lia | lia |].
  done.
Qed.

(** C5. Columns of the 16-beam decoder. Under dual return the two blocks
    [2b] and [2b + 1] of a pair are written, for the same firing, to the
    adjacent columns [base] and [base + 1] with
    [base = packet * BLOCKS_PER_PACKET * FIRINGS + b * 2 * FIRINGS + firing * 2],
    never to one column; under single return the column is
    [packet * BLOCKS_PER_PACKET * FIRINGS + block * FIRINGS + firing], it
    lies in the range of its packet, and different (packet, block, firing)
    triples get different columns. *)
Theorem vlp16_columns (K : Constants) (p b f p' b' f' : Z) :
  let B := BLOCKS_PER_PACKET K in
  let F := VLP16_FIRINGS_PER_BLOCK K in
  0 <= p -> 0 <= p' -> 0 <= b < B -> 0 <= b' < B -> 0 <= f < F -> 0 <= f' < F ->
  (p + 1) * B * F <= 2 ^ 31 -> (p' + 1) * B * F <= 2 ^ 31 ->
  (2 * b + 1 < B ->
     let base := p * B * F + b * 2 * F + f * 2 in
     vlp16_col K true p (2 * b) f = base + 0 /\
     vlp16_col K true p (2 * b + 1) f = base + 1 /\
     vlp16_col K true p (2 * b) f <> vlp16_col K true p (2 * b + 1) f)
  /\ vlp16_col K false p b f = p * B * F + b * F + f
  /\ p * B * F <= vlp16_col K false p b f < (p + 1) * B * F
  /\ (vlp16_col K false p b f = vlp16_col K false p' b' f' ->
      p = p' /\ b = b' /\ f = f').
Proof.
  intros B F Hp Hp' Hb Hb' Hf Hf' Hfit Hfit'.
  pose proof (single_column_range B F p b f Hp Hb Hf) as R.
  pose proof (single_column_range B F p' b' f' Hp' Hb' Hf') as R'.
  assert (0 <= p * B * F) by nia. assert (0 <= p' * B * F) by nia.
  assert (E : vlp16_col K false p b f = p * B * F + b * F + f)
    by (apply vlp16_col_single; fold B F; lia).
  assert (E' : vlp16_col K false p' b' f' = p' * B * F + b' * F + f')
    by (apply vlp16_col_single; fold B F; lia).
  split; [| split; [done | split; [lia |]]].
  - intros Hpair base.
    pose proof (dual_column_range B F p b f 0 Hp (proj1 Hb) Hpair Hf ltac:(lia)) as D0.
    pose proof (dual_column_range B F p b f 1 Hp (proj1 Hb) Hpair Hf ltac:(lia)) as D1.
    assert (E0 : vlp16_col K true p (2 * b) f = base + 0).
    { rewrite vlp16_col_dual; fold B F.
      - replace (Z.quot (2 * b) 2) with b by (rewrite Z.mul_comm, Z.quot_mul; lia).
        replace (Z.rem (2 * b) 2) with 0 by (rewrite Z.mul_comm, Z.rem_mul; lia).
        subst base; lia.
      - replace (Z.quot (2 * b) 2) with b by (rewrite Z.mul_comm, Z.quot_mul; lia).
        replace (Z.rem (2 * b) 2) with 0 by (rewrite Z.mul_comm, Z.rem_mul; lia).
        lia. }
    assert (Q1 : Z.quot (2 * b + 1) 2 = b).
    { rewrite Z.quot_div_nonneg by lia. symmetry. apply (Z.div_unique _ _ _ 1); lia. }
    assert (R1 : Z.rem (2 * b + 1) 2 = 1).
    { rewrite Z.rem_mod_nonneg by lia. symmetry. apply (Z.mod_unique _ _ b); lia. }
    assert (E1 : vlp16_col K true p (2 * b + 1) f = base + 1).
    { rewrite vlp16_col_dual; fold B F; rewrite Q1, R1; subst base; lia. }
    rewrite E0, E1. repeat split; lia.
  - rewrite E, E'. apply single_column_inj; lia.
Qed.

Lemma vlp16_columns_witness :
  vlp16_col velodyne_constants true 3 (2 * 4) 1 = 3 * 12 * 2 + 4 * 2 * 2 + 1 * 2 + 0 /\
  vlp16_col velodyne_constants true 3 (2 * 4 + 1) 1 = 3 * 12 * 2 + 4 * 2 * 2 + 1 * 2 + 1 /\
  vlp16_col velodyne_constants false 3 4 1 = 3 * 12 * 2 + 4 * 2 + 1.
Proof.
  destruct (vlp16_columns velodyne_constants 3 4 1 2 7 0) as (D & S & _ & _);
    try (simpl; lia).
  destruct D as (D0 & D1 & _); [simpl; lia |].
  exact (conj D0 (conj D1 S)).
Defined.

(** ** [setup] *)

(** C9, as the code has it. [setup] reads the file named by the
    [calibration] parameter or, when the parameter is not set, the packaged
    [64e_utexas.yaml] (after an error message); it returns -1 exactly when the
    reader leaves the calibration uninitialized and 0 otherwise, whatever
    the number of lasers of the calibration is. *)
Theorem setup_result (K : Constants) (E : SetupEnv) (tf : option TransformListener)
    (rd : RawData) :
  let r := setup K E tf rd in
  let cal := read_calibration E (calibration_file E) in
  calibration_ r.1.2 = cal
  /\ calibrationFile (config_ r.1.2) = calibration_file E
  /\ (initialized cal = false -> r.1.1 = -1)
  /\ (initialized cal = true -> r.1.1 = 0 /\ tf_listener_ r.1.2 = tf)
  /\ (getParam E "calibration" = None ->
      calibration_file E = default_calibration E /\ ROS_ERROR_no_calibration ∈ r.2).
Proof.
  unfold setup, calibration_file.
  destruct (getParam E "calibration") as [file |]; cbn zeta;
    destruct (initialized (read_calibration E _)) eqn:Hi; cbn.
  all: repeat split; try done.
  all: apply elem_of_cons; by left.
Qed.

(** C9 fails as stated: [setup] returns 0 without a [calibration]
    parameter, using the packaged default, and with a calibration of five
    lasers; it returns -1 for a file the reader cannot open. *)
Lemma setup_proceeds_without_calibration :
  getParam env_without_parameter "calibration" = None
  /\ (setup velodyne_constants env_without_parameter None fresh_rd).1.1 = 0
  /\ num_lasers
       (calibration_ (setup velodyne_constants env_five_lasers None fresh_rd).1.2) = 5
  /\ (setup velodyne_constants env_five_lasers None fresh_rd).1.1 = 0
  /\ (setup velodyne_constants env_unreadable None fresh_rd).1.1 = -1.
Proof. repeat split; vm_compute; reflexivity. Qed.

Lemma setup_result_witness :
  (setup velodyne_constants env_unreadable None fresh_rd).1.1 = -1
  /\ (setup velodyne_constants env_without_parameter None fresh_rd).1.1 = 0
  /\ ROS_ERROR_no_calibration
       ∈ (setup velodyne_constants env_without_parameter None fresh_rd).2.
Proof.
  destruct (setup_result velodyne_constants env_unreadable None fresh_rd)
    as (_ & _ & Hfail & _).
  destruct (setup_result velodyne_constants env_without_parameter None fresh_rd)
    as (_ & _ & _ & Hok & Hdefault).
  split; [apply Hfail; reflexivity |].
  split; [apply Hok; reflexivity | apply Hdefault; reflexivity].
Defined.

(** ** The two copies of the correction model *)

(** The intensity of the 16-beam copy does not depend on the distance
    code: [tmp.uint/65535] is 0 for every code below 65535. *)
Lemma vlp16_intensity_ignores_distance (K : Constants) (rd : RawData)
    (c : LaserCorrection) (az d1 d2 i : Z) :
  0 <= d1 < 65535 -> 0 <= d2 < 65535 ->
  intensity_ (unpack_vlp16_point K rd c az d1 i)
  = intensity_ (unpack_vlp16_point K rd c az d2 i).
Proof.
  intros H1 H2. unfold unpack_vlp16_point. cbn [intensity_].
  by rewrite !Z.quot_small by lia.
Qed.

(** C1. The two decoders compute the same distance and coordinates
    from the same calibration entry, table index and distance code, but not
    the same intensity: the 16-beam copy divides the distance code by 65535
    as integers. With focal slope 1, focal distance 0 and the clamp
    [0, 255], distance code 32768 and reflectivity 0 give 192.0006 in the
    legacy decoder and 0 in the 16-beam decoder. *)
Theorem decode_paths_intensity_differs :
  (forall K rd c rot d i,
     distance (unpack_point K rd c rot d i) = distance (unpack_vlp16_point K rd c rot d i)
     /\ x_coord (unpack_point K rd c rot d i) = x_coord (unpack_vlp16_point K rd c rot d i)
     /\ y_coord (unpack_point K rd c rot d i) = y_coord (unpack_vlp16_point K rd c rot d i)
     /\ z_coord (unpack_point K rd c rot d i) = z_coord (unpack_vlp16_point K rd c rot d i))
  /\ intensity_ (unpack_point velodyne_constants fresh_rd (demo_correction 0) 0 32768 0)
     = S754_finite false 12583040 (-16)
  /\ intensity_ (unpack_vlp16_point velodyne_constants fresh_rd (demo_correction 0) 0 32768 0)
     = S754_zero false.
Proof.
  split; [| split].
  - intros K rd c rot d i. repeat split.
  - vm_compute. reflexivity.
  - vm_compute. reflexivity.
Qed.

(** ** Failure of the transform collaborator *)

(** C8. With a target frame and a failing listener the legacy decoder
    runs to the end of the scan, yet the cell of a reading keeps the intensity
    stored before the transform was attempted (57.75 here), next to the ring
    and the NaN position; the 16-beam decoder leaves intensity 0. *)
Theorem legacy_transform_failure_keeps_intensity :
  let r := unpack velodyne_constants rd64_failing_tf scan64 empty_cloud in
  let r16 := unpack velodyne_constants rd16_failing_tf scan16 empty_cloud in
  r.1 = Next
  /\ points (cloud r.2) !! 378%nat
     = Some {| x := Fp.nan; y := Fp.nan; z := Fp.nan;
               intensity := S754_finite false 15139608 (-18); ring := 0 |}
  /\ r16.1 = Next
  /\ points (cloud r16.2) !! 360%nat
     = Some {| x := Fp.nan; y := Fp.nan; z := Fp.nan;
               intensity := S754_zero false; ring := 0 |}.
Proof. repeat split; vm_compute; reflexivity. Qed.

(** ** Loops *)

Lemma for_each_app {A T : Type} (body : A -> T -> ctl * T) (l1 l2 : list A) (s : T) :
  for_each body (l1 ++ l2) s
  = match for_each body l1 s with
    | (Next, s') => for_each body l2 s'
    | stop => stop
    end.
Proof.
  revert s. induction l1 as [| a l1 IH]; intros s; simpl; [done |].
  destruct (body a s) as [[] s']; auto.
Qed.

Lemma for_each_nested {A B T : Type} (body : A -> B -> T -> ctl * T)
    (inner : A -> list B) (l : list A) (s : T) :
  for_each (fun a => for_each (body a) (inner a)) l s
  = for_each (fun ab => body ab.1 ab.2) (l ≫= fun a => (fun b => (a, b)) <$> inner a) s.
Proof.
  revert s. induction l as [| a l IH]; intros s; [done |].
  cbn [for_each]. change ((a :: l) ≫= ?f) with (f a ++ (l ≫= f)).
  rewrite for_each_app.
  assert (E : forall (bs : list B) s0,
             for_each (body a) bs s0
             = for_each (fun ab => body ab.1 ab.2) ((fun b => (a, b)) <$> bs) s0).
  { induction bs as [| b bs IHb]; intros s0; [done |].
    cbn. destruct (body a b s0) as [[] s1]; auto. }
  rewrite <- E. destruct (for_each (body a) (inner a) s) as [[] s1]; auto.
Qed.

Lemma for_each_ext {A T : Type} (f g : A -> T -> ctl * T) (l : list A) (s : T) :
  (forall a s, f a s = g a s) -> for_each f l s = for_each g l s.
Proof.
  intros E. revert s. induction l as [| a l IH]; intros s; [done |].
  cbn. rewrite E. destruct (g a s) as [[] s']; auto.
Qed.

(** An invariant indexed by the number of elements processed. *)
Lemma for_each_counted {A T : Type} (body : A -> T -> ctl * T)
    (I : nat -> T -> Prop) (xs : list A) (k0 : nat) (s : T) :
  I k0 s ->
  (forall k a s, xs !! k = Some a -> I (k0 + k)%nat s -> I (S (k0 + k)%nat) (body a s).2) ->
  exists k, (k <= length xs)%nat /\ I (k0 + k)%nat (for_each body xs s).2.
Proof.
  revert k0 s. induction xs as [| a xs IH]; intros k0 s H0 Hstep.
  - exists 0%nat. rewrite Nat.add_0_r. done.
  - cbn [for_each].
    pose proof (Hstep 0%nat a s eq_refl) as H1. rewrite Nat.add_0_r in H1.
    specialize (H1 H0).
    destruct (body a s) as [c s'] eqn:Eb. cbn in H1.
    destruct c.
    + destruct (IH (S k0) s' H1) as (k & Hk & HI).
      { intros k b s0 Hb. specialize (Hstep (S k) b s0 Hb).
        replace (k0 + S k)%nat with (S k0 + k)%nat in Hstep by lia. exact Hstep. }
      exists (S k). split; [cbn; lia |].
      replace (k0 + S k)%nat with (S k0 + k)%nat by lia. exact HI.
    + exists 1%nat. split; [cbn; lia |]. by replace (k0 + 1)%nat with (S k0) by lia.
    + exists 1%nat. split; [cbn; lia |]. by replace (k0 + 1)%nat with (S k0) by lia.
    + exists 1%nat. split; [cbn; lia |]. by replace (k0 + 1)%nat with (S k0) by lia.
Qed.

(** A plain invariant. *)
Lemma for_each_invariant {A T : Type} (body : A -> T -> ctl * T)
    (I : T -> Prop) (xs : list A) (s : T) :
  I s ->
  (forall a s, a ∈ xs -> I s -> I (body a s).2) ->
  I (for_each body xs s).2.
Proof.
  intros H0 Hstep.
  destruct (for_each_counted body (fun _ => I) xs 0 s H0) as (k & _ & H); [| done].
  intros k a s0 Ha. apply Hstep. by eapply list_elem_of_lookup_2.
Qed.

Lemma for_each_from_invariant {A T : Type} (body : Z -> A -> T -> ctl * T)
    (I : T -> Prop) (xs : list A) (i0 : Z) (s : T) :
  I s ->
  (forall i a s, i0 <= i < i0 + Z.of_nat (length xs) -> a ∈ xs -> I s -> I (body i a s).2) ->
  I (for_each_from body i0 xs s).2.
Proof.
  revert i0 s. induction xs as [| a xs IH]; intros i0 s H0 Hstep; [done |].
  cbn [for_each_from].
  assert (H1 : I (body i0 a s).2).
  { apply Hstep; [cbn [length]; lia | apply elem_of_cons; by left | done]. }
  destruct (body i0 a s) as [[] s']; cbn in H1; try done.
  apply IH; [done |]. intros i b s0 Hi Hb Hs. apply Hstep.
  - cbn [length]; lia.
  - apply elem_of_cons. by right.
  - done.
Qed.

(** ** Stores into the cloud *)

Lemma at_index_alter (pc : VPointCloud) (f : VPoint -> VPoint) (i : nat) (col row : Z) :
  at_index (with_points (alter f i (points pc)) pc) col row = at_index pc col row.
Proof. unfold at_index. cbn. by rewrite length_alter. Qed.

Lemma cloud_update_Some (col row : Z) (f : VPoint -> VPoint) (e : env) (i : nat) :
  at_index (cloud e) col row = Some i ->
  cloud_update col row f e
  = (Next, {| cloud := with_points (alter f i (points (cloud e))) (cloud e);
              trace := trace e ++ [CloudAt col row] |}).
Proof. intros H. unfold cloud_update. by rewrite H. Qed.

Lemma cloud_update_None (col row : Z) (f : VPoint -> VPoint) (e : env) :
  at_index (cloud e) col row = None ->
  cloud_update col row f e = (Thrown, emit (CloudAt col row) e).
Proof. intros H. unfold cloud_update. by rewrite H. Qed.

Lemma at_index_lt (pc : VPointCloud) (col row : Z) (i : nat) :
  at_index pc col row = Some i -> (i < length (points pc))%nat.
Proof.
  unfold at_index. destruct (1 <? height pc); [| done].
  destruct (Z.ltb_spec (uint32 (uint32 row * width pc + uint32 col))
              (Z.of_nat (length (points pc)))) as [Hlt | Hge]; [| done].
  intros [= <-]. unfold uint32 in *.
  pose proof (Z.mod_pos_bound ((row mod 2 ^ 32) * width pc + col mod 2 ^ 32) (2 ^ 32)).
  lia.
Qed.

(** ** Readings outside the range window *)

(** What a reading of the legacy decoder does when its block passes the
    angle gate and its distance fails the range gate. *)
Lemma unpack_reading_out_of_range (K : Constants) (rd : RawData) (scan : VelodyneScan)
    (pkt : VelodynePacket) (i j : Z) (e : env) (n : Z) (idx : nat) :
  let blk := block_at (blocks pkt) i in
  let c := reading_corrections K rd blk j in
  let num := num_lasers (calibration_ rd) in
  let col := Z.quot n num in
  let row := num - 1 - laser_ring c in
  in_angle_window rd (rotation blk) = true ->
  num <> 0 ->
  pointInRange rd (distance (reading_values K rd blk j)) = false ->
  at_index (cloud e) col row = Some idx ->
  unpack_reading K rd scan pkt i j (e, n)
  = (Next,
     ({| cloud := with_points (alter (set_ring (laser_ring c)) idx (points (cloud e)))
                    (cloud e);
         trace := trace e ++ [TrigLookup (rotation blk); CloudAt col row] |},
      n + 1)).
Proof.
  intros blk c num col row Hgate Hnum Hrange Hat.
  unfold unpack_reading. fold blk. rewrite Hgate.
  fold num. destruct (Z.eqb_spec num 0) as [| _]; [done |].
  fold c col row. unfold store_point.
  rewrite (cloud_update_Some col row _ _ idx) by exact Hat.
  cbn [and_then]. rewrite Hrange. cbn.
  by rewrite <- app_assoc.
Qed.

(** The same for a beam of the 16-beam decoder. *)
Lemma unpack_vlp16_reading_out_of_range (K : Constants) (rd : RawData)
    (scan : VelodyneScan) (packet : Z) (pkt : VelodynePacket) (dual_return : bool)
    (block : Z) (azimuth azimuth_diff : spec_float) (firing dsr : Z) (e : env)
    (idx : nat) :
  let blk := block_at (blocks pkt) block in
  let c := laser_corrections (calibration_ rd) dsr in
  let az := azimuth_corrected K azimuth azimuth_diff (t_beam K dsr firing) in
  let col := vlp16_col K dual_return packet block firing in
  let row := num_lasers (calibration_ rd) - 1 - laser_ring c in
  in_angle_window_vlp16 rd az = true ->
  pointInRange rd (distance (vlp16_values K rd blk firing dsr az)) = false ->
  at_index (cloud e) col row = Some idx ->
  exists offset,
    unpack_vlp16_reading K rd scan packet pkt dual_return block azimuth azimuth_diff
      firing dsr e
    = (Next,
       {| cloud := with_points
                     (alter (fun _ => {| x := Fp.nan; y := Fp.nan; z := Fp.nan;
                                          intensity := Single.of_int 0;
                                          ring := laser_ring c |})
                        idx (points (cloud e)))
                     (cloud e);
          trace := trace e ++ [AzimuthLine offset az; TrigLookup az; CloudAt col row] |}).
Proof.
  intros blk c az col row Hgate Hrange Hat.
  eexists. unfold unpack_vlp16_reading. fold blk az. rewrite Hgate.
  cbn [ring]. fold c col row. unfold store_vlp16_point.
  rewrite (cloud_update_Some col row _ _ idx) by exact Hat.
  cbn [and_then]. rewrite Hrange. cbn.
  by rewrite <- !app_assoc.
Qed.

(** C6. A reading that passes the angle gate and whose corrected
    distance is outside [min_range, max_range] records the ring of its beam
    at its grid cell and nothing else: every other cell is unchanged, and a
    cell holding the default position and intensity holds them afterwards
    (NaN position, intensity 0). The legacy decoder leaves position and
    intensity of the cell as they are; the 16-beam decoder stores the NaN
    point with the ring. *)
Theorem range_gate_records_ring_only (K : Constants) (rd : RawData) (scan : VelodyneScan) :
  (forall (pkt : VelodynePacket) (i j : Z) (e : env) (n : Z) (idx : nat),
     let blk := block_at (blocks pkt) i in
     let c := reading_corrections K rd blk j in
     let num := num_lasers (calibration_ rd) in
     in_angle_window rd (rotation blk) = true ->
     num <> 0 ->
     pointInRange rd (distance (reading_values K rd blk j)) = false ->
     at_index (cloud e) (Z.quot n num) (num - 1 - laser_ring c) = Some idx ->
     let r := unpack_reading K rd scan pkt i j (e, n) in
     let pts := points (cloud r.2.1) in
     r.1 = Next
     /\ pts !! idx = set_ring (laser_ring c) <$> points (cloud e) !! idx
     /\ (forall k, k <> idx -> pts !! k = points (cloud e) !! k)
     /\ (forall old, points (cloud e) !! idx = Some old ->
           x old = Fp.nan -> y old = Fp.nan -> z old = Fp.nan ->
           intensity old = Single.of_int 0 ->
           pts !! idx = Some {| x := Fp.nan; y := Fp.nan; z := Fp.nan;
                                intensity := Single.of_int 0; ring := laser_ring c |}))
  /\
  (forall (packet : Z) (pkt : VelodynePacket) (dual_return : bool) (block : Z)
          (azimuth azimuth_diff : spec_float) (firing dsr : Z) (e : env) (idx : nat),
     let blk := block_at (blocks pkt) block in
     let c := laser_corrections (calibration_ rd) dsr in
     let az := azimuth_corrected K azimuth azimuth_diff (t_beam K dsr firing) in
     in_angle_window_vlp16 rd az = true ->
     pointInRange rd (distance (vlp16_values K rd blk firing dsr az)) = false ->
     at_index (cloud e) (vlp16_col K dual_return packet block firing)
       (num_lasers (calibration_ rd) - 1 - laser_ring c) = Some idx ->
     let r := unpack_vlp16_reading K rd scan packet pkt dual_return block
                azimuth azimuth_diff firing dsr e in
     let pts := points (cloud r.2) in
     r.1 = Next
     /\ pts !! idx = Some {| x := Fp.nan; y := Fp.nan; z := Fp.nan;
                             intensity := Single.of_int 0; ring := laser_ring c |}
     /\ (forall k, k <> idx -> pts !! k = points (cloud e) !! k)).
Proof.
  split.
  - intros pkt i j e n idx blk c num Hgate Hnum Hrange Hat r pts.
    subst r pts.
    rewrite (unpack_reading_out_of_range K rd scan pkt i j e n idx Hgate Hnum Hrange Hat).
    cbn. split; [done |]. split; [| split].
    + by rewrite list_lookup_alter_eq.
    + intros k Hk. by rewrite list_lookup_alter_ne.
    + intros old Hold Hx Hy Hz Hi. rewrite list_lookup_alter_eq, Hold. cbn.
      unfold set_ring. by rewrite Hx, Hy, Hz, Hi.
  - intros packet pkt dual block azimuth azimuth_diff firing dsr e idx blk c az
      Hgate Hrange Hat r pts.
    subst r pts.
    destruct (unpack_vlp16_reading_out_of_range K rd scan packet pkt dual block
                azimuth azimuth_diff firing dsr e idx Hgate Hrange Hat) as [offset ->].
    cbn. split; [done |]. split.
    + rewrite list_lookup_alter_eq.
      destruct (lookup_lt_is_Some_2 (points (cloud e)) idx) as [old ->]; [| done].
      by eapply at_index_lt.
    + intros k Hk. by rewrite list_lookup_alter_ne.
Qed.

Lemma range_gate_records_ring_only_witness :
  (unpack_reading velodyne_constants rd64 (demo_scan [near_packet64])
     near_packet64 0 0 (start64, 0)).1 = Next
  /\ points (cloud (unpack_reading velodyne_constants rd64 (demo_scan [near_packet64])
                      near_packet64 0 0 (start64, 0)).2.1) !! 378%nat
     = Some {| x := Fp.nan; y := Fp.nan; z := Fp.nan;
               intensity := Single.of_int 0; ring := 0 |}
  /\ points (cloud (unpack_vlp16_reading velodyne_constants rd16
                      (demo_scan [near_packet16]) 0 near_packet16 false 0
                      (Single.of_int 0) (Single.of_int 100) 0 0 start16).2) !! 360%nat
     = Some {| x := Fp.nan; y := Fp.nan; z := Fp.nan;
               intensity := Single.of_int 0; ring := 0 |}.
Proof.
  destruct (range_gate_records_ring_only velodyne_constants rd64
              (demo_scan [near_packet64])) as [L _].
  destruct (range_gate_records_ring_only velodyne_constants rd16
              (demo_scan [near_packet16])) as [_ V].
  specialize (L near_packet64 0 0 start64 0 378%nat).
  destruct L as (L1 & _ & _ & L4); try (vm_compute; congruence).
  specialize (V 0 near_packet16 false 0 (Single.of_int 0) (Single.of_int 100) 0 0
                start16 360%nat).
  destruct V as (_ & V2 & _); try (vm_compute; congruence).
  split; [exact L1 | split; [| exact V2]].
  apply (L4 nanPoint); vm_compute; reflexivity.
Defined.

(** ** The effect of storing a reading *)

Lemma with_points_same (pc : VPointCloud) : with_points (points pc) pc = pc.
Proof. by destruct pc. Qed.

Lemma with_points_twice (l1 l2 : list VPoint) (pc : VPointCloud) :
  with_points l2 (with_points l1 pc) = with_points l2 pc.
Proof. done. Qed.

Section CellStores.
Variables (col row : Z) (idx : nat).

(** Stores into the cell [idx] of [(col, row)] that keep its ring. *)
Lemma stores_refl (e : env) :
  exists g evs,
    (forall p0, ring (g p0) = ring p0)
    /\ cloud e = with_points (alter g idx (points (cloud e))) (cloud e)
    /\ trace e = trace e ++ evs
    /\ Forall (cell_event col row) evs.
Proof.
  exists id, []. split; [done |]. split; [| split].
  - rewrite list_alter_id by done. by rewrite with_points_same.
  - by rewrite app_nil_r.
  - constructor.
Qed.

Lemma ok_ret (e : env) : ok_result col row idx e (Next, e).
Proof. intros _. exists e. split; [done |]. apply stores_refl. Qed.

Lemma ok_warn (e : env) : ok_result col row idx e (Next, emit WarnTransform e).
Proof.
  intros _. eexists. split; [done |].
  exists id. exists (WarnTransform :: nil). split; [done |]. split; [| split].
  - cbn. rewrite list_alter_id by done. by rewrite with_points_same.
  - done.
  - constructor; [by right | constructor].
Qed.

Lemma ok_update (f : VPoint -> VPoint) (e : env) :
  (forall p0, ring (f p0) = ring p0) ->
  ok_result col row idx e (cloud_update col row f e).
Proof.
  intros Hf Hat. rewrite (cloud_update_Some _ _ _ _ idx Hat).
  eexists. split; [done |].
  exists f. exists (CloudAt col row :: nil). split; [done |]. split; [done |]. split; [done |].
  constructor; [by left | constructor].
Qed.

Lemma ok_bind (e : env) (r : ctl * env) (k : env -> ctl * env) :
  ok_result col row idx e r ->
  (forall e', ok_result col row idx e' (k e')) ->
  ok_result col row idx e (r >>> k).
Proof.
  intros Hr Hk Hat.
  destruct (Hr Hat) as (e1 & -> & g1 & evs1 & Hg1 & Hc1 & Ht1 & Hf1).
  cbn [and_then].
  assert (Hat1 : at_index (cloud e1) col row = Some idx).
  { rewrite Hc1. by rewrite at_index_alter. }
  destruct (Hk e1 Hat1) as (e2 & -> & g2 & evs2 & Hg2 & Hc2 & Ht2 & Hf2).
  exists e2. split; [done |].
  exists (g2 ∘ g1), (evs1 ++ evs2). split; [| split; [| split]].
  - intros p0. cbn. by rewrite Hg2, Hg1.
  - rewrite Hc2, Hc1. cbn. by rewrite list_alter_alter_eq.
  - by rewrite Ht2, Ht1, app_assoc.
  - by apply Forall_app.
Qed.
End CellStores.

Lemma store_coordinates_ok (rd : RawData) (scan : VelodyneScan) (pkt : VelodynePacket)
    (col row : Z) (idx : nat) (p : reading) (e : env) :
  ok_result col row idx e (store_coordinates rd scan pkt col row p e).
Proof.
  unfold store_coordinates.
  destruct (tf_listener_ rd) as [tf |];
    [destruct (string_empty _); [| destruct (transformPoint _ _ _)] |].
  all: try apply ok_warn.
  all: apply ok_bind; [by apply ok_update |]; intros e1.
  all: apply ok_bind; [by apply ok_update |]; intros e2.
  all: by apply ok_update.
Qed.

(** The effect of [store_point] and of [store_vlp16_point]: the call of
    [pc.at] for the first store, then stores into the same cell or the
    warning of a failed transform; the cell ends with the ring given. *)
Lemma store_point_effect (rd : RawData) (scan : VelodyneScan) (pkt : VelodynePacket)
    (col row : Z) (c : LaserCorrection) (p : reading) (e : env) :
  cell_effect [] col row (laser_ring c) e (store_point rd scan pkt col row c p e).
Proof.
  unfold cell_effect, store_point.
  destruct (at_index (cloud e) col row) as [idx |] eqn:Hat.
  - rewrite (cloud_update_Some _ _ _ _ idx Hat). cbn [and_then].
    set (e1 := {| cloud := _; trace := _ |}).
    assert (Hat1 : at_index (cloud e1) col row = Some idx)
      by (subst e1; cbn; by rewrite at_index_alter).
    assert (Hk : ok_result col row idx e1
              (if negb (pointInRange rd (distance p)) then (Next, e1)
               else cloud_update col row (set_intensity (intensity_ p)) e1 >>>
                    fun e => store_coordinates rd scan pkt col row p e)).
    { destruct (negb _); [apply ok_ret |].
      apply ok_bind; [by apply ok_update |]. intros e2. apply store_coordinates_ok. }
    destruct (Hk Hat1) as (e2 & -> & g & evs & Hg & Hc & Ht & Hf).
    cbn [fst snd]. split; [done |]. exists evs. split; [| split; [done |]].
    + rewrite Ht. subst e1. cbn. by rewrite <- app_assoc.
    + exists (g ∘ set_ring (laser_ring c)). split.
      * rewrite Hc. subst e1. cbn. by rewrite list_alter_alter_eq.
      * intros p0. cbn. by rewrite Hg.
  - rewrite (cloud_update_None _ _ _ _ Hat). cbn.
    split; [done |]. exists []. split; [done |]. split; [constructor | done].
Qed.

Lemma store_vlp16_point_effect (rd : RawData) (scan : VelodyneScan)
    (pkt : VelodynePacket) (offset : spec_float) (col row : Z) (point : VPoint)
    (p : reading) (e : env) :
  cell_effect [] col row (ring point) e
    (store_vlp16_point rd scan pkt offset col row point p e).
Proof.
  unfold cell_effect, store_vlp16_point.
  destruct (at_index (cloud e) col row) as [idx |] eqn:Hat.
  - rewrite (cloud_update_Some _ _ _ _ idx Hat). cbn [and_then].
    set (e1 := {| cloud := _; trace := _ |}).
    assert (Hat1 : at_index (cloud e1) col row = Some idx)
      by (subst e1; cbn; by rewrite at_index_alter).
    match goal with
    | |- context [if negb ?b then (Next, e1) else ?k] =>
        assert (Hk : ok_result col row idx e1 (if negb b then (Next, e1) else k))
    end.
    { destruct (negb _); [apply ok_ret |].
      destruct (tf_listener_ rd) as [tf |];
        [destruct (string_empty _); [| destruct (transformPoint_fixed _ _ _ _ _)] |].
      all: try apply ok_warn.
      all: apply ok_bind; [by apply ok_update |]; intros e2.
      all: apply ok_bind; [by apply ok_update |]; intros e3.
      all: apply ok_bind; [by apply ok_update |]; intros e4.
      all: by apply ok_update. }
    destruct (Hk Hat1) as (e2 & -> & g & evs & Hg & Hc & Ht & Hf).
    cbn [fst snd]. split; [done |]. exists evs. split; [| split; [done |]].
    + rewrite Ht. subst e1. cbn. by rewrite <- app_assoc.
    + exists (g ∘ (fun _ => point)). split.
      * rewrite Hc. subst e1. cbn. by rewrite list_alter_alter_eq.
      * intros p0. cbn. by rewrite Hg.
  - rewrite (cloud_update_None _ _ _ _ Hat). cbn.
    split; [done |]. exists []. split; [done |]. split; [constructor | done].
Qed.

Lemma cell_effect_emit (ev : event) (pre : list event) (col row rng : Z) (e : env)
    (r : ctl * env) :
  cell_effect pre col row rng (emit ev e) r -> cell_effect (ev :: pre) col row rng e r.
Proof.
  unfold cell_effect. cbn [emit cloud trace].
  intros [H1 (evs & Ht & Hf & Hc)]. split; [done |].
  exists evs. split; [| done]. rewrite Ht. by rewrite <- app_assoc.
Qed.

(** ** The legacy decoder as a fold with a counter *)

(** One reading of the legacy decoder. *)
Lemma unpack_reading_effect (K : Constants) (rd : RawData) (scan : VelodyneScan)
    (pkt : VelodynePacket) (i j : Z) (e : env) (n : Z) :
  let blk := block_at (blocks pkt) i in
  let c := reading_corrections K rd blk j in
  let num := num_lasers (calibration_ rd) in
  let r := unpack_reading K rd scan pkt i j (e, n) in
  num <> 0 ->
  if in_angle_window rd (rotation blk)
  then r.2.2 = n + 1
       /\ cell_effect [TrigLookup (rotation blk)] (Z.quot n num)
            (num - 1 - laser_ring c) (laser_ring c) e (r.1, r.2.1)
  else r = (Next, (e, n)).
Proof.
  intros blk c num r Hnum. subst r. unfold unpack_reading. fold blk.
  destruct (in_angle_window rd (rotation blk)); [| done].
  fold num. destruct (Z.eqb_spec num 0) as [| _]; [done |].
  fold c. cbn [fst snd]. split; [done |].
  apply cell_effect_emit.
  pose proof (store_point_effect rd scan pkt (Z.quot n num) (num - 1 - laser_ring c) c
                (reading_values K rd blk j) (emit (TrigLookup (rotation blk)) e)) as H.
  by destruct (store_point _ _ _ _ _ _ _ _).
Qed.

Lemma reading_step_counter (K : Constants) (rd : RawData) (scan : VelodyneScan)
    (r : VelodynePacket * (Z * Z)) (e : env) (n : Z) :
  num_lasers (calibration_ rd) <> 0 ->
  (reading_step K rd scan r (e, n)).2.2 = n + (if passes_gate rd r then 1 else 0).
Proof.
  intros Hnum. unfold reading_step, passes_gate.
  pose proof (unpack_reading_effect K rd scan r.1 r.2.1 r.2.2 e n Hnum) as H.
  cbv zeta in H.
  destruct (in_angle_window rd _); [by destruct H | rewrite H; cbn; lia].
Qed.

Lemma for_each_reading_counter (K : Constants) (rd : RawData) (scan : VelodyneScan)
    (l : list (VelodynePacket * (Z * Z))) (e0 e : env) (n0 n : Z) :
  num_lasers (calibration_ rd) <> 0 ->
  for_each (reading_step K rd scan) l (e0, n0) = (Next, (e, n)) ->
  n = n0 + Z.of_nat (length (List.filter (passes_gate rd) l)).
Proof.
  intros Hnum. revert e0 n0. induction l as [| r l IH]; intros e0 n0 H.
  - cbn in H. injection H as -> ->. cbn. lia.
  - cbn [for_each] in H.
    pose proof (reading_step_counter K rd scan r e0 n0 Hnum) as Hc.
    destruct (reading_step K rd scan r (e0, n0)) as [[] [e1 n1]]; try done.
    cbn in Hc. apply IH in H. cbn [List.filter].
    destruct (passes_gate rd r); cbn [length]; lia.
Qed.

(** The three nested loops are one fold over [scan_readings]. *)
Lemma unpack_legacy_fold (K : Constants) (rd : RawData) (scan : VelodyneScan)
    (pc : VPointCloud) :
  uint64 (num_lasers (calibration_ rd)) <> 0 ->
  unpack_legacy K rd scan pc
  = for_each (reading_step K rd scan) (scan_readings K scan) (legacy_start K rd scan pc).
Proof.
  intros Hnum. unfold unpack_legacy.
  destruct (Z.eqb_spec (uint64 (num_lasers (calibration_ rd))) 0) as [| _]; [done |].
  unfold scan_readings.
  rewrite <- (for_each_nested (fun pkt ij => unpack_reading K rd scan pkt ij.1 ij.2)).
  apply for_each_ext. intros pkt s. unfold unpack_packet.
  rewrite <- (for_each_nested (fun i j => unpack_reading K rd scan pkt i j)).
  done.
Qed.

(** C2. The legacy decoder is a fold, in order, over the readings of
    the packets, blocks and beams of the scan. Before any reading [r] of
    that sequence the counter [n] is the number of earlier readings whose
    block passed the angle gate; a reading whose block fails the gate
    leaves the state alone; a reading whose block passes advances the
    counter by one, whatever the range gate decides, and addresses the
    cloud at column [n / num_lasers], row [num_lasers - 1 - ring] only, with
    [n] the counter before the advance, leaving the ring in that cell. *)
Theorem legacy_counter_fold (K : Constants) (rd : RawData) (scan : VelodyneScan)
    (pc : VPointCloud) (before after : list (VelodynePacket * (Z * Z)))
    (r : VelodynePacket * (Z * Z)) (e : env) (n : Z) :
  let num := num_lasers (calibration_ rd) in
  let blk := block_at (blocks r.1) r.2.1 in
  let c := reading_corrections K rd blk r.2.2 in
  let r' := reading_step K rd scan r (e, n) in
  0 < num < 2 ^ 31 ->
  scan_readings K scan = before ++ r :: after ->
  for_each (reading_step K rd scan) before (legacy_start K rd scan pc) = (Next, (e, n)) ->
  unpack_legacy K rd scan pc
  = for_each (reading_step K rd scan) (scan_readings K scan) (legacy_start K rd scan pc)
  /\ n = Z.of_nat (length (List.filter (passes_gate rd) before))
  /\ (passes_gate rd r = false -> r' = (Next, (e, n)))
  /\ (passes_gate rd r = true ->
      r'.2.2 = n + 1
      /\ cell_effect [TrigLookup (rotation blk)] (n / num) (num - 1 - laser_ring c)
           (laser_ring c) e (r'.1, r'.2.1)).
Proof.
  intros num blk c r' Hnum Hsplit Hrun.
  assert (Hnz : num <> 0) by lia.
  assert (Hn : n = Z.of_nat (length (List.filter (passes_gate rd) before))).
  { unfold legacy_start in Hrun.
    apply (for_each_reading_counter K rd scan before _ e 0 n Hnz) in Hrun. lia. }
  split; [| split; [done | split]].
  - apply unpack_legacy_fold. rewrite uint64_small; lia.
  - intros Hg. subst r'. unfold reading_step.
    pose proof (unpack_reading_effect K rd scan r.1 r.2.1 r.2.2 e n Hnz) as H.
    cbv zeta in H. unfold passes_gate in Hg. by rewrite Hg in H.
  - intros Hg. subst r'. unfold reading_step.
    pose proof (unpack_reading_effect K rd scan r.1 r.2.1 r.2.2 e n Hnz) as H.
    cbv zeta in H. unfold passes_gate in Hg. rewrite Hg in H.
    rewrite <- (Z.quot_div_nonneg n num) by lia. exact H.
Qed.

Lemma legacy_counter_fold_witness :
  state40.2 = 8
  /\ (reading_step velodyne_constants rd64_window scan64 reading40 state40).2.2 = 9.
Proof.
  destruct (legacy_counter_fold velodyne_constants rd64_window scan64 empty_cloud
              (take 40 readings64) (drop 41 readings64) reading40 state40.1 state40.2)
    as (_ & Hn & _ & Hpass).
  - vm_compute. split; reflexivity.
  - vm_compute. reflexivity.
  - vm_compute. reflexivity.
  - split.
    + rewrite Hn. vm_compute. reflexivity.
    + destruct Hpass as [H1 _]; [vm_compute; reflexivity |].
      replace state40 with (state40.1, state40.2) by (by destruct state40).
      rewrite H1, Hn. vm_compute. reflexivity.
Defined.

(** ** Growth of the trace and frame of the cloud *)

Lemma at_index_dims (pc pc' : VPointCloud) (col row : Z) :
  width pc' = width pc -> height pc' = height pc ->
  length (points pc') = length (points pc) ->
  at_index pc' col row = at_index pc col row.
Proof. intros Hw Hh Hl. unfold at_index. by rewrite Hw, Hh, Hl. Qed.

Lemma extends_refl (Q : event -> Prop) (e : env) : extends Q e e.
Proof.
  repeat split. exists []. split; [by rewrite app_nil_r |]. split; [constructor | done].
Qed.

Lemma extends_trans (Q : event -> Prop) (e1 e2 e3 : env) :
  extends Q e1 e2 -> extends Q e2 e3 -> extends Q e1 e3.
Proof.
  intros (Hw1 & Hh1 & Hl1 & evs1 & Ht1 & Hq1 & Hf1)
         (Hw2 & Hh2 & Hl2 & evs2 & Ht2 & Hq2 & Hf2).
  split; [congruence |]. split; [congruence |]. split; [congruence |].
  exists (evs1 ++ evs2). split; [by rewrite Ht2, Ht1, app_assoc |].
  split; [by apply Forall_app |].
  intros k Hk. rewrite Hf2, Hf1; [done | |].
  - intros col row Hin. apply Hk. apply elem_of_app. by left.
  - intros col row Hin. rewrite (at_index_dims (cloud e1) (cloud e2)) by done.
    apply Hk. apply elem_of_app. by right.
Qed.

Lemma extends_weaken (Q Q' : event -> Prop) (e e' : env) :
  (forall ev, Q ev -> Q' ev) -> extends Q e e' -> extends Q' e e'.
Proof.
  intros HQ (Hw & Hh & Hl & evs & Ht & Hq & Hf).
  repeat (split; [done |]). exists evs. split; [done |]. split; [| done].
  eapply Forall_impl; eauto.
Qed.

Lemma extends_emit (Q : event -> Prop) (ev : event) (e : env) :
  Q ev -> extends Q e (emit ev e).
Proof.
  intros Hq. repeat split. exists [ev]. split; [done |].
  split; [by repeat constructor | done].
Qed.

Lemma cell_effect_extends (Q : event -> Prop) (pre : list event) (col row rng : Z)
    (e : env) (r : ctl * env) :
  Forall Q pre -> Q (CloudAt col row) -> Q WarnTransform ->
  (forall c r, CloudAt c r ∈ pre -> False) ->
  cell_effect pre col row rng e r -> extends Q e r.2.
Proof.
  intros Hpre Hat Hw Hno [_ (evs & Ht & Hf & Hc)].
  assert (Hq : Forall Q (pre ++ CloudAt col row :: evs)).
  { apply Forall_app. split; [done |]. constructor; [done |].
    eapply Forall_impl; [exact Hf |]. intros ev [-> | ->]; done. }
  unfold extends.
  destruct (at_index (cloud e) col row) as [idx |] eqn:Hidx.
  - destruct Hc as (g & Hc & _). rewrite Hc. cbn.
    split; [done |]. split; [done |]. split; [by rewrite length_alter |].
    exists (pre ++ CloudAt col row :: evs). split; [done |]. split; [done |].
    intros k Hk. apply list_lookup_alter_ne. intros ->.
    apply (Hk col row); [| done].
    apply elem_of_app. right. apply elem_of_cons. by left.
  - rewrite Hc. repeat (split; [done |]).
    exists (pre ++ CloudAt col row :: evs). by repeat split.
Qed.

(** Loops whose body ends with [Next]. *)
Lemma for_each_Next {A T : Type} (body : A -> T -> ctl * T) (I : T -> Prop)
    (xs : list A) (s s' : T) :
  for_each body xs s = (Next, s') ->
  I s ->
  (forall a s s1, a ∈ xs -> I s -> body a s = (Next, s1) -> I s1) ->
  I s'.
Proof.
  revert s. induction xs as [| a xs IH]; intros s Hrun H0 Hstep.
  - cbn in Hrun. by injection Hrun as <-.
  - cbn [for_each] in Hrun. destruct (body a s) as [[] s1] eqn:Eb; try done.
    apply (IH s1 Hrun).
    + apply (Hstep a s s1); [apply elem_of_cons; by left | done | done].
    + intros b s0 s2 Hb. apply Hstep. apply elem_of_cons. by right.
Qed.

Lemma for_each_from_Next {A T : Type} (body : Z -> A -> T -> ctl * T) (I : T -> Prop)
    (xs : list A) (i0 : Z) (s s' : T) :
  for_each_from body i0 xs s = (Next, s') ->
  I s ->
  (forall i a s s1, a ∈ xs -> I s -> body i a s = (Next, s1) -> I s1) ->
  I s'.
Proof.
  revert i0 s. induction xs as [| a xs IH]; intros i0 s Hrun H0 Hstep.
  - cbn in Hrun. by injection Hrun as <-.
  - cbn [for_each_from] in Hrun. destruct (body i0 a s) as [[] s1] eqn:Eb; try done.
    apply (IH (i0 + 1) s1 Hrun).
    + apply (Hstep i0 a s s1); [apply elem_of_cons; by left | done | done].
    + intros i b s0 s2 Hb. apply Hstep. apply elem_of_cons. by right.
Qed.

Lemma for_each_from_app {A T : Type} (body : Z -> A -> T -> ctl * T) (i0 : Z)
    (l1 l2 : list A) (s : T) :
  for_each_from body i0 (l1 ++ l2) s
  = match for_each_from body i0 l1 s with
    | (Next, s') => for_each_from body (i0 + Z.of_nat (length l1)) l2 s'
    | stop => stop
    end.
Proof.
  revert i0 s. induction l1 as [| a l1 IH]; intros i0 s.
  - cbn. by rewrite Z.add_0_r.
  - cbn [for_each_from app]. destruct (body i0 a s) as [[] s']; try done.
    rewrite IH. cbn [length].
    by replace (i0 + 1 + Z.of_nat (length l1)) with (i0 + Z.of_nat (S (length l1))) by lia.
Qed.

(** ** The 16-beam decoder: effect of a beam, of a block, of a packet *)

Lemma unpack_vlp16_reading_effect (K : Constants) (rd : RawData) (scan : VelodyneScan)
    (packet : Z) (pkt : VelodynePacket) (dual_return : bool) (block : Z)
    (azimuth azimuth_diff : spec_float) (firing dsr : Z) (e : env) :
  let c := laser_corrections (calibration_ rd) dsr in
  let az := azimuth_corrected K azimuth azimuth_diff (t_beam K dsr firing) in
  let r := unpack_vlp16_reading K rd scan packet pkt dual_return block azimuth
             azimuth_diff firing dsr e in
  exists offset,
    if in_angle_window_vlp16 rd az
    then cell_effect [AzimuthLine offset az; TrigLookup az]
           (vlp16_col K dual_return packet block firing)
           (num_lasers (calibration_ rd) - 1 - laser_ring c) (laser_ring c) e r
    else r = (Next, emit (AzimuthLine offset az) e).
Proof.
  intros c az r. subst r. unfold unpack_vlp16_reading. fold az.
  eexists. destruct (in_angle_window_vlp16 rd az); [| done].
  do 2 apply cell_effect_emit. cbn [ring]. fold c.
  apply (store_vlp16_point_effect rd scan pkt _ _ _
           {| x := Fp.nan; y := Fp.nan; z := Fp.nan; intensity := Single.of_int 0;
              ring := laser_ring c |}).
Qed.

Lemma unpack_vlp16_reading_extends (Q : event -> Prop) (K : Constants) (rd : RawData)
    (scan : VelodyneScan) (packet : Z) (pkt : VelodynePacket) (dual_return : bool)
    (block : Z) (azimuth azimuth_diff : spec_float) (firing dsr : Z) (e : env) :
  let c := laser_corrections (calibration_ rd) dsr in
  let az := azimuth_corrected K azimuth azimuth_diff (t_beam K dsr firing) in
  plain_events Q ->
  (in_angle_window_vlp16 rd az = true ->
   Q (TrigLookup az)
   /\ Q (CloudAt (vlp16_col K dual_return packet block firing)
           (num_lasers (calibration_ rd) - 1 - laser_ring c))) ->
  extends Q e (unpack_vlp16_reading K rd scan packet pkt dual_return block azimuth
                 azimuth_diff firing dsr e).2.
Proof.
  intros c az [Haz Hw] Hgate.
  destruct (unpack_vlp16_reading_effect K rd scan packet pkt dual_return block azimuth
              azimuth_diff firing dsr e) as [offset H].
  cbv zeta in H. fold c az in H.
  destruct (in_angle_window_vlp16 rd az).
  - destruct Hgate as [Ht Hc]; [done |].
    eapply cell_effect_extends; [| exact Hc | exact Hw | | exact H].
    + repeat constructor; [apply Haz | exact Ht].
    + intros c0 r0 Hin. apply elem_of_cons in Hin as [Hin | Hin]; [done |].
      apply elem_of_cons in Hin as [Hin | Hin]; [done |]. by apply elem_of_nil in Hin.
  - rewrite H. cbn. by apply extends_emit.
Qed.

(** A block that ends with [Next] had the expected header and went through
    its firings. *)
Lemma unpack_vlp16_block_Next (Q : event -> Prop) (K : Constants) (rd : RawData)
    (scan : VelodyneScan) (packet : Z) (pkt : VelodynePacket) (dual_return : bool)
    (i_diff block : Z) (e e' : env) (last last' : spec_float) :
  plain_events Q ->
  (forall c r, Q (CloudAt c r)) -> (forall az, Q (TrigLookup az)) ->
  unpack_vlp16_block K rd scan packet pkt dual_return i_diff block (e, last)
  = (Next, (e', last')) ->
  extends Q e e'.
Proof.
  intros Hp Hc Ht. unfold unpack_vlp16_block.
  destruct (negb _); [done |].
  destruct (block_azimuth_diff K pkt i_diff block last) as [azimuth_diff l1].
  intros [= _ <- _].
  apply (for_each_invariant _ (extends Q e)); [apply extends_refl |].
  intros firing e1 _ H1.
  apply (for_each_invariant _ (extends Q e)); [exact H1 |].
  intros dsr e2 _ H2. eapply extends_trans; [exact H2 |].
  apply unpack_vlp16_reading_extends; [done |]. intros _. split; [apply Ht | apply Hc].
Qed.

Lemma unpack_vlp16_packet_Next (Q : event -> Prop) (K : Constants) (rd : RawData)
    (scan : VelodyneScan) (packet : Z) (pkt : VelodynePacket) (s s' : env * spec_float) :
  plain_events Q ->
  (forall c r, Q (CloudAt c r)) -> (forall az, Q (TrigLookup az)) ->
  unpack_vlp16_packet K rd scan packet pkt s = (Next, s') ->
  extends Q s.1 s'.1.
Proof.
  intros Hp Hc Ht. unfold unpack_vlp16_packet.
  destruct (negb _); [done |]. intros Hrun.
  apply (for_each_Next _ (fun s1 => extends Q s.1 s1.1) _ _ _ Hrun);
    [apply extends_refl |].
  intros block [e1 l1] [e2 l2] _ H1 Hb. eapply extends_trans; [exact H1 |].
  by eapply unpack_vlp16_block_Next.
Qed.

Lemma printed_spaced (period : Z) (last : option Z) (requests : list Z) :
  spaced period last (printed period last requests).
Proof.
  revert last. induction requests as [| now rest IH]; intros last; [done |].
  cbn [printed]. destruct last as [t |].
  - destruct (Z.leb_spec (t + period) now); [| apply IH].
    cbn [spaced]. split; [done | apply IH].
  - cbn [spaced]. split; [done | apply IH].
Qed.

Lemma filter_bad_header_none (evs : list event) :
  Forall (fun ev => is_bad_header ev = false) evs ->
  List.filter is_bad_header evs = [].
Proof.
  induction 1 as [| ev evs Hev _ IH]; [done |]. cbn. by rewrite Hev.
Qed.

(** C7. When a block of a 16-beam scan does not carry the upper-bank
    marker, [unpack_vlp16] returns at that block: the cloud is the one
    reached before the block, no later block or packet is looked at, every
    cell that was not addressed before the block still holds what the
    freshly prepared cloud held (the NaN point, for a cloud that came in
    empty), and the scan hands exactly one request to the throttled warning
    macro, which prints requests of one call site at least a period apart. *)
Theorem bad_header_stops_scan (K : Constants) (rd : RawData) (scan : VelodyneScan)
    (pc : VPointCloud) (ps1 ps2 : list VelodynePacket) (pkt : VelodynePacket)
    (b : Z) (s1 : env * spec_float) (e2 : env) (last : spec_float) :
  let start := vlp16_start K rd scan pc in
  let packet := Z.of_nat (length ps1) in
  let dual_return := is_dual_return K pkt in
  let i_diff := 1 + (if dual_return then 1 else 0) in
  let hdr := header (block_at (blocks pkt) b) in
  let r := unpack_vlp16 K rd scan pc in
  packets scan = ps1 ++ pkt :: ps2 ->
  0 <= b < BLOCKS_PER_PACKET K ->
  hdr <> UPPER_BANK K ->
  for_each_from (unpack_vlp16_packet K rd scan) 0 ps1 start = (Next, s1) ->
  Fp.ltb (packet_interp_time K (time pkt))
         (Double.of_int 3600 * Double.lit 1000000 1)%double = true ->
  for_each (unpack_vlp16_block K rd scan packet pkt dual_return i_diff) (seqZ 0 b) s1
  = (Next, (e2, last)) ->
  r = (Returned, (emit (WarnBadHeader b hdr) e2, last))
  /\ cloud r.2.1 = cloud e2
  /\ (forall k,
        (forall col row, CloudAt col row ∈ trace e2 ->
                         at_index (cloud start.1) col row <> Some k) ->
        points (cloud r.2.1) !! k = points (cloud start.1) !! k
        /\ (points pc = [] -> forall p, points (cloud r.2.1) !! k = Some p -> p = nanPoint))
  /\ List.filter is_bad_header (trace r.2.1) = [WarnBadHeader b hdr]
  /\ (forall period at_site requests, spaced period at_site (printed period at_site requests)).
Proof.
  intros start packet dual_return i_diff hdr r Hsplit Hb Hhdr Hrun1 Hassert Hrun2.
  set (Q := fun ev => is_bad_header ev = false).
  assert (HQ : plain_events Q) by done.
  assert (E : r = (Returned, (emit (WarnBadHeader b hdr) e2, last))).
  { subst r. unfold unpack_vlp16. rewrite Hsplit, for_each_from_app. fold start.
    rewrite Hrun1. cbn [for_each_from]. rewrite Z.add_0_l. fold packet.
    unfold unpack_vlp16_packet. rewrite Hassert. cbn [negb].
    fold dual_return i_diff.
    replace (BLOCKS_PER_PACKET K) with (b + (BLOCKS_PER_PACKET K - b)) by lia.
    rewrite seqZ_app by lia. rewrite for_each_app, Hrun2. rewrite Z.add_0_l.
    rewrite seqZ_cons by lia. cbn [for_each].
    unfold unpack_vlp16_block at 1. fold hdr.
    destruct (Z.eqb_spec (UPPER_BANK K) hdr) as [Heq | _]; [by symmetry in Heq |].
    done. }
  assert (X1 : extends Q start.1 s1.1).
  { apply (for_each_from_Next _ (fun s => extends Q start.1 s.1) _ _ _ _ Hrun1);
      [apply extends_refl |].
    intros i a s s' _ Hs Hstep. eapply extends_trans; [exact Hs |].
    by eapply unpack_vlp16_packet_Next. }
  assert (X2 : extends Q start.1 e2).
  { apply (for_each_Next _ (fun s => extends Q start.1 s.1) _ _ _ Hrun2); [exact X1 |].
    intros block [ea la] [eb lb] _ Hs Hstep. eapply extends_trans; [exact Hs |].
    by eapply unpack_vlp16_block_Next. }
  destruct X2 as (_ & _ & _ & evs & Ht & Hq & Hf).
  assert (Ht' : trace e2 = evs) by (rewrite Ht; done).
  rewrite E. cbn [fst snd emit cloud trace].
  split; [done |]. split; [done |]. split; [| split; [| apply printed_spaced]].
  - intros k Hk. assert (Hpts : points (cloud e2) !! k = points (cloud start.1) !! k).
    { apply Hf. intros col row Hin. apply Hk. by rewrite Ht'. }
    split; [done |]. intros Hpc p. rewrite Hpts. subst start. cbn.
    rewrite Hpc, resize_nil. intros Hp. by apply lookup_replicate in Hp as [-> _].
  - rewrite Ht'. rewrite List.filter_app, (filter_bad_header_none evs Hq). done.
Qed.

Lemma bad_header_stops_scan_witness :
  (unpack_vlp16 velodyne_constants rd16 bad_scan16 empty_cloud).1 = Returned
  /\ cloud (unpack_vlp16 velodyne_constants rd16 bad_scan16 empty_cloud).2.1
     = cloud before_bad_block.1
  /\ List.filter is_bad_header
       (trace (unpack_vlp16 velodyne_constants rd16 bad_scan16 empty_cloud).2.1)
     = [WarnBadHeader 3 0x1234].
Proof.
  destruct (bad_header_stops_scan velodyne_constants rd16 bad_scan16 empty_cloud
              [] [demo_packet vlp16_headers 1000 0x37] bad_packet16 3
              (vlp16_start velodyne_constants rd16 bad_scan16 empty_cloud)
              before_bad_block.1 before_bad_block.2)
    as (E & Hc & _ & Hw & _).
  - reflexivity.
  - cbn. lia.
  - vm_compute. intros H; discriminate H.
  - reflexivity.
  - vm_compute. reflexivity.
  - vm_compute. reflexivity.
  - rewrite E in *. cbn [fst snd] in *. split; [done |]. split; [exact Hc | exact Hw].
Defined.

(** Blocks 0 to 2 of the scan above are in the cloud, the cells of block 3
    and of the second packet hold the NaN point. *)
Example bad_header_partial_cloud :
  let pts := points (cloud (unpack_vlp16 velodyne_constants rd16 bad_scan16 empty_cloud).2.1) in
  ring <$> pts !! (15 * 48 + 5)%nat = Some 0
  /\ pts !! (15 * 48 + 6)%nat = Some nanPoint
  /\ pts !! (15 * 48 + 24)%nat = Some nanPoint.
Proof. vm_compute. repeat split. Qed.

(** ** Magnitude of floating-point results

    Bounds on the results of the operations of [SpecFloat], enough to
    know a result finite, non-negative and below a power of two. *)

Lemma digits2_pos_bounds (p : positive) :
  2 ^ (Zpos (digits2_pos p) - 1) <= Zpos p < 2 ^ Zpos (digits2_pos p).
Proof.
  induction p as [p IH | p IH |]; cbn [digits2_pos].
  - rewrite Pos2Z.inj_succ.
    replace (Z.succ (Zpos (digits2_pos p)) - 1) with (Z.succ (Zpos (digits2_pos p) - 1)) by lia.
    rewrite !Z.pow_succ_r by lia. lia.
  - rewrite Pos2Z.inj_succ.
    replace (Z.succ (Zpos (digits2_pos p)) - 1) with (Z.succ (Zpos (digits2_pos p) - 1)) by lia.
    rewrite !Z.pow_succ_r by lia. lia.
  - cbn. lia.
Qed.

Lemma Zdigits2_le (m B : Z) : 0 <= m -> 0 <= B -> m < 2 ^ B -> Zdigits2 m <= B.
Proof.
  intros Hm HB Hlt. destruct m as [| p | p]; [done | | lia].
  cbn [Zdigits2]. pose proof (digits2_pos_bounds p) as [Hlo _].
  assert (H : 2 ^ (Zpos (digits2_pos p) - 1) < 2 ^ B) by lia.
  apply Z.pow_lt_mono_r_iff in H; lia.
Qed.

Lemma digits2_pos_gt (p : positive) (j : Z) :
  0 <= j -> 2 ^ j <= Zpos p -> j < Zpos (digits2_pos p).
Proof.
  intros Hj Hle. pose proof (digits2_pos_bounds p) as [_ Hhi].
  assert (H : 2 ^ j < 2 ^ Zpos (digits2_pos p)) by lia.
  apply Z.pow_lt_mono_r_iff in H; lia.
Qed.

Lemma shr_1_m (mrs : shr_record) :
  0 <= shr_m mrs -> shr_m (shr_1 mrs) = shr_m mrs / 2.
Proof.
  destruct mrs as [m r s]. cbn [shr_m]. intros Hm.
  rewrite <- Z.div2_div.
  destruct m as [| p | p]; [done | | lia]. by destruct p.
Qed.

Lemma iter_shr_1_m (p : positive) (mrs : shr_record) :
  0 <= shr_m mrs -> shr_m (SpecFloat.iter_pos shr_1 p mrs) = shr_m mrs / 2 ^ Zpos p.
Proof.
  revert mrs. induction p as [p IH | p IH |]; intros mrs Hm; cbn [SpecFloat.iter_pos].
  - assert (H1 : 0 <= shr_m (shr_1 mrs)) by (rewrite shr_1_m by done; apply Z.div_pos; lia).
    assert (H2 : 0 <= shr_m (SpecFloat.iter_pos shr_1 p (shr_1 mrs)))
      by (rewrite IH by done; apply Z.div_pos; lia).
    rewrite IH, IH, shr_1_m by done.
    rewrite !Z.div_div by lia. f_equal.
    replace (Zpos p~1) with (1 + Zpos p + Zpos p) by lia.
    rewrite !Z.pow_add_r by lia. change (2 ^ 1) with 2. lia.
  - assert (H2 : 0 <= shr_m (SpecFloat.iter_pos shr_1 p mrs))
      by (rewrite IH by done; apply Z.div_pos; lia).
    rewrite IH, IH by done. rewrite Z.div_div by lia. f_equal.
    replace (Zpos p~0) with (Zpos p + Zpos p) by lia.
    rewrite !Z.pow_add_r by lia. lia.
  - rewrite shr_1_m by done. by rewrite Z.pow_1_r.
Qed.

Lemma shr_record_of_loc_m (m : Z) (l : location) : shr_m (shr_record_of_loc m l) = m.
Proof. by destruct l as [| []]. Qed.

Lemma round_nearest_even_bounds (m : Z) (l : location) :
  m <= round_nearest_even m l <= m + 1.
Proof.
  unfold round_nearest_even. destruct l as [| []]; try lia. destruct (Z.even m); lia.
Qed.

Section Rounding.
Variables prec emax : Z.
Hypothesis Hprec : 0 < prec.
Hypothesis Hemax : 2 <= emax.

Lemma fexp_le (t k : Z) : t <= k -> fexp prec emax t <= fexp prec emax k.
Proof. unfold fexp. lia. Qed.

Lemma fexp_lt (k : Z) : emin prec emax < k -> fexp prec emax k < k.
Proof. unfold fexp. lia. Qed.

(** Shifting to the exponent of the format keeps a mantissa below
    [2 ^ (k - exponent)]. *)
Lemma shr_fexp_bound (k mx ex : Z) (l : location) :
  0 <= mx -> ex < k -> mx < 2 ^ (k - ex) -> emin prec emax < k ->
  let r := shr_fexp prec emax mx ex l in
  0 <= shr_m r.1 < 2 ^ (k - r.2)
  /\ r.2 < k
  /\ r.2 <= Z.max ex (fexp prec emax k).
Proof.
  intros Hm Hex Hlt Hemin r. subst r. unfold shr_fexp, shr.
  assert (Hd : Zdigits2 mx + ex <= k) by (pose proof (Zdigits2_le mx (k - ex)); lia).
  pose proof (fexp_le _ _ Hd) as Hf. pose proof (fexp_lt k Hemin) as Hf'.
  destruct (fexp prec emax (Zdigits2 mx + ex) - ex) as [| p | p] eqn:En; cbn [fst snd].
  - rewrite shr_record_of_loc_m. lia.
  - rewrite iter_shr_1_m by (rewrite shr_record_of_loc_m; lia).
    rewrite shr_record_of_loc_m.
    split; [| lia]. split; [apply Z.div_pos; lia |].
    apply Z.div_lt_upper_bound; [lia |].
    rewrite <- Z.pow_add_r by lia.
    replace (Zpos p + (k - (ex + Zpos p))) with (k - ex) by lia. done.
  - rewrite shr_record_of_loc_m. lia.
Qed.

(** Rounding a non-negative mantissa below [2 ^ k] gives a finite,
    non-negative value below [2 ^ (k + 1)]. *)
Lemma binary_round_aux_fits (k mx ex : Z) (lx : location) :
  0 <= mx -> ex < k -> mx < 2 ^ (k - ex) ->
  emin prec emax < k -> k + 1 <= emax -> ex <= emax - prec ->
  fits (k + 1) (binary_round_aux prec emax false mx ex lx).
Proof.
  intros Hm Hex Hlt Hemin Hk Hex'. unfold binary_round_aux.
  pose proof (shr_fexp_bound k mx ex lx Hm Hex Hlt Hemin) as H1. cbv zeta in H1.
  destruct (shr_fexp prec emax mx ex lx) as [mrs' e']. cbn [fst snd] in H1.
  destruct H1 as ([H1a H1b] & H1c & H1d).
  pose proof (round_nearest_even_bounds (shr_m mrs') (loc_of_shr_record mrs')) as Hr.
  set (m1 := round_nearest_even (shr_m mrs') (loc_of_shr_record mrs')) in *.
  assert (Hm1 : m1 < 2 ^ (k + 1 - e')).
  { replace (k + 1 - e') with (Z.succ (k - e')) by lia.
    rewrite Z.pow_succ_r by lia. lia. }
  pose proof (shr_fexp_bound (k + 1) m1 e' loc_Exact ltac:(lia) ltac:(lia) Hm1 ltac:(lia))
    as H2. cbv zeta in H2.
  destruct (shr_fexp prec emax m1 e' loc_Exact) as [mrs'' e'']. cbn [fst snd] in H2.
  destruct H2 as ([H2a H2b] & H2c & H2d).
  destruct (shr_m mrs'') as [| m | m]; [done | | lia].
  assert (He : e'' <= emax - prec).
  { unfold fexp, emin in *. lia. }
  destruct (Z.leb_spec e'' (emax - prec)); [| lia]. exact H2b.
Qed.

Lemma fits_mono (k k' : Z) (x : spec_float) : k <= k' -> fits k x -> fits k' x.
Proof.
  intros Hk. destruct x as [| | | [] m e]; try done. cbn.
  intros H. assert (0 <= k - e).
  { destruct (Z.le_gt_cases 0 (k - e)) as [| Hneg]; [done |].
    rewrite (Z.pow_neg_r 2 (k - e)) in H by lia. lia. }
  eapply Z.lt_le_trans; [exact H |]. apply Z.pow_le_mono_r; lia.
Qed.

(** A finite value below [2 ^ k] has its exponent below [k]. *)
Lemma fits_exponent (k : Z) (m : positive) (e : Z) : Zpos m < 2 ^ (k - e) -> e < k.
Proof.
  intros H. destruct (Z.lt_ge_cases e k) as [| Hge]; [done |].
  destruct (Z.eq_dec e k) as [-> | Hne].
  - rewrite Z.sub_diag in H. cbn in H. lia.
  - rewrite (Z.pow_neg_r 2 (k - e)) in H by lia. lia.
Qed.

Lemma SFmul_fits (k1 k2 : Z) (x y : spec_float) :
  fits k1 x -> fits k2 y ->
  emin prec emax < k1 + k2 -> k1 + k2 <= emax - prec ->
  fits (k1 + k2 + 1) (SFmul prec emax x y).
Proof.
  intros Hx Hy Hemin Hk.
  destruct x as [sx | | | [] m1 e1], y as [sy | | | [] m2 e2]; try done.
  cbn [fits] in Hx, Hy. cbn [SFmul xorb].
  pose proof (fits_exponent _ _ _ Hx). pose proof (fits_exponent _ _ _ Hy).
  apply binary_round_aux_fits; try lia.
  replace (k1 + k2 - (e1 + e2)) with ((k1 - e1) + (k2 - e2)) by lia.
  rewrite Z.pow_add_r, Pos2Z.inj_mul by lia. nia.
Qed.

Lemma shl_align_spec (mx : positive) (ex ex' : Z) :
  let r := shl_align mx ex ex' in
  r.2 <= ex /\ Zpos r.1 = Zpos mx * 2 ^ (ex - r.2).
Proof.
  unfold shl_align. destruct (ex' - ex) as [| d | d] eqn:Ed; cbn [fst snd].
  - rewrite Z.sub_diag. lia.
  - rewrite Z.sub_diag. lia.
  - split; [lia |]. change (Pos.iter xO mx d) with (shift_pos d mx).
    rewrite shift_pos_correct, Z.pow_pos_fold.
    replace (ex - ex') with (Zpos d) by lia. lia.
Qed.

Lemma binary_round_fits (k : Z) (m : positive) (e : Z) :
  Zpos m < 2 ^ (k - e) ->
  emin prec emax < k -> k + 1 <= emax -> e <= emax - prec ->
  fits (k + 1) (binary_round prec emax false m e).
Proof.
  intros Hm Hemin Hk He. unfold binary_round.
  pose proof (shl_align_spec m e (fexp prec emax (Zpos (digits2_pos m) + e))) as H.
  cbv zeta in H. destruct (shl_align _ _ _) as [mz ez]. cbn [fst snd] in H.
  destruct H as [Hez Hmz]. pose proof (fits_exponent _ _ _ Hm).
  apply binary_round_aux_fits; try lia.
  rewrite Hmz. replace (k - ez) with ((k - e) + (e - ez)) by lia.
  rewrite Z.pow_add_r by lia.
  apply Z.mul_lt_mono_pos_r; [apply Z.pow_pos_nonneg; lia | done].
Qed.

Lemma binary_normalize_fits (a z : Z) :
  0 <= z < 2 ^ a -> 0 < a ->
  emin prec emax < a -> a + 1 <= emax -> 0 <= emax - prec ->
  fits (a + 1) (binary_normalize prec emax z 0 false).
Proof.
  intros Hz Ha Hemin Hk He. destruct z as [| m | m]; [done | | lia].
  cbn [binary_normalize]. apply binary_round_fits; try lia.
  rewrite Z.sub_0_r. lia.
Qed.

Lemma SFadd_fits (k : Z) (x y : spec_float) :
  fits k x -> fits k y ->
  emin prec emax < k + 1 -> k + 2 <= emax -> k <= emax - prec ->
  fits (k + 2) (SFadd prec emax x y).
Proof.
  intros Hx Hy Hemin Hk He.
  destruct x as [sx | | | [] m1 e1], y as [sy | | | [] m2 e2]; try done.
  - by destruct sx, sy.
  - cbn [SFadd]. apply (fits_mono k); [lia | done].
  - cbn [SFadd]. apply (fits_mono k); [lia | done].
  - cbn [fits] in Hx, Hy. cbn [SFadd cond_Zopp].
    pose proof (fits_exponent _ _ _ Hx). pose proof (fits_exponent _ _ _ Hy).
    set (ez := Z.min e1 e2).
    pose proof (shl_align_spec m1 e1 ez) as H1. pose proof (shl_align_spec m2 e2 ez) as H2.
    cbv zeta in H1, H2.
    assert (E1 : (shl_align m1 e1 ez).2 = ez).
    { unfold shl_align. destruct (ez - e1) eqn:E; cbn [snd]; lia. }
    assert (E2 : (shl_align m2 e2 ez).2 = ez).
    { unfold shl_align. destruct (ez - e2) eqn:E; cbn [snd]; lia. }
    rewrite E1 in H1. rewrite E2 in H2.
    destruct H1 as [_ H1], H2 as [_ H2].
    set (a := (shl_align m1 e1 ez).1) in *. set (b := (shl_align m2 e2 ez).1) in *.
    change (Zpos a + Zpos b) with (Zpos (a + b)). cbn [binary_normalize].
    replace (k + 2) with (k + 1 + 1) by lia.
    apply binary_round_fits; try lia.
    rewrite Pos2Z.inj_add, H1, H2.
    assert (B1 : Zpos m1 * 2 ^ (e1 - ez) < 2 ^ (k - ez)).
    { replace (k - ez) with ((k - e1) + (e1 - ez)) by lia. rewrite Z.pow_add_r by lia.
      apply Z.mul_lt_mono_pos_r; [apply Z.pow_pos_nonneg; lia | done]. }
    assert (B2 : Zpos m2 * 2 ^ (e2 - ez) < 2 ^ (k - ez)).
    { replace (k - ez) with ((k - e2) + (e2 - ez)) by lia. rewrite Z.pow_add_r by lia.
      apply Z.mul_lt_mono_pos_r; [apply Z.pow_pos_nonneg; lia | done]. }
    replace (k + 1 - ez) with (Z.succ (k - ez)) by lia.
    rewrite Z.pow_succ_r by lia. lia.
Qed.

Lemma SFdiv_fits (k j : Z) (x y : spec_float) :
  fits k x -> at_least j y ->
  emin prec emax < k - j -> k - j + 1 <= emax ->
  fits (k - j + 1) (SFdiv prec emax x y).
Proof.
  intros Hx Hy Hemin Hk.
  destruct y as [| | | [] m2 e2]; try done. destruct Hy as [Hj Hm2].
  destruct x as [sx | | | [] m1 e1]; try done.
  cbn [fits] in Hx. cbn [SFdiv xorb]. unfold SFdiv_core_binary.
  pose proof (fits_exponent _ _ _ Hx) as He1.
  cbn [Zdigits2].
  set (d1 := Zpos (digits2_pos m1)). set (d2 := Zpos (digits2_pos m2)).
  assert (Hd1 : d1 <= k - e1)
    by (apply (Zdigits2_le (Zpos m1)); lia).
  assert (Hd2 : j - e2 < d2) by (apply digits2_pos_gt; lia).
  set (e' := Z.min (fexp prec emax (d1 + e1 - (d2 + e2))) (e1 - e2)).
  assert (He' : e' < k - j /\ e' <= emax - prec /\ e' <= e1 - e2).
  { subst e'. unfold fexp, emin in *. lia. }
  set (s := e1 - e2 - e').
  set (m' := match s with Z0 => Zpos m1 | Zpos _ => Z.shiftl (Zpos m1) s | Zneg _ => 0 end).
  assert (Hm' : m' = Zpos m1 * 2 ^ s).
  { subst m'. destruct s as [| p | p] eqn:Es; [lia | | lia].
    rewrite Z.shiftl_mul_pow2; lia. }
  pose proof (Z.div_eucl_eq m' (Zpos m2) ltac:(lia)) as Hq.
  pose proof (Z.mod_pos_bound m' (Zpos m2) ltac:(lia)) as Hr.
  unfold Z.modulo in Hr. destruct (Z.div_eucl m' (Zpos m2)) as [q r].
  assert (Hm'lt : m' < 2 ^ (k - e1 + s)).
  { rewrite Hm', Z.pow_add_r by lia.
    apply Z.mul_lt_mono_pos_r; [apply Z.pow_pos_nonneg; lia | done]. }
  assert (Hq0 : 0 <= q) by nia.
  assert (Hqlt : q < 2 ^ (k - j - e')).
  { destruct (Z.lt_ge_cases q (2 ^ (k - j - e'))) as [| Hge]; [done |].
    assert (2 ^ (k - j - e') * 2 ^ (j - e2) <= q * Zpos m2) by nia.
    rewrite <- Z.pow_add_r in H by lia.
    replace (k - j - e' + (j - e2)) with (k - e1 + s) in H by lia. lia. }
  apply binary_round_aux_fits; lia.
Qed.
End Rounding.

(** [round] of a value below [2 ^ k]. *)
Lemma round_fits (k : Z) (x : spec_float) :
  0 <= k -> fits k x -> exists z, Fp.round x = Some z /\ 0 <= z <= 2 ^ k.
Proof.
  intros Hk Hx. destruct x as [s | | | [] m e]; try done.
  - exists 0. split; [done |]. pose proof (Z.pow_pos_nonneg 2 k). lia.
  - cbn [fits] in Hx. pose proof (fits_exponent _ _ _ Hx) as He.
    cbn [Fp.round cond_Zopp]. eexists. split; [done |].
    destruct (Z.leb_spec 0 e).
    + rewrite Z.shiftl_mul_pow2 by lia.
      assert (Zpos m * 2 ^ e < 2 ^ k).
      { replace k with ((k - e) + e) at 1 by lia. rewrite Z.pow_add_r by lia.
        apply Z.mul_lt_mono_pos_r; [apply Z.pow_pos_nonneg; lia | done]. }
      nia.
    + rewrite Z.shiftr_div_pow2, Z.shiftl_mul_pow2 by lia. rewrite Z.mul_1_l.
      assert (Hp : 0 < 2 ^ (- e - 1)) by (apply Z.pow_pos_nonneg; lia).
      assert (E : 2 ^ (- e) = 2 * 2 ^ (- e - 1)).
      { replace (- e) with (Z.succ (- e - 1)) at 1 by lia. rewrite Z.pow_succ_r; lia. }
      assert (Hm : Zpos m < 2 ^ k * 2 ^ (- e)).
      { rewrite <- Z.pow_add_r by lia. by replace (k + - e) with (k - e) by lia. }
      split; [apply Z.div_pos; lia |].
      apply Z.lt_succ_r. apply Z.div_lt_upper_bound; [lia |]. nia.
Qed.

(** ** Azimuth interpolation of the 16-beam decoder *)

Lemma fitsb_fits (k : Z) (x : spec_float) : fitsb k x = true -> fits k x.
Proof. destruct x as [| | | [] m e]; try done. cbn. by intros H%Z.ltb_lt. Qed.

Lemma at_leastb_at_least (j : Z) (x : spec_float) : at_leastb j x = true -> at_least j x.
Proof.
  destruct x as [| | | [] m e]; try done. cbn.
  intros [H1%Z.leb_le H2%Z.leb_le]%andb_true_iff. done.
Qed.

Lemma timing_ok_spec (K : Constants) :
  timing_ok K = true ->
  (forall firing dsr,
     0 <= firing < VLP16_FIRINGS_PER_BLOCK K -> 0 <= dsr < VLP16_SCANS_PER_FIRING K ->
     fits 7 (t_beam K dsr firing))
  /\ at_least 6 (VLP16_BLOCK_TDURATION K).
Proof.
  unfold timing_ok. intros [H1 H2]%andb_true_iff. split.
  - intros firing dsr Hf Hd. apply fitsb_fits.
    rewrite forallb_forall in H1.
    assert (Hin : In firing (seqZ 0 (VLP16_FIRINGS_PER_BLOCK K)))
      by (apply list_elem_of_In, elem_of_seqZ; lia).
    specialize (H1 _ Hin). rewrite forallb_forall in H1.
    apply H1. apply list_elem_of_In, elem_of_seqZ; lia.
  - by apply at_leastb_at_least.
Qed.

Lemma single_of_int_fits (a z : Z) :
  0 <= z < 2 ^ a -> 0 < a <= 100 -> fits (a + 1) (Single.of_int z).
Proof.
  intros Hz Ha. unfold Single.of_int.
  apply binary_normalize_fits; unfold emin, Single.prec, Single.emax; lia.
Qed.

(** The value the 16-beam decoder rounds is finite and lies in
    [0, 2^22]: the conversion to [int] is exact, and [%] is the modulus. *)
Lemma azimuth_corrected_spec (K : Constants) (rot d : Z) (t : spec_float) :
  0 <= rot < 36000 -> 0 <= d < 36000 ->
  fits 7 t -> at_least 6 (VLP16_BLOCK_TDURATION K) ->
  exists z,
    Fp.round (Single.of_int rot + Single.of_int d * t / VLP16_BLOCK_TDURATION K)%single
    = Some z
    /\ 0 <= z <= 2 ^ 22
    /\ azimuth_corrected K (Single.of_int rot) (Single.of_int d) t = z mod 36000.
Proof.
  intros Hrot Hd Ht HT.
  assert (Frot : fits 17 (Single.of_int rot)) by (apply (single_of_int_fits 16); lia).
  assert (Fd : fits 17 (Single.of_int d)) by (apply (single_of_int_fits 16); lia).
  assert (Fmul : fits 25 (Single.of_int d * t)%single).
  { apply (SFmul_fits Single.prec Single.emax ltac:(done) ltac:(done) 17 7);
      try done; unfold emin, Single.prec, Single.emax; lia. }
  assert (Fdiv : fits 20 (Single.of_int d * t / VLP16_BLOCK_TDURATION K)%single).
  { apply (SFdiv_fits Single.prec Single.emax ltac:(done) ltac:(done) 25 6);
      try done; unfold emin, Single.prec, Single.emax; lia. }
  assert (Fadd : fits 22
            (Single.of_int rot + Single.of_int d * t / VLP16_BLOCK_TDURATION K)%single).
  { apply (SFadd_fits Single.prec Single.emax ltac:(done) ltac:(done) 20);
      try done; [by apply (fits_mono 17); [lia |] | ..];
      unfold emin, Single.prec, Single.emax; lia. }
  destruct (round_fits 22 _ ltac:(lia) Fadd) as (z & Hz & Hzr).
  exists z. split; [done |]. split; [done |].
  unfold azimuth_corrected. rewrite Hz. unfold Fp.to_int, Fp.INT_MIN.
  assert (2 ^ 22 < 2 ^ 31) by (apply Z.pow_lt_mono_r; lia).
  destruct (Z.leb_spec (- 2 ^ 31) z); [| lia]. destruct (Z.ltb_spec z (2 ^ 31)); [| lia].
  cbn [andb]. apply Z.rem_mod_nonneg; lia.
Qed.

Lemma rotations_ok_at (pkt : VelodynePacket) (b : Z) :
  rotations_ok pkt -> 0 <= rotation (block_at (blocks pkt) b) < 36000.
Proof.
  intros H. unfold block_at.
  destruct (nth_in_or_default (Z.to_nat b) (blocks pkt) zero_block) as [Hin | ->].
  - unfold rotations_ok in H. rewrite Forall_forall in H. apply H.
    by apply list_elem_of_In.
  - cbn. lia.
Qed.

Lemma block_azimuth_diff_spec (K : Constants) (pkt : VelodynePacket) (s i : Z)
    (last : spec_float) :
  rotations_ok pkt ->
  block_azimuth_diff K pkt s i last
  = if i <? BLOCKS_PER_PACKET K - s
    then (Single.of_int (spec_azimuth_diff pkt s i), Single.of_int (spec_azimuth_diff pkt s i))
    else (last, last).
Proof.
  intros Hrot. unfold block_azimuth_diff, spec_azimuth_diff.
  destruct (i <? BLOCKS_PER_PACKET K - s); [| done].
  pose proof (rotations_ok_at pkt (i + s) Hrot). pose proof (rotations_ok_at pkt i Hrot).
  rewrite Z.rem_mod_nonneg by lia. done.
Qed.

Lemma unpack_vlp16_block_unfold (K : Constants) (rd : RawData) (scan : VelodyneScan)
    (packet : Z) (pkt : VelodynePacket) (dual_return : bool) (s i : Z) (e : env)
    (last : spec_float) :
  header (block_at (blocks pkt) i) = UPPER_BANK K ->
  unpack_vlp16_block K rd scan packet pkt dual_return s i (e, last)
  = let d := block_azimuth_diff K pkt s i last in
    let r :=
      for_each
        (fun firing =>
           for_each
             (unpack_vlp16_reading K rd scan packet pkt dual_return i
                (Single.of_int (rotation (block_at (blocks pkt) i))) d.1 firing)
             (seqZ 0 (VLP16_SCANS_PER_FIRING K)))
        (seqZ 0 (VLP16_FIRINGS_PER_BLOCK K)) e in
    (r.1, (r.2, d.2)).
Proof.
  intros Hh. unfold unpack_vlp16_block. rewrite Hh, Z.eqb_refl. cbn [negb].
  by destruct (block_azimuth_diff K pkt s i last).
Qed.

(** After the blocks [0 .. n - 1] the remembered difference is the one the
    specification gives for block [n - 1]. *)
Lemma blocks_last_diff (K : Constants) (rd : RawData) (scan : VelodyneScan)
    (packet : Z) (pkt : VelodynePacket) (dual_return : bool) (s : Z)
    (e0 : env) (inherited : spec_float) (n : nat) (e : env) (last : spec_float) :
  rotations_ok pkt -> s < BLOCKS_PER_PACKET K ->
  for_each (unpack_vlp16_block K rd scan packet pkt dual_return s)
    (seqZ 0 (Z.of_nat n)) (e0, inherited) = (Next, (e, last)) ->
  last = match n with
         | O => inherited
         | S n' => spec_block_diff K pkt s (Z.of_nat n')
         end.
Proof.
  intros Hrot Hs. revert e last. induction n as [| n IH]; intros e last Hrun.
  - cbn in Hrun. by injection Hrun as _ <-.
  - replace (Z.of_nat (S n)) with (Z.of_nat n + 1) in Hrun by lia.
    rewrite seqZ_app, for_each_app in Hrun by lia.
    destruct (for_each _ (seqZ 0 (Z.of_nat n)) (e0, inherited)) as [[] [e1 last1]] eqn:E1;
      try done.
    specialize (IH e1 last1 eq_refl).
    rewrite Z.add_0_l in Hrun. rewrite seqZ_cons, seqZ_nil in Hrun by lia.
    cbn [for_each] in Hrun.
    destruct (unpack_vlp16_block K rd scan packet pkt dual_return s (Z.of_nat n) (e1, last1))
      as [[] [e2 last2]] eqn:E2; try done.
    injection Hrun as <- <-.
    unfold unpack_vlp16_block in E2. destruct (negb _); [done |].
    rewrite block_azimuth_diff_spec in E2 by done.
    unfold spec_block_diff.
    destruct (Z.ltb_spec (Z.of_nat n) (BLOCKS_PER_PACKET K - s)) as [Hlt | Hge].
    + injection E2 as _ _ <-. by rewrite Z.min_l by lia.
    + injection E2 as _ _ <-. destruct n as [| n']; [lia |].
      rewrite IH. unfold spec_block_diff. f_equal. f_equal. lia.
Qed.

(** C4. In the 16-beam decoder the azimuth difference used for block
    [i] is [(36000 + rotation (i + s) - rotation i) mod 36000], [s] being 2
    under dual return and 1 otherwise, when block [i + s] exists, and the
    last difference computed (that of block [BLOCKS_PER_PACKET - s - 1])
    for the blocks after it; the azimuth of beam [dsr] of firing [firing] is
    [round (rotation i + diff * (dsr * DSR_TOFFSET + firing * FIRING_TOFFSET)
    / BLOCK_TDURATION)] modulo 36000, a code of the circle. *)
Theorem vlp16_azimuth_interpolation (K : Constants) (rd : RawData) (scan : VelodyneScan)
    (packet : Z) (pkt : VelodynePacket) (i : Z) (e0 : env) (inherited : spec_float)
    (e : env) (last : spec_float) (firing dsr : Z) :
  let dual_return := is_dual_return K pkt in
  let s := 1 + (if dual_return then 1 else 0) in
  let rot := rotation (block_at (blocks pkt) i) in
  let diff := spec_block_diff K pkt s i in
  s < BLOCKS_PER_PACKET K -> 0 <= i < BLOCKS_PER_PACKET K ->
  rotations_ok pkt ->
  header (block_at (blocks pkt) i) = UPPER_BANK K ->
  timing_ok K = true ->
  0 <= firing < VLP16_FIRINGS_PER_BLOCK K -> 0 <= dsr < VLP16_SCANS_PER_FIRING K ->
  for_each (unpack_vlp16_block K rd scan packet pkt dual_return s) (seqZ 0 i)
    (e0, inherited) = (Next, (e, last)) ->
  block_azimuth_diff K pkt s i last = (diff, diff)
  /\ unpack_vlp16_block K rd scan packet pkt dual_return s i (e, last)
     = (let r :=
          for_each
            (fun firing =>
               for_each
                 (unpack_vlp16_reading K rd scan packet pkt dual_return i
                    (Single.of_int rot) diff firing)
                 (seqZ 0 (VLP16_SCANS_PER_FIRING K)))
            (seqZ 0 (VLP16_FIRINGS_PER_BLOCK K)) e in
        (r.1, (r.2, diff)))
  /\ azimuth_corrected K (Single.of_int rot) diff (t_beam K dsr firing)
     = spec_azimuth_corrected K rot diff dsr firing
  /\ 0 <= azimuth_corrected K (Single.of_int rot) diff (t_beam K dsr firing) < 36000.
Proof.
  intros dual_return s rot diff Hs Hi Hrot Hh Htime Hf Hd Hrun.
  assert (Hdiff : block_azimuth_diff K pkt s i last = (diff, diff)).
  { rewrite block_azimuth_diff_spec by done. subst diff. unfold spec_block_diff.
    destruct (Z.ltb_spec i (BLOCKS_PER_PACKET K - s)) as [Hlt | Hge].
    - by rewrite Z.min_l by lia.
    - replace i with (Z.of_nat (Z.to_nat i)) in Hrun by lia.
      apply (blocks_last_diff K rd scan packet pkt dual_return s) in Hrun; [| done | done].
      destruct (Z.to_nat i) as [| n'] eqn:En; [lia |].
      rewrite Hrun. unfold spec_block_diff.
      replace (Z.min (Z.of_nat n') (BLOCKS_PER_PACKET K - s - 1))
        with (Z.min i (BLOCKS_PER_PACKET K - s - 1)) by lia.
      done. }
  split; [done |]. split.
  { rewrite unpack_vlp16_block_unfold by done. by rewrite Hdiff. }
  destruct (timing_ok_spec K Htime) as [Ht HT].
  pose proof (rotations_ok_at pkt i Hrot) as Hr. fold rot in Hr.
  assert (Hsd : 0 <= spec_azimuth_diff pkt s (Z.min i (BLOCKS_PER_PACKET K - s - 1)) < 36000)
    by (unfold spec_azimuth_diff; apply Z.mod_pos_bound; lia).
  destruct (azimuth_corrected_spec K rot _ (t_beam K dsr firing) Hr Hsd
              (Ht firing dsr Hf Hd) HT) as (z & Hz & Hzr & Haz).
  fold (spec_block_diff K pkt s i) in Hz, Haz. fold diff in Hz, Haz.
  split.
  - rewrite Haz. unfold spec_azimuth_corrected. fold (t_beam K dsr firing).
    by rewrite Hz.
  - rewrite Haz. apply Z.mod_pos_bound. lia.
Qed.

Lemma vlp16_azimuth_interpolation_witness :
  block_azimuth_diff velodyne_constants (demo_packet vlp16_headers 1000 0x37) 1 11
    before_last_block.2
  = (Single.of_int 100, Single.of_int 100)
  /\ azimuth_corrected velodyne_constants (Single.of_int 1100) (Single.of_int 100)
       (t_beam velodyne_constants 15 1) = 1181.
Proof.
  destruct (vlp16_azimuth_interpolation velodyne_constants rd16 scan16 0
              (demo_packet vlp16_headers 1000 0x37) 11
              (vlp16_start velodyne_constants rd16 scan16 empty_cloud).1
              (vlp16_start velodyne_constants rd16 scan16 empty_cloud).2
              before_last_block.1 before_last_block.2 1 15)
    as (H1 & _ & H3 & _).
  - vm_compute. reflexivity.
  - vm_compute. split; [discriminate | reflexivity].
  - unfold rotations_ok. cbn. repeat (constructor; [cbn; lia |]). constructor.
  - reflexivity.
  - vm_compute. reflexivity.
  - vm_compute. split; [discriminate | reflexivity].
  - vm_compute. split; [discriminate | reflexivity].
  - vm_compute. reflexivity.
  - split.
    + refine (eq_trans H1 _). vm_compute. reflexivity.
    + refine (eq_trans H3 _). vm_compute. reflexivity.
Defined.

(** ** Every indexed access is in bounds *)

Lemma scan_readings_elem (K : Constants) (scan : VelodyneScan)
    (pkt : VelodynePacket) (i j : Z) :
  (pkt, (i, j)) ∈ scan_readings K scan ->
  pkt ∈ packets scan /\ 0 <= i < BLOCKS_PER_PACKET K /\ 0 <= j < SCANS_PER_BLOCK K.
Proof.
  unfold scan_readings. intros (p & Hin & Hp)%list_elem_of_bind.
  apply list_elem_of_fmap in Hin as ([i' j'] & [= -> -> ->] & Hij).
  apply list_elem_of_bind in Hij as (i'' & Hj & Hi).
  apply list_elem_of_fmap in Hj as (j'' & [= -> ->] & Hj).
  apply elem_of_seqZ in Hi, Hj. split; [done | lia].
Qed.

Lemma length_bind_const {A B : Type} (f : A -> list B) (l : list A) (m : nat) :
  (forall a, length (f a) = m) -> length (l ≫= f) = (length l * m)%nat.
Proof.
  intros Hf. induction l as [| a l IH]; [done |].
  rewrite bind_cons, length_app, IH, Hf. cbn. lia.
Qed.

Lemma scan_readings_length (K : Constants) (scan : VelodyneScan) :
  0 <= BLOCKS_PER_PACKET K -> 0 <= SCANS_PER_BLOCK K ->
  Z.of_nat (length (scan_readings K scan))
  = Z.of_nat (length (packets scan)) * SCANS_PER_PACKET K.
Proof.
  intros HB HS. unfold scan_readings, SCANS_PER_PACKET.
  rewrite (length_bind_const _ _
             (Z.to_nat (BLOCKS_PER_PACKET K) * Z.to_nat (SCANS_PER_BLOCK K))).
  - lia.
  - intros pkt. rewrite length_fmap.
    rewrite (length_bind_const _ _ (Z.to_nat (SCANS_PER_BLOCK K))).
    + by rewrite length_seqZ.
    + intros i. by rewrite length_fmap, length_seqZ.
Qed.

Lemma extends_start_trace (Q : event -> Prop) (e0 e : env) :
  trace e0 = [] -> extends Q e0 e -> Forall Q (trace e).
Proof. intros H0 (_ & _ & _ & evs & Ht & Hq & _). rewrite Ht, H0. done. Qed.

Lemma in_bounds_forallb (w h : Z) (e0 e : env) :
  trace e0 = [] -> width (cloud e0) = w -> height (cloud e0) = h ->
  extends (fun ev => in_bounds w h ev = true) e0 e ->
  forallb (in_bounds (width (cloud e)) (height (cloud e))) (trace e) = true.
Proof.
  intros H0 Hw Hh Hext. pose proof (extends_start_trace _ _ _ H0 Hext) as HF.
  destruct Hext as (-> & -> & _). rewrite Hw, Hh.
  apply forallb_forall. intros ev Hin. rewrite Forall_forall in HF.
  apply HF. by apply list_elem_of_In.
Qed.

(** The legacy decoder. *)
Lemma unpack_legacy_in_bounds (K : Constants) (rd : RawData) (scan : VelodyneScan)
    (pc : VPointCloud) :
  let num := num_lasers (calibration_ rd) in
  let P := Z.of_nat (length (packets scan)) in
  let r := unpack_legacy K rd scan pc in
  0 < num < 2 ^ 31 -> rings_ok rd -> Forall rotations_ok (packets scan) ->
  0 <= BLOCKS_PER_PACKET K -> 0 <= SCANS_PER_BLOCK K ->
  SCANS_PER_PACKET K mod num = 0 -> P * SCANS_PER_PACKET K < 2 ^ 32 ->
  forallb (in_bounds (width (cloud r.2.1)) (height (cloud r.2.1))) (trace r.2.1) = true.
Proof.
  intros num P r Hnum Hring Hrot HB HS Hdiv Hfit. subst r.
  rewrite unpack_legacy_fold by (fold num; rewrite uint64_small; lia).
  set (T := P * SCANS_PER_PACKET K) in *.
  assert (HT0 : 0 <= T).
  { subst T P. unfold SCANS_PER_PACKET. nia. }
  assert (Hq : T = num * (T / num)).
  { apply Z.div_exact; [lia |]. subst T.
    rewrite <- Z.mul_mod_idemp_r, Hdiv, Z.mul_0_r by lia. apply Z.mod_0_l. lia. }
  set (w := T / num) in *.
  assert (Hw : legacy_width K rd scan = w).
  { unfold legacy_width. fold num P T. rewrite !uint64_small by lia.
    apply uint32_small. subst w. split; [apply Z.div_pos; lia |].
    apply Z.div_lt_upper_bound; nia. }
  set (start := legacy_start K rd scan pc).
  set (Q := fun ev => in_bounds w num ev = true).
  destruct (for_each_counted (reading_step K rd scan)
              (fun k s => extends Q start.1 s.1 /\ 0 <= s.2 <= Z.of_nat k)
              (scan_readings K scan) 0 start) as (k & _ & [Hext _]).
  { split; [apply extends_refl | cbn; lia]. }
  { intros k [pkt [i j]] [e n] Hk [Hext Hn]. cbn [fst snd plus] in *.
    assert (Hklt : Z.of_nat k < T).
    { apply lookup_lt_Some in Hk. subst T P.
      rewrite <- scan_readings_length by done. lia. }
    apply list_elem_of_lookup_2, scan_readings_elem in Hk as (Hpkt & Hi & Hj).
    unfold reading_step. cbn [fst snd].
    pose proof (unpack_reading_effect K rd scan pkt i j e n ltac:(fold num; lia)) as H.
    cbv zeta in H. fold num in H.
    destruct (in_angle_window rd (rotation (block_at (blocks pkt) i))).
    - destruct H as [Hn' Heff]. split; [| lia].
      eapply extends_trans; [exact Hext |].
      apply (cell_effect_extends Q) in Heff; [exact Heff | | | done |].
      + repeat constructor. subst Q. cbn.
        rewrite Forall_forall in Hrot.
        pose proof (rotations_ok_at pkt i (Hrot pkt Hpkt)). 
        apply andb_true_iff. split; [apply Z.leb_le | apply Z.ltb_lt]; lia.
      + subst Q. cbn. pose proof (Hring ((j + bank_origin K (block_at (blocks pkt) i)) mod 256)) as Hr.
        fold num in Hr. unfold reading_corrections.
        rewrite Z.quot_div_nonneg by lia.
        assert (0 <= n / num) by (apply Z.div_pos; lia).
        assert (n / num < w) by (apply Z.div_lt_upper_bound; lia).
        rewrite !andb_true_iff, !Z.leb_le, !Z.ltb_lt. lia.
      + intros c0 r0 Hin. apply elem_of_cons in Hin as [Hin | Hin]; [done |].
        by apply elem_of_nil in Hin.
    - rewrite H. cbn. split; [done | lia]. }
  apply (in_bounds_forallb w num start.1); try done.
  subst start. cbn. unfold prepare_cloud. cbn. fold num. apply uint32_small. lia.
Qed.

Lemma dual_column_range_even (B F b f : Z) :
  0 <= b < B -> B mod 2 = 0 -> 0 <= f < F ->
  0 <= Z.quot b 2 * 2 * F + f * 2 + Z.rem b 2 < B * F.
Proof.
  intros Hb HB Hf.
  rewrite Z.quot_div_nonneg, Z.rem_mod_nonneg by lia.
  pose proof (Z.div_mod b 2 ltac:(lia)) as Eb.
  pose proof (Z.mod_pos_bound b 2 ltac:(lia)) as Rb.
  pose proof (Z.div_mod B 2 ltac:(lia)) as EB. rewrite HB in EB.
  assert (b / 2 < B / 2) by lia.
  assert (0 <= b / 2) by (apply Z.div_pos; lia).
  nia.
Qed.

Lemma vlp16_col_range (K : Constants) (dual_return : bool) (P p b f : Z) :
  let B := BLOCKS_PER_PACKET K in
  let F := VLP16_FIRINGS_PER_BLOCK K in
  0 <= p < P -> 0 <= b < B -> 0 <= f < F -> B mod 2 = 0 -> P * B * F < 2 ^ 31 ->
  0 <= vlp16_col K dual_return p b f < P * B * F.
Proof.
  intros B F Hp Hb Hf HB Hfit.
  assert (HBF : 0 <= B * F) by nia.
  assert (Hpk : 0 <= p * B * F /\ (p + 1) * B * F <= P * B * F).
  { rewrite <- !Z.mul_assoc. split; [apply Z.mul_nonneg_nonneg; lia |].
    apply Z.mul_le_mono_nonneg_r; lia. }
  destruct dual_return.
  - pose proof (dual_column_range_even B F b f Hb HB Hf) as Hr.
    rewrite vlp16_col_dual; fold B F; nia.
  - pose proof (single_column_range B F p b f ltac:(lia) Hb Hf) as Hr.
    rewrite vlp16_col_single; fold B F; lia.
Qed.

(** The 16-beam decoder. *)
Lemma unpack_vlp16_in_bounds (K : Constants) (rd : RawData) (scan : VelodyneScan)
    (pc : VPointCloud) :
  let num := num_lasers (calibration_ rd) in
  let P := Z.of_nat (length (packets scan)) in
  let r := unpack_vlp16 K rd scan pc in
  0 < num < 2 ^ 31 -> rings_ok rd -> Forall rotations_ok (packets scan) ->
  timing_ok K = true ->
  0 <= BLOCKS_PER_PACKET K -> BLOCKS_PER_PACKET K mod 2 = 0 ->
  0 <= VLP16_FIRINGS_PER_BLOCK K ->
  P * BLOCKS_PER_PACKET K * VLP16_FIRINGS_PER_BLOCK K < 2 ^ 31 ->
  forallb (in_bounds (width (cloud r.2.1)) (height (cloud r.2.1))) (trace r.2.1) = true.
Proof.
  intros num P r Hnum Hring Hrot Htime HB HBe HF Hfit. subst r.
  destruct (timing_ok_spec K Htime) as [Ht HT].
  set (w := P * BLOCKS_PER_PACKET K * VLP16_FIRINGS_PER_BLOCK K) in *.
  assert (Hw0 : 0 <= w) by (subst w P; nia).
  assert (2 ^ 31 < 2 ^ 32) by (apply Z.pow_lt_mono_r; lia).
  assert (2 ^ 32 < 2 ^ 64) by (apply Z.pow_lt_mono_r; lia).
  assert (Hw : vlp16_width K scan = w).
  { unfold vlp16_width. fold P w. rewrite uint64_small by lia. apply uint32_small. lia. }
  set (start := vlp16_start K rd scan pc).
  set (Q := fun ev => in_bounds w num ev = true).
  assert (HQ : plain_events Q) by done.
  set (I := fun s : env * spec_float =>
              extends Q start.1 s.1
              /\ exists d, 0 <= d < 36000 /\ s.2 = Single.of_int d).
  assert (Hfin : I (unpack_vlp16 K rd scan pc).2).
  { unfold unpack_vlp16. fold start.
    apply for_each_from_invariant.
    { split; [apply extends_refl | exists 0; split; [lia | done]]. }
    intros p pkt s Hp Hpkt Hs. rewrite Z.add_0_l in Hp. fold P in Hp.
    rewrite Forall_forall in Hrot. specialize (Hrot pkt Hpkt).
    unfold unpack_vlp16_packet. destruct (negb _); [done |].
    apply for_each_invariant; [done |].
    intros b [e last] Hb%elem_of_seqZ [Hext (d & Hd & Hlast)]. cbn [fst snd] in *.
    unfold unpack_vlp16_block.
    destruct (negb _).
    { split; [| by exists d]. cbn [fst snd].
      eapply extends_trans; [exact Hext |]. by apply extends_emit. }
    rewrite block_azimuth_diff_spec by done.
    set (s1 := 1 + (if is_dual_return K pkt then 1 else 0)).
    assert (Hdiff : exists d',
              0 <= d' < 36000
              /\ (if b <? BLOCKS_PER_PACKET K - s1
                  then (Single.of_int (spec_azimuth_diff pkt s1 b),
                        Single.of_int (spec_azimuth_diff pkt s1 b))
                  else (last, last)) = (Single.of_int d', Single.of_int d')).
    { destruct (b <? BLOCKS_PER_PACKET K - s1).
      - eexists. split; [| done]. unfold spec_azimuth_diff. apply Z.mod_pos_bound. lia.
      - exists d. by rewrite Hlast. }
    destruct Hdiff as (d' & Hd' & ->). cbn [fst snd].
    split; [| by exists d'].
    apply (for_each_invariant _ (extends Q start.1)); [exact Hext |].
    intros f e1 Hf%elem_of_seqZ H1.
    apply (for_each_invariant _ (extends Q start.1)); [exact H1 |].
    intros dsr e2 Hdsr%elem_of_seqZ H2. eapply extends_trans; [exact H2 |].
    apply unpack_vlp16_reading_extends; [done |]. intros _.
    pose proof (rotations_ok_at pkt b Hrot) as Hr.
    destruct (azimuth_corrected_spec K _ d' (t_beam K dsr f) Hr Hd'
                (Ht f dsr ltac:(lia) ltac:(lia)) HT) as (z & _ & _ & Haz).
    pose proof (Z.mod_pos_bound z 36000 ltac:(lia)) as Hz.
    pose proof (vlp16_col_range K (is_dual_return K pkt) P p b f
                  ltac:(lia) ltac:(lia) ltac:(lia) HBe Hfit) as Hc.
    fold w in Hc.
    pose proof (Hring dsr) as Hrg. fold num in Hrg.
    subst Q. cbn. rewrite Haz.
    rewrite !andb_true_iff, !Z.leb_le, !Z.ltb_lt. fold num. lia. }
  destruct Hfin as [Hext _].
  apply (in_bounds_forallb w num start.1); try done.
  subst start. cbn. unfold prepare_cloud. cbn. fold num. apply uint32_small. lia.
Qed.

(** C10, as the code has it. When every block carries a rotation code
    in [0, 36000) and the calibration gives every laser a ring in
    [0, num_lasers), every table lookup of [unpack] uses an index in
    [0, 36000) and every [pc.at(col, row)] has [col < width] and
    [row < height], provided the number of lasers of a legacy calibration
    divides the number of readings of a packet (as 32 and 64 do), the
    timing constants of the 16-beam layout are sane, and the scan is small
    enough for the 32-bit width and column. *)
Theorem unpack_in_bounds (K : Constants) (rd : RawData) (scan : VelodyneScan)
    (pc : VPointCloud) :
  let num := num_lasers (calibration_ rd) in
  let P := Z.of_nat (length (packets scan)) in
  let r := unpack K rd scan pc in
  0 < num < 2 ^ 31 -> rings_ok rd -> Forall rotations_ok (packets scan) ->
  0 <= BLOCKS_PER_PACKET K -> BLOCKS_PER_PACKET K mod 2 = 0 ->
  0 <= SCANS_PER_BLOCK K -> 0 <= VLP16_FIRINGS_PER_BLOCK K ->
  timing_ok K = true ->
  (num <> 16 -> SCANS_PER_PACKET K mod num = 0) ->
  P * SCANS_PER_PACKET K < 2 ^ 31 ->
  P * BLOCKS_PER_PACKET K * VLP16_FIRINGS_PER_BLOCK K < 2 ^ 31 ->
  forallb (in_bounds (width (cloud r.2)) (height (cloud r.2))) (trace r.2) = true.
Proof.
  intros num P r Hnum Hring Hrot HB HBe HS HF Htime Hdiv Hfit Hfit16. subst r.
  unfold unpack. fold num. destruct (Z.eqb_spec num 16) as [E | Hne]; cbn [fst snd].
  - by apply unpack_vlp16_in_bounds.
  - assert (2 ^ 31 < 2 ^ 32) by (apply Z.pow_lt_mono_r; lia).
    apply unpack_legacy_in_bounds; try done; [by apply Hdiv | fold P; lia].
Qed.

(** C10 fails as stated: a calibration of forty lasers with rings 0 to
    39 and rotation codes below 36000 makes the legacy decoder address
    column 9 of a cloud of width 9. *)
Lemma unpack_column_out_of_bounds :
  let r := unpack velodyne_constants rd40 scan32 empty_cloud in
  width (cloud r.2) = 9
  /\ forallb (in_bounds (width (cloud r.2)) (height (cloud r.2))) (trace r.2) = false
  /\ existsb (fun ev => match ev with CloudAt 9 _ => true | _ => false end) (trace r.2) = true.
Proof. vm_compute. repeat split. Qed.

Lemma demo_rotations_ok (h : Z -> Z) (d ret : Z) : rotations_ok (demo_packet h d ret).
Proof. unfold rotations_ok. cbn. repeat (constructor; [cbn; lia |]). constructor. Qed.

Lemma demo_rings_ok (n : Z) (c : Config) (tf : option TransformListener) :
  0 < n -> rings_ok (demo_rd n c tf).
Proof. intros Hn l. cbn. apply Z.mod_pos_bound. lia. Qed.

Lemma unpack_in_bounds_witness :
  forallb (in_bounds 6 64) (trace (unpack velodyne_constants rd64 scan64 empty_cloud).2) = true
  /\ forallb (in_bounds 24 16) (trace (unpack velodyne_constants rd16 scan16 empty_cloud).2)
     = true.
Proof.
  split.
  - refine (eq_trans _ (unpack_in_bounds velodyne_constants rd64 scan64 empty_cloud
                          _ _ _ _ _ _ _ _ _ _ _)).
    + by_computation.
    + by_computation.
    + apply demo_rings_ok. lia.
    + constructor; [apply demo_rotations_ok | constructor].
    + by_computation.
    + reflexivity.
    + by_computation.
    + by_computation.
    + by_computation.
    + intros _. reflexivity.
    + by_computation.
    + by_computation.
  - refine (eq_trans _ (unpack_in_bounds velodyne_constants rd16 scan16 empty_cloud
                          _ _ _ _ _ _ _ _ _ _ _)).
    + by_computation.
    + by_computation.
    + apply demo_rings_ok. lia.
    + constructor; [apply demo_rotations_ok | constructor].
    + by_computation.
    + reflexivity.
    + by_computation.
    + by_computation.
    + by_computation.
    + intros Hne. exfalso. apply Hne. reflexivity.
    + by_computation.
    + by_computation.
Defined.

(** ** What a failed transform leaves in the cell *)

(** The legacy decoder: the ring and the intensity are stored, the
    position is not. *)
Lemma store_point_transform_failure (rd : RawData) (scan : VelodyneScan)
    (pkt : VelodynePacket) (col row : Z) (c : LaserCorrection) (p : reading) (e : env)
    (idx : nat) (tf : TransformListener) :
  tf_listener_ rd = Some tf ->
  string_empty (frame_id (config_ rd)) = false ->
  (forall t_point, transformPoint tf (pc_frame_id (cloud e)) t_point = None) ->
  pointInRange rd (distance p) = true ->
  at_index (cloud e) col row = Some idx ->
  store_point rd scan pkt col row c p e
  = (Next,
     {| cloud := with_points
                   (alter (set_intensity (intensity_ p) ∘ set_ring (laser_ring c)) idx
                      (points (cloud e)))
                   (cloud e);
        trace := trace e ++ [CloudAt col row; CloudAt col row; WarnTransform] |}).
Proof.
  intros Htf Hframe Hfail Hrange Hat. unfold store_point.
  rewrite (cloud_update_Some col row _ _ idx Hat). cbn [and_then].
  rewrite Hrange. cbn [negb].
  rewrite (cloud_update_Some col row _ _ idx)
    by (cbn [cloud]; by rewrite at_index_alter).
  cbn [and_then cloud trace]. unfold store_coordinates. rewrite Htf, Hframe.
  cbn [cloud pc_frame_id with_points]. rewrite Hfail. unfold emit. cbn [cloud trace].
  cbn [points with_points]. rewrite list_alter_alter_eq, <- !app_assoc. done.
Qed.

(** The 16-beam decoder: the NaN point with the ring, intensity 0. *)
Lemma store_vlp16_point_transform_failure (rd : RawData) (scan : VelodyneScan)
    (pkt : VelodynePacket) (offset : spec_float) (col row : Z) (point : VPoint)
    (p : reading) (e : env) (idx : nat) (tf : TransformListener) :
  tf_listener_ rd = Some tf ->
  string_empty (frame_id (config_ rd)) = false ->
  (forall target stamp t_point fixed,
     transformPoint_fixed tf target stamp t_point fixed = None) ->
  pointInRange rd (distance p) = true ->
  at_index (cloud e) col row = Some idx ->
  store_vlp16_point rd scan pkt offset col row point p e
  = (Next,
     {| cloud := with_points (alter (fun _ => point) idx (points (cloud e))) (cloud e);
        trace := trace e ++ [CloudAt col row; WarnTransform] |}).
Proof.
  intros Htf Hframe Hfail Hrange Hat. unfold store_vlp16_point.
  rewrite (cloud_update_Some col row _ _ idx Hat). cbn [and_then].
  rewrite Hrange, Htf, Hframe, Hfail. cbn [negb]. unfold emit. cbn [cloud trace].
  by rewrite <- !app_assoc.
Qed.
(** ** Whole scans: loops that run to their end *)

(** A loop whose bodies all end in a way [C] accepts, [Next] included,
    ends in such a way, and keeps an invariant of the bodies. *)
Lemma for_each_ctl {A T : Type} (C : ctl -> Prop) (body : A -> T -> ctl * T)
    (I : T -> Prop) (xs : list A) (s : T) :
  C Next -> I s ->
  (forall a s, a ∈ xs -> I s -> C (body a s).1 /\ I (body a s).2) ->
  C (for_each body xs s).1 /\ I (for_each body xs s).2.
Proof.
  intros HC. revert s. induction xs as [| a xs IH]; intros s H0 Hstep; [done |].
  cbn [for_each].
  destruct (Hstep a s) as [Hc Hi]; [apply elem_of_cons; by left | done |].
  destruct (body a s) as [[] s1]; try done.
  apply IH; [done |]. intros b s0 Hb. apply Hstep. apply elem_of_cons. by right.
Qed.

Lemma for_each_from_ctl {A T : Type} (C : ctl -> Prop) (body : Z -> A -> T -> ctl * T)
    (I : T -> Prop) (xs : list A) (i0 : Z) (s : T) :
  C Next -> I s ->
  (forall i a s, i0 <= i < i0 + Z.of_nat (length xs) -> a ∈ xs -> I s ->
                 C (body i a s).1 /\ I (body i a s).2) ->
  C (for_each_from body i0 xs s).1 /\ I (for_each_from body i0 xs s).2.
Proof.
  intros HC. revert i0 s. induction xs as [| a xs IH]; intros i0 s H0 Hstep; [done |].
  cbn [for_each_from].
  destruct (Hstep i0 a s) as [Hc Hi];
    [cbn [length]; lia | apply elem_of_cons; by left | done |].
  destruct (body i0 a s) as [[] s1]; try done.
  apply IH; [done |]. intros i b s0 Hi' Hb. apply Hstep; [cbn [length]; lia |].
  apply elem_of_cons. by right.
Qed.

(** The same with an invariant that counts the bodies executed. *)
Lemma for_each_counted_ctl {A T : Type} (C : ctl -> Prop) (body : A -> T -> ctl * T)
    (I : nat -> T -> Prop) (xs : list A) (k0 : nat) (s : T) :
  C Next -> I k0 s ->
  (forall k a s, xs !! k = Some a -> I (k0 + k)%nat s ->
                 C (body a s).1 /\ I (S (k0 + k)%nat) (body a s).2) ->
  C (for_each body xs s).1
  /\ exists k, (k <= length xs)%nat /\ I (k0 + k)%nat (for_each body xs s).2.
Proof.
  intros HC. revert k0 s. induction xs as [| a xs IH]; intros k0 s H0 Hstep.
  - split; [done |]. exists 0%nat. by rewrite Nat.add_0_r.
  - cbn [for_each].
    destruct (Hstep 0%nat a s) as [Hc Hi]; [done | by rewrite Nat.add_0_r |].
    rewrite Nat.add_0_r in Hi.
    destruct (body a s) as [[] s1]; cbn [fst snd] in *.
    2-4: split; [done |]; exists 1%nat; split; [cbn; lia |];
         by replace (k0 + 1)%nat with (S k0) by lia.
    destruct (IH (S k0) s1 Hi) as [Hc' (k & Hk & Hik)].
    { intros k b s0 Hb. replace (S k0 + k)%nat with (k0 + S k)%nat by lia.
      by apply Hstep. }
    split; [done |]. exists (S k). split; [cbn; lia |].
    by replace (k0 + S k)%nat with (S k0 + k)%nat by lia.
Qed.

(** ** Cells of a grid *)

Lemma same_header_refl (pc : VPointCloud) : same_header pc pc.
Proof. done. Qed.

Lemma same_header_trans (pc1 pc2 pc3 : VPointCloud) :
  same_header pc1 pc2 -> same_header pc2 pc3 -> same_header pc1 pc3.
Proof. unfold same_header. intros (? & ? & ? & ? & ?) (? & ? & ? & ? & ?). repeat split; congruence. Qed.

Lemma same_header_grid (w h : Z) (pc pc' : VPointCloud) :
  same_header pc pc' -> grid w h pc -> grid w h pc'.
Proof. unfold same_header, grid. intros (_ & _ & -> & -> & ->). done. Qed.

Lemma at_index_grid (w h : Z) (pc : VPointCloud) (col row : Z) :
  grid w h pc -> 1 < h -> w * h < 2 ^ 32 ->
  0 <= col < w -> 0 <= row < h ->
  at_index pc col row = Some (Z.to_nat (row * w + col)).
Proof.
  intros (Hw & Hh & Hl) H1 Hfit Hc Hr. unfold at_index. rewrite Hw, Hh, Hl.
  assert (row * w + col < w * h) by nia.
  assert (w <= w * h) by nia. assert (h <= w * h) by nia.
  destruct (1 <? h) eqn:E; [| apply Z.ltb_ge in E; lia].
  rewrite (uint32_small row), (uint32_small col) by lia.
  rewrite uint32_small by nia.
  destruct (row * w + col <? w * h) eqn:E2; [done | apply Z.ltb_ge in E2; lia].
Qed.

Lemma cell_row_at (w col row : Z) :
  0 <= col < w -> 0 <= row -> cell_row w (Z.to_nat (row * w + col)) = row.
Proof.
  intros Hc Hr. unfold cell_row. rewrite Z2Nat.id by nia.
  rewrite Z.add_comm, Z.div_add by lia. rewrite Z.div_small by lia. lia.
Qed.

(** What the stores of one reading do to the header of the cloud. *)
Lemma cell_effect_header (pre : list event) (col row rng : Z) (e : env) (r : ctl * env) :
  cell_effect pre col row rng e r -> same_header (cloud e) (cloud r.2).
Proof.
  intros [_ (evs & _ & _ & Hc)].
  destruct (at_index (cloud e) col row) as [idx |].
  - destruct Hc as (g & -> & _). unfold same_header. cbn. by rewrite length_alter.
  - by rewrite Hc.
Qed.

(** The stores of a reading aimed at a cell of the grid find the cell, and
    leave in it a point with the ring of its row. *)
Lemma cell_effect_grid (w num : Z) (pre : list event) (col rng : Z) (e : env)
    (r : ctl * env) :
  cell_effect pre col (num - 1 - rng) rng e r ->
  grid w num (cloud e) -> 1 < num -> w * num < 2 ^ 32 ->
  0 <= col < w -> 0 <= rng < num ->
  r.1 = Next
  /\ forall k p, points (cloud r.2) !! k = Some p ->
       points (cloud e) !! k = Some p \/ ring p = num - 1 - cell_row w k.
Proof.
  intros [Hctl (evs & _ & _ & Hc)] Hg H1 Hfit Hcol Hrng.
  rewrite (at_index_grid w num) in Hctl, Hc by (done || lia).
  split; [done |]. destruct Hc as (g & -> & Hring). cbn.
  intros k p Hk.
  destruct (decide (k = Z.to_nat ((num - 1 - rng) * w + col))) as [-> | Hne].
  - right. rewrite list_lookup_alter_eq in Hk.
    destruct (points (cloud e) !! _); [| done]. injection Hk as <-.
    rewrite Hring, cell_row_at by lia. lia.
  - left. by rewrite list_lookup_alter_ne in Hk.
Qed.

Lemma rows_by_ring_refl (num : Z) (pc : VPointCloud) : rows_by_ring num pc pc.
Proof. intros k p Hk. by left. Qed.

Lemma rows_by_ring_step (num : Z) (pc0 pc pc' : VPointCloud) :
  rows_by_ring num pc0 pc ->
  (forall k p, points pc' !! k = Some p ->
     points pc !! k = Some p \/ ring p = num - 1 - cell_row (width pc0) k) ->
  rows_by_ring num pc0 pc'.
Proof.
  intros H0 H1 k p Hk. destruct (H1 k p Hk) as [Hold | Hnew]; [by apply H0 | by right].
Qed.
(** ** The cloud a scan leaves *)

Lemma prepare_cloud_grid (rd : RawData) (scan : VelodyneScan) (w : Z) (pc : VPointCloud) :
  let num := num_lasers (calibration_ rd) in
  0 <= num < 2 ^ 32 -> 0 <= w -> w * num < 2 ^ 32 ->
  grid w num (prepare_cloud rd scan w pc).
Proof.
  intros num Hnum Hw Hfit. unfold grid, prepare_cloud. cbn. fold num.
  rewrite (uint32_small num) by lia. repeat split.
  rewrite length_resize, uint32_small by nia. apply Z2Nat.id. nia.
Qed.

(** One reading of either decoder keeps the header of the cloud. *)
Lemma reading_step_header (K : Constants) (rd : RawData) (scan : VelodyneScan)
    (r : VelodynePacket * (Z * Z)) (s : env * Z) :
  num_lasers (calibration_ rd) <> 0 ->
  same_header (cloud s.1) (cloud (reading_step K rd scan r s).2.1).
Proof.
  intros Hnum. destruct s as [e n]. unfold reading_step.
  pose proof (unpack_reading_effect K rd scan r.1 r.2.1 r.2.2 e n Hnum) as H.
  cbv zeta in H. destruct (in_angle_window rd _).
  - destruct H as [_ H]. by apply cell_effect_header in H.
  - by rewrite H.
Qed.

Lemma unpack_vlp16_reading_header (K : Constants) (rd : RawData) (scan : VelodyneScan)
    (packet : Z) (pkt : VelodynePacket) (dual_return : bool) (block : Z)
    (azimuth azimuth_diff : spec_float) (firing dsr : Z) (e : env) :
  same_header (cloud e)
    (cloud (unpack_vlp16_reading K rd scan packet pkt dual_return block azimuth
              azimuth_diff firing dsr e).2).
Proof.
  destruct (unpack_vlp16_reading_effect K rd scan packet pkt dual_return block azimuth
              azimuth_diff firing dsr e) as (offset & H).
  destruct (in_angle_window_vlp16 rd _).
  - by apply cell_effect_header in H.
  - by rewrite H.
Qed.

Lemma unpack_legacy_header (K : Constants) (rd : RawData) (scan : VelodyneScan)
    (pc : VPointCloud) :
  uint64 (num_lasers (calibration_ rd)) <> 0 ->
  same_header (cloud (legacy_start K rd scan pc).1) (cloud (unpack_legacy K rd scan pc).2.1).
Proof.
  intros Hnum. rewrite unpack_legacy_fold by done.
  assert (Hnz : num_lasers (calibration_ rd) <> 0) by (by intros E; rewrite E in Hnum).
  apply (for_each_invariant _
           (fun s => same_header (cloud (legacy_start K rd scan pc).1) (cloud s.1)));
    [done |].
  intros r s _ Hs. eapply same_header_trans; [exact Hs |].
  by apply reading_step_header.
Qed.

Lemma unpack_vlp16_header (K : Constants) (rd : RawData) (scan : VelodyneScan)
    (pc : VPointCloud) :
  same_header (cloud (vlp16_start K rd scan pc).1) (cloud (unpack_vlp16 K rd scan pc).2.1).
Proof.
  set (I := fun s : env * spec_float =>
              same_header (cloud (vlp16_start K rd scan pc).1) (cloud s.1)).
  unfold unpack_vlp16. apply (for_each_from_invariant _ I); [done |].
  intros p pkt s _ _ Hs. unfold unpack_vlp16_packet. destruct (negb _); [done |].
  apply (for_each_invariant _ I); [done |].
  intros b [e last] _ He. unfold unpack_vlp16_block.
  destruct (negb _); [done |].
  destruct (block_azimuth_diff _ _ _ _ _) as [d l]. cbn [fst snd]. unfold I. cbn [fst snd].
  apply (for_each_invariant _
           (fun e => same_header (cloud (vlp16_start K rd scan pc).1) (cloud e)));
    [done |].
  intros f e1 _ H1.
  apply (for_each_invariant _
           (fun e => same_header (cloud (vlp16_start K rd scan pc).1) (cloud e)));
    [done |].
  intros dsr e2 _ H2. eapply same_header_trans; [exact H2 |].
  apply unpack_vlp16_reading_header.
Qed.

(** ** Scans of well-formed packets run to their end *)

(** The legacy decoder: every reading finds its cell. *)
Lemma unpack_legacy_run (K : Constants) (rd : RawData) (scan : VelodyneScan)
    (pc : VPointCloud) :
  let num := num_lasers (calibration_ rd) in
  let P := Z.of_nat (length (packets scan)) in
  let r := unpack_legacy K rd scan pc in
  let start := legacy_start K rd scan pc in
  1 < num < 2 ^ 31 -> rings_ok rd ->
  0 <= BLOCKS_PER_PACKET K -> 0 <= SCANS_PER_BLOCK K ->
  SCANS_PER_PACKET K mod num = 0 -> P * SCANS_PER_PACKET K < 2 ^ 32 ->
  r.1 = Next
  /\ grid (P * SCANS_PER_PACKET K / num) num (cloud start.1)
  /\ rows_by_ring num (cloud start.1) (cloud r.2.1).
Proof.
  intros num P r start Hnum Hring HB HS Hdiv Hfit. subst r.
  rewrite unpack_legacy_fold by (fold num; rewrite uint64_small; lia).
  set (T := P * SCANS_PER_PACKET K) in *.
  assert (HT0 : 0 <= T).
  { subst T P. unfold SCANS_PER_PACKET. nia. }
  assert (Hq : T = num * (T / num)).
  { apply Z.div_exact; [lia |]. subst T.
    rewrite <- Z.mul_mod_idemp_r, Hdiv, Z.mul_0_r by lia. apply Z.mod_0_l. lia. }
  set (w := T / num) in *.
  assert (Hw0 : 0 <= w) by (subst w; apply Z.div_pos; lia).
  assert (Hw : legacy_width K rd scan = w).
  { unfold legacy_width. fold num P T. rewrite !uint64_small by lia.
    apply uint32_small. split; [done |]. subst w.
    apply Z.div_lt_upper_bound; nia. }
  assert (Hgrid : grid w num (cloud start.1)).
  { subst start. cbn. rewrite Hw. apply prepare_cloud_grid; fold num; lia. }
  assert (Hw' : width (cloud start.1) = w) by apply Hgrid.
  fold start.
  destruct (for_each_counted_ctl (fun c => c = Next) (reading_step K rd scan)
              (fun k s => same_header (cloud start.1) (cloud s.1)
                          /\ rows_by_ring num (cloud start.1) (cloud s.1)
                          /\ 0 <= s.2 <= Z.of_nat k)
              (scan_readings K scan) 0 start) as (Hc & k & _ & _ & Hrows & _).
  { done. }
  { split; [done |]. split; [apply rows_by_ring_refl | cbn; lia]. }
  { intros k [pkt [i j]] [e n] Hk (Hh & Hrows & Hn). cbn [fst snd plus] in *.
    assert (Hklt : Z.of_nat k < T).
    { apply lookup_lt_Some in Hk. subst T P.
      rewrite <- scan_readings_length by done. lia. }
    unfold reading_step. cbn [fst snd].
    pose proof (unpack_reading_effect K rd scan pkt i j e n ltac:(fold num; lia)) as H.
    cbv zeta in H. fold num in H.
    destruct (in_angle_window rd (rotation (block_at (blocks pkt) i))).
    - destruct H as [Hn' Heff].
      pose proof (cell_effect_header _ _ _ _ _ _ Heff) as Hh'. cbn [snd] in Hh'.
      rewrite Z.quot_div_nonneg in Heff by lia.
      apply (cell_effect_grid w num) in Heff as [Hnext Hcells].
      + cbn [fst snd] in *. split; [done |].
        split; [by eapply same_header_trans |]. split; [| lia].
        eapply rows_by_ring_step; [exact Hrows |]. by rewrite Hw'.
      + by eapply same_header_grid.
      + lia.
      + lia.
      + split; [apply Z.div_pos; lia | apply Z.div_lt_upper_bound; lia].
      + apply Hring.
    - rewrite H. cbn. split; [done |]. split; [done |]. split; [done | lia]. }
  split; [done | split; done].
Qed.

(** The 16-beam decoder: every beam finds its cell; the scan ends early
    only at a block with a wrong marker. *)
Lemma unpack_vlp16_run (K : Constants) (rd : RawData) (scan : VelodyneScan)
    (pc : VPointCloud) :
  let num := num_lasers (calibration_ rd) in
  let P := Z.of_nat (length (packets scan)) in
  let w := P * BLOCKS_PER_PACKET K * VLP16_FIRINGS_PER_BLOCK K in
  let r := unpack_vlp16 K rd scan pc in
  let start := vlp16_start K rd scan pc in
  1 < num < 2 ^ 31 -> rings_ok rd ->
  0 <= BLOCKS_PER_PACKET K -> BLOCKS_PER_PACKET K mod 2 = 0 ->
  0 <= VLP16_FIRINGS_PER_BLOCK K ->
  w < 2 ^ 31 -> w * num < 2 ^ 32 ->
  (r.1 = Next
   \/ (r.1 = Returned /\ ~ Forall (headers_ok K) (packets scan))
   \/ (r.1 = Aborted
       /\ ~ Forall (fun pkt => time_asserted K pkt = true) (packets scan)))
  /\ grid w num (cloud start.1)
  /\ rows_by_ring num (cloud start.1) (cloud r.2.1).
Proof.
  intros num P w r start Hnum Hring HB HBe HF Hfit Hfit2. subst r.
  assert (Hw0 : 0 <= w) by (subst w P; nia).
  assert (2 ^ 31 < 2 ^ 32) by (apply Z.pow_lt_mono_r; lia).
  assert (2 ^ 32 < 2 ^ 64) by (apply Z.pow_lt_mono_r; lia).
  assert (Hw : vlp16_width K scan = w).
  { unfold vlp16_width. fold P w. rewrite uint64_small by lia. apply uint32_small. lia. }
  assert (Hgrid : grid w num (cloud start.1)).
  { subst start. cbn. rewrite Hw. apply prepare_cloud_grid; fold num; lia. }
  assert (Hw' : width (cloud start.1) = w) by apply Hgrid.
  set (Inv := fun e : env => same_header (cloud start.1) (cloud e)
                             /\ rows_by_ring num (cloud start.1) (cloud e)).
  set (C := fun c =>
         c = Next
         \/ (c = Returned /\ ~ Forall (headers_ok K) (packets scan))
         \/ (c = Aborted
             /\ ~ Forall (fun pkt => time_asserted K pkt = true) (packets scan))).
  enough (Hrun : C (unpack_vlp16 K rd scan pc).1
                 /\ Inv (unpack_vlp16 K rd scan pc).2.1).
  { destruct Hrun as [Hc [_ Hrows]]. done. }
  unfold unpack_vlp16. fold start.
  apply (for_each_from_ctl C _ (fun s => Inv s.1)).
  { by left. }
  { split; [done | apply rows_by_ring_refl]. }
  intros p pkt s Hp Hpkt Hs. rewrite Z.add_0_l in Hp. fold P in Hp.
  unfold unpack_vlp16_packet. fold (time_asserted K pkt).
  destruct (time_asserted K pkt) eqn:Etime; cbn [negb].
  2: { split; [| done]. right. right. split; [done |]. intros Hall.
       rewrite Forall_forall in Hall. specialize (Hall pkt Hpkt). cbn in Hall.
       congruence. }
  set (Cp := fun c => c = Next \/ (c = Returned /\ ~ headers_ok K pkt)).
  enough (Hblocks : forall l, (forall b, b ∈ l -> 0 <= b < BLOCKS_PER_PACKET K) ->
            let rp := for_each
                        (unpack_vlp16_block K rd scan p pkt (is_dual_return K pkt)
                           (1 + (if is_dual_return K pkt then 1 else 0))) l s in
            Cp rp.1 /\ Inv rp.2.1).
  { destruct (Hblocks (seqZ 0 (BLOCKS_PER_PACKET K))) as [Hc Hi].
    { intros b Hb%elem_of_seqZ. lia. }
    split; [| done]. destruct Hc as [Hc | [Hc Hbad]]; [by left |].
    right. left. split; [done |]. intros Hall. apply Hbad.
    rewrite Forall_forall in Hall. by apply Hall. }
  intros l Hl. apply (for_each_ctl Cp _ (fun s => Inv s.1)); [by left | done |].
  intros b [e last] Hb He. specialize (Hl b Hb). cbn [fst snd] in He.
  unfold unpack_vlp16_block.
  destruct (Z.eqb_spec (UPPER_BANK K) (header (block_at (blocks pkt) b))) as [Ehd | Ehd];
    cbn [negb].
  2: { cbn [fst snd]. split; [| done]. right. split; [done |].
       intros Hall. apply Ehd. symmetry. by apply Hall. }
  destruct (block_azimuth_diff _ _ _ _ _) as [d l']. cbn [fst snd].
  enough (Hbeams : (for_each
             (fun firing =>
                for_each
                  (unpack_vlp16_reading K rd scan p pkt (is_dual_return K pkt) b
                     (Single.of_int (rotation (block_at (blocks pkt) b))) d firing)
                  (seqZ 0 (VLP16_SCANS_PER_FIRING K)))
             (seqZ 0 (VLP16_FIRINGS_PER_BLOCK K)) e).1 = Next
           /\ Inv (for_each
             (fun firing =>
                for_each
                  (unpack_vlp16_reading K rd scan p pkt (is_dual_return K pkt) b
                     (Single.of_int (rotation (block_at (blocks pkt) b))) d firing)
                  (seqZ 0 (VLP16_SCANS_PER_FIRING K)))
             (seqZ 0 (VLP16_FIRINGS_PER_BLOCK K)) e).2).
  { destruct Hbeams as [Hc Hi]. split; [by left | done]. }
  apply (for_each_ctl (fun c => c = Next) _ Inv); [done | done |].
  intros f e1 Hf%elem_of_seqZ H1.
  apply (for_each_ctl (fun c => c = Next) _ Inv); [done | done |].
  intros dsr e2 _ [Hh Hrows].
  destruct (unpack_vlp16_reading_effect K rd scan p pkt (is_dual_return K pkt) b
              (Single.of_int (rotation (block_at (blocks pkt) b))) d f dsr e2)
    as (offset & Heff).
  destruct (in_angle_window_vlp16 rd _).
  - pose proof (cell_effect_header _ _ _ _ _ _ Heff) as Hh'.
    fold num in Heff.
    apply (cell_effect_grid w num) in Heff as [Hnext Hcells].
    + split; [done |]. split; [by eapply same_header_trans |].
      eapply rows_by_ring_step; [exact Hrows |]. by rewrite Hw'.
    + by eapply same_header_grid.
    + lia.
    + lia.
    + apply (vlp16_col_range K (is_dual_return K pkt) P p b f); (lia || done).
    + apply Hring.
  - rewrite Heff. cbn. done.
Qed.
(** ** Properties of whole scans *)

(** X1. However [unpack] ends - at the end of the scan, at a block with
    a wrong marker, with an exception of [pc.at] or a failed assertion - the
    cloud carries the stamp of the scan and the output frame (the frame of
    the scan, or the target frame when a listener and a target frame are
    set), has the width computed from the number of packets, one row per
    laser of the calibration, and width times height points (in 32-bit
    arithmetic). The number of lasers must not be zero: the legacy width
    divides by it. *)
Theorem unpack_cloud_shape (K : Constants) (rd : RawData) (scan : VelodyneScan)
    (pc : VPointCloud) :
  let num := num_lasers (calibration_ rd) in
  let r := unpack K rd scan pc in
  let w := if num =? 16 then vlp16_width K scan else legacy_width K rd scan in
  uint64 num <> 0 ->
  pc_stamp (cloud r.2) = scan_stamp scan
  /\ pc_frame_id (cloud r.2) = output_frame rd scan
  /\ width (cloud r.2) = w
  /\ height (cloud r.2) = uint32 num
  /\ Z.of_nat (length (points (cloud r.2))) = uint32 (w * uint32 num).
Proof.
  intros num r w Hnum. subst r w. unfold unpack. fold num.
  destruct (num =? 16); cbn [fst snd].
  - destruct (unpack_vlp16_header K rd scan pc) as (-> & -> & -> & -> & ->).
    cbn. fold num. repeat split. rewrite length_resize. apply Z2Nat.id.
    apply Z.mod_pos_bound. lia.
  - destruct (unpack_legacy_header K rd scan pc Hnum) as (-> & -> & -> & -> & ->).
    cbn. fold num. repeat split. rewrite length_resize. apply Z2Nat.id.
    apply Z.mod_pos_bound. lia.
Qed.

Lemma unpack_cloud_shape_witness :
  let r := unpack velodyne_constants rd64 scan64 empty_cloud in
  pc_frame_id (cloud r.2) = "velodyne"
  /\ width (cloud r.2) = 6 /\ height (cloud r.2) = 64
  /\ length (points (cloud r.2)) = 384%nat.
Proof.
  destruct (unpack_cloud_shape velodyne_constants rd64 scan64 empty_cloud)
    as (_ & Hf & Hw & Hh & Hl).
  - by_computation.
  - cbv zeta. rewrite Hf, Hw, Hh.
    split; [reflexivity |]. split; [reflexivity |]. split; [reflexivity |].
    apply Nat2Z.inj. rewrite Hl. reflexivity.
Defined.

Lemma lookup_prepared (rd : RawData) (scan : VelodyneScan) (w : Z) (pc : VPointCloud)
    (k : nat) (p : VPoint) :
  points (prepare_cloud rd scan w pc) !! k = Some p ->
  points pc !! k = Some p \/ p = nanPoint.
Proof.
  cbn. intros Hk. pose proof (lookup_lt_Some _ _ _ Hk) as Hlt.
  rewrite length_resize in Hlt.
  destruct (decide (k < length (points pc))%nat) as [Hold | Hnew].
  - left. by rewrite lookup_resize in Hk.
  - right. rewrite lookup_resize_new in Hk by lia. by injection Hk.
Qed.

(** X2. The ring of a point tells its row. When the calibration gives
    every laser a ring in [0, num_lasers), after [unpack] - however it ends
    - every cell of the cloud holds either what the caller's cloud held at
    that position, or the NaN point the grid was filled with, or a point
    whose ring [r] sits in row [num_lasers - 1 - r]. The scan must fit the
    32-bit dimensions, and for a legacy calibration the number of lasers
    must divide the readings of a packet. *)
Theorem unpack_rows_by_ring (K : Constants) (rd : RawData) (scan : VelodyneScan)
    (pc : VPointCloud) (k : nat) (p : VPoint) :
  let num := num_lasers (calibration_ rd) in
  let P := Z.of_nat (length (packets scan)) in
  let r := unpack K rd scan pc in
  1 < num < 2 ^ 31 -> rings_ok rd ->
  0 <= BLOCKS_PER_PACKET K -> 0 <= SCANS_PER_BLOCK K -> 0 <= VLP16_FIRINGS_PER_BLOCK K ->
  (num <> 16 -> SCANS_PER_PACKET K mod num = 0 /\ P * SCANS_PER_PACKET K < 2 ^ 32) ->
  (num = 16 -> BLOCKS_PER_PACKET K mod 2 = 0
               /\ P * BLOCKS_PER_PACKET K * VLP16_FIRINGS_PER_BLOCK K < 2 ^ 28) ->
  points (cloud r.2) !! k = Some p ->
  points pc !! k = Some p
  \/ p = nanPoint
  \/ ring p = num - 1 - Z.of_nat k / width (cloud r.2).
Proof.
  intros num P r Hnum Hring HB HS HF Hleg H16 Hk. subst r.
  unfold unpack in *. fold num in Hk |- *.
  destruct (Z.eqb_spec num 16) as [E | Hne]; cbn [fst snd] in *.
  - destruct (H16 E) as [HBe Hfit].
    destruct (unpack_vlp16_run K rd scan pc) as (_ & Hg & Hrows); try done.
    { fold P. lia. }
    { fold P num. rewrite E. lia. }
    destruct (unpack_vlp16_header K rd scan pc) as (_ & _ & -> & _).
    destruct (Hrows k p Hk) as [Hold | Hnew].
    + apply lookup_prepared in Hold. tauto.
    + right. right. exact Hnew.
  - destruct (Hleg Hne) as [Hdiv Hfit].
    destruct (unpack_legacy_run K rd scan pc) as (_ & Hg & Hrows); try done.
    destruct (unpack_legacy_header K rd scan pc) as (_ & _ & -> & _).
    { fold num. rewrite uint64_small; lia. }
    destruct (Hrows k p Hk) as [Hold | Hnew].
    + apply lookup_prepared in Hold. tauto.
    + right. right. exact Hnew.
Qed.

Lemma unpack_rows_by_ring_witness :
  exists p,
    points (cloud (unpack velodyne_constants rd64 scan64 empty_cloud).2) !! 378%nat = Some p
    /\ (points empty_cloud !! 378%nat = Some p
        \/ p = nanPoint
        \/ ring p = 64 - 1 - 378 / width (cloud (unpack velodyne_constants rd64 scan64
                                                    empty_cloud).2)).
Proof.
  eexists. split; [vm_compute; reflexivity |].
  apply (unpack_rows_by_ring velodyne_constants rd64 scan64 empty_cloud 378).
  - by_computation.
  - apply demo_rings_ok. lia.
  - by_computation.
  - by_computation.
  - by_computation.
  - intros _. by_computation.
  - intros E. exfalso. revert E. by_computation.
  - vm_compute. reflexivity.
Defined.

(** X3. The legacy decoder runs to the end of a well-formed scan: when
    the calibration has more than one laser, gives every laser a ring in
    [0, num_lasers) and its number of lasers divides the readings of a
    packet, no [pc.at] throws and [unpack] returns normally. The counter of
    points then equals the number of readings that passed the angle gate, and
    never exceeds the number of cells, width times height. *)
Theorem unpack_legacy_completes (K : Constants) (rd : RawData) (scan : VelodyneScan)
    (pc : VPointCloud) :
  let num := num_lasers (calibration_ rd) in
  let P := Z.of_nat (length (packets scan)) in
  let r := unpack_legacy K rd scan pc in
  1 < num < 2 ^ 31 -> num <> 16 -> rings_ok rd ->
  0 <= BLOCKS_PER_PACKET K -> 0 <= SCANS_PER_BLOCK K ->
  SCANS_PER_PACKET K mod num = 0 -> P * SCANS_PER_PACKET K < 2 ^ 32 ->
  unpack K rd scan pc = (Next, r.2.1)
  /\ r.2.2 = Z.of_nat (length (List.filter (passes_gate rd) (scan_readings K scan)))
  /\ r.2.2 <= width (cloud r.2.1) * height (cloud r.2.1).
Proof.
  intros num P r Hnum H16 Hring HB HS Hdiv Hfit.
  destruct (unpack_legacy_run K rd scan pc) as (Hnext & Hg & _); try done.
  fold r in Hnext.
  assert (Hu : uint64 num <> 0) by (rewrite uint64_small; lia).
  assert (Hcount : r.2.2
                   = Z.of_nat (length (List.filter (passes_gate rd) (scan_readings K scan)))).
  { subst r. rewrite unpack_legacy_fold in Hnext |- * by done.
    destruct (for_each _ _ _) as [c [e n]] eqn:Erun. cbn in Hnext. subst c.
    apply for_each_reading_counter in Erun; [| fold num; lia]. cbn. lia. }
  split; [| split; [done |]].
  - unfold unpack. fold num. destruct (Z.eqb_spec num 16) as [| _]; [done |].
    fold r. by rewrite Hnext.
  - destruct (unpack_legacy_header K rd scan pc Hu) as (_ & _ & Hw & Hh & _).
    fold r in Hw, Hh. rewrite Hw, Hh. destruct Hg as (-> & -> & _).
    rewrite Hcount.
    pose proof (List.filter_length_le (passes_gate rd) (scan_readings K scan)) as Hle.
    pose proof (scan_readings_length K scan HB HS) as Hlen. fold P in Hlen.
    fold P num.
    assert (HT0 : 0 <= P * SCANS_PER_PACKET K).
    { subst P. unfold SCANS_PER_PACKET. nia. }
    assert (Hq : P * SCANS_PER_PACKET K = num * (P * SCANS_PER_PACKET K / num)).
    { apply Z.div_exact; [lia |].
      rewrite <- Z.mul_mod_idemp_r, Hdiv, Z.mul_0_r by lia. apply Z.mod_0_l. lia. }
    lia.
Qed.

Lemma unpack_legacy_completes_witness :
  (unpack velodyne_constants rd64 scan64 empty_cloud).1 = Next
  /\ (unpack_legacy velodyne_constants rd64 scan64 empty_cloud).2.2 = 384.
Proof.
  destruct (unpack_legacy_completes velodyne_constants rd64 scan64 empty_cloud)
    as (Hrun & Hcount & _).
  - by_computation.
  - by_computation.
  - apply demo_rings_ok. lia.
  - by_computation.
  - by_computation.
  - reflexivity.
  - by_computation.
  - split; [by rewrite Hrun |]. rewrite Hcount. vm_compute. reflexivity.
Defined.

(** X4. The 16-beam decoder never lets an exception of [pc.at] escape:
    with sixteen lasers on rings 0 to 15, an even number of blocks per packet
    and a scan that fits the 32-bit dimensions, every beam finds its cell.
    [unpack] stops the process only where the assertion on the packet time
    fails, returns before the end of the scan only at a block whose marker is
    not [UPPER_BANK], and otherwise runs to the end. *)
Theorem unpack_vlp16_completes (K : Constants) (rd : RawData) (scan : VelodyneScan)
    (pc : VPointCloud) :
  let num := num_lasers (calibration_ rd) in
  let P := Z.of_nat (length (packets scan)) in
  let r := unpack K rd scan pc in
  num = 16 -> rings_ok rd ->
  0 <= BLOCKS_PER_PACKET K -> BLOCKS_PER_PACKET K mod 2 = 0 ->
  0 <= VLP16_FIRINGS_PER_BLOCK K ->
  P * BLOCKS_PER_PACKET K * VLP16_FIRINGS_PER_BLOCK K < 2 ^ 28 ->
  r.1 <> Thrown
  /\ (r.1 = Aborted -> ~ Forall (fun pkt => time_asserted K pkt = true) (packets scan))
  /\ (r.1 = Returned -> ~ Forall (headers_ok K) (packets scan))
  /\ (Forall (fun pkt => time_asserted K pkt = true) (packets scan) ->
      Forall (headers_ok K) (packets scan) -> r.1 = Next).
Proof.
  intros num P r E Hring HB HBe HF Hfit. subst r. unfold unpack. fold num.
  rewrite E. cbn [Z.eqb Pos.eqb fst snd].
  destruct (unpack_vlp16_run K rd scan pc) as (Hc & _); try done.
  { fold num. lia. }
  { fold P. lia. }
  { fold P num. rewrite E. lia. }
  destruct Hc as [-> | [[-> Hbad] | [-> Hbad]]].
  all: repeat split; try done.
Qed.

Lemma unpack_vlp16_completes_witness :
  (unpack velodyne_constants rd16 scan16 empty_cloud).1 = Next
  /\ (unpack velodyne_constants rd16 bad_scan16 empty_cloud).1 <> Thrown.
Proof.
  split.
  - apply (unpack_vlp16_completes velodyne_constants rd16 scan16 empty_cloud).
    + reflexivity.
    + apply demo_rings_ok. lia.
    + by_computation.
    + reflexivity.
    + by_computation.
    + by_computation.
    + repeat constructor.
    + constructor; [| constructor]. intros b Hb. cbn in Hb.
      assert (Hcases : b = 0 \/ b = 1 \/ b = 2 \/ b = 3 \/ b = 4 \/ b = 5 \/ b = 6
                       \/ b = 7 \/ b = 8 \/ b = 9 \/ b = 10 \/ b = 11) by lia.
      repeat (destruct Hcases as [-> | Hcases]; [reflexivity |]). subst b. reflexivity.
  - apply (unpack_vlp16_completes velodyne_constants rd16 bad_scan16 empty_cloud).
    + reflexivity.
    + apply demo_rings_ok. lia.
    + by_computation.
    + reflexivity.
    + by_computation.
    + by_computation.
Defined.

Lemma for_each_prefix_Next {A T : Type} (body : A -> T -> ctl * T) (l1 l2 : list A)
    (s : T) :
  (for_each body (l1 ++ l2) s).1 = Next ->
  exists s1, for_each body l1 s = (Next, s1).
Proof.
  rewrite for_each_app. destruct (for_each body l1 s) as [[] s1]; try done.
  intros _. by exists s1.
Qed.

Lemma full_window_passes (K : Constants) (rd : RawData) (scan : VelodyneScan)
    (l : list (VelodynePacket * (Z * Z))) :
  min_angle (config_ rd) = 0 -> max_angle (config_ rd) = 36000 ->
  Forall rotations_ok (packets scan) ->
  (forall r, r ∈ l -> r ∈ scan_readings K scan) ->
  List.filter (passes_gate rd) l = l.
Proof.
  intros Hmin Hmax Hrot. induction l as [| r l IH]; intros Hl; [done |].
  cbn [List.filter].
  assert (Hpass : passes_gate rd r = true).
  { destruct r as [pkt [i j]].
    destruct (scan_readings_elem K scan pkt i j) as (Hpkt & _).
    { apply Hl. apply elem_of_cons. by left. }
    rewrite Forall_forall in Hrot.
    pose proof (rotations_ok_at pkt i (Hrot pkt Hpkt)) as Hr.
    unfold passes_gate. cbn [fst snd].
    apply in_angle_window_plain; lia. }
  rewrite Hpass, IH; [done |]. intros r' Hr'. apply Hl. apply elem_of_cons. by right.
Qed.

(** X5. The layout of the legacy grid. With the window fully open
    ([min_angle = 0], [max_angle = 36000], as [setParameters] leaves it for the
    full view) and rotation codes of the circle, reading number [k] of a
    well-formed scan - in the order of packets, blocks and beams - is
    reached, finds its cell and is stored in column [k / num_lasers], row
    [num_lasers - 1 - ring]: every [num_lasers] consecutive readings fill
    one column. *)
Theorem legacy_full_window_layout (K : Constants) (rd : RawData) (scan : VelodyneScan)
    (pc : VPointCloud) (before after : list (VelodynePacket * (Z * Z)))
    (r : VelodynePacket * (Z * Z)) :
  let num := num_lasers (calibration_ rd) in
  let P := Z.of_nat (length (packets scan)) in
  let k := Z.of_nat (length before) in
  let blk := block_at (blocks r.1) r.2.1 in
  let c := reading_corrections K rd blk r.2.2 in
  1 < num < 2 ^ 31 -> rings_ok rd ->
  0 <= BLOCKS_PER_PACKET K -> 0 <= SCANS_PER_BLOCK K ->
  SCANS_PER_PACKET K mod num = 0 -> P * SCANS_PER_PACKET K < 2 ^ 32 ->
  min_angle (config_ rd) = 0 -> max_angle (config_ rd) = 36000 ->
  Forall rotations_ok (packets scan) ->
  scan_readings K scan = before ++ r :: after ->
  exists e,
    for_each (reading_step K rd scan) before (legacy_start K rd scan pc) = (Next, (e, k))
    /\ (reading_step K rd scan r (e, k)).1 = Next
    /\ (reading_step K rd scan r (e, k)).2.2 = k + 1
    /\ cell_effect [TrigLookup (rotation blk)] (k / num) (num - 1 - laser_ring c)
         (laser_ring c) e
         ((reading_step K rd scan r (e, k)).1, (reading_step K rd scan r (e, k)).2.1).
Proof.
  intros num P k blk c Hnum Hring HB HS Hdiv Hfit Hmin Hmax Hrot Hsplit.
  destruct (unpack_legacy_run K rd scan pc) as (Hnext & _); try done.
  rewrite unpack_legacy_fold in Hnext by (fold num; rewrite uint64_small; lia).
  rewrite Hsplit in Hnext.
  replace (before ++ r :: after) with ((before ++ [r]) ++ after) in Hnext
    by (by rewrite <- app_assoc).
  apply for_each_prefix_Next in Hnext as ([e1 n1] & Hrun1).
  pose proof Hrun1 as Hrun.
  assert (Hpre : (for_each (reading_step K rd scan) (before ++ [r])
                    (legacy_start K rd scan pc)).1 = Next) by (by rewrite Hrun1).
  apply for_each_prefix_Next in Hpre as ([e n] & Hrun0).
  assert (Hnz : num <> 0) by lia.
  assert (Hn : n = k).
  { pose proof Hrun0 as Hc. unfold legacy_start in Hc.
    apply (for_each_reading_counter K rd scan before _ e 0 n Hnz) in Hc.
    rewrite (full_window_passes K rd scan before Hmin Hmax Hrot) in Hc;
      [subst k; lia |].
    intros r' Hr'. rewrite Hsplit. apply elem_of_app. by left. }
  subst n. exists e. split; [done |].
  rewrite for_each_app, Hrun0 in Hrun. cbn [for_each] in Hrun.
  assert (Hstep : (reading_step K rd scan r (e, k)).1 = Next).
  { destruct (reading_step K rd scan r (e, k)) as [[] s']; done. }
  split; [done |].
  assert (Hpass : passes_gate rd r = true).
  { pose proof (full_window_passes K rd scan [r] Hmin Hmax Hrot) as Hf.
    cbn [List.filter] in Hf. destruct (passes_gate rd r); [done |].
    discriminate Hf. intros r' ->%list_elem_of_singleton.
    rewrite Hsplit. apply elem_of_app. right. apply elem_of_cons. by left. }
  pose proof (unpack_reading_effect K rd scan r.1 r.2.1 r.2.2 e k Hnz) as H.
  cbv zeta in H. unfold passes_gate in Hpass. rewrite Hpass in H.
  destruct H as [Hcount Heff]. unfold reading_step.
  split; [done |]. rewrite <- (Z.quot_div_nonneg k num) by lia. exact Heff.
Qed.

Lemma legacy_full_window_layout_witness :
  exists e,
    for_each (reading_step velodyne_constants rd64 scan64) (take 70 readings64)
      (legacy_start velodyne_constants rd64 scan64 empty_cloud)
    = (Next, (e, Z.of_nat (length (take 70 readings64))))
    /\ (reading_step velodyne_constants rd64 scan64
          (demo_packet hdl64_headers 1000 0x37, (2, 6))
          (e, Z.of_nat (length (take 70 readings64)))).2.2 = 70 + 1.
Proof.
  destruct (legacy_full_window_layout velodyne_constants rd64 scan64 empty_cloud
              (take 70 readings64) (drop 71 readings64)
              (demo_packet hdl64_headers 1000 0x37, (2, 6)))
    as (e & Hrun & _ & Hcount & _).
  - by_computation.
  - apply demo_rings_ok. lia.
  - by_computation.
  - by_computation.
  - reflexivity.
  - by_computation.
  - reflexivity.
  - reflexivity.
  - constructor; [apply demo_rotations_ok | constructor].
  - vm_compute. reflexivity.
  - exists e. split; [exact Hrun |]. rewrite Hcount. vm_compute. reflexivity.
Defined.

(** X16. The legacy decoder never inspects a block marker for validity:
    whatever the headers of the blocks (only equality with [LOWER_BANK] is
    looked at, to pick the lasers 32 to 63), [unpack] with a calibration of
    other than sixteen lasers never returns before the end of the scan and
    never asks for the wrong-marker warning, and it writes nothing to the
    azimuth file; it ends normally or with an exception of [pc.at]. *)
Theorem legacy_ignores_block_markers (K : Constants) (rd : RawData) (scan : VelodyneScan)
    (pc : VPointCloud) :
  let num := num_lasers (calibration_ rd) in
  let r := unpack K rd scan pc in
  num <> 16 -> uint64 num <> 0 ->
  (r.1 = Next \/ r.1 = Thrown)
  /\ Forall (fun ev => is_bad_header ev = false /\ is_azimuth_line ev = false) (trace r.2).
Proof.
  intros num r H16 Hnum. subst r. unfold unpack. fold num.
  destruct (Z.eqb_spec num 16) as [| _]; [done |]. cbn [fst snd].
  rewrite unpack_legacy_fold by done.
  assert (Hnz : num <> 0) by (by intros E; rewrite E in Hnum).
  set (Q := fun ev => is_bad_header ev = false /\ is_azimuth_line ev = false).
  apply (for_each_ctl (fun c => c = Next \/ c = Thrown) _
           (fun s => Forall Q (trace s.1))).
  { by left. }
  { constructor. }
  intros [pkt [i j]] [e n] _ He. cbn [fst snd] in He. unfold reading_step. cbn [fst snd].
  pose proof (unpack_reading_effect K rd scan pkt i j e n Hnz) as H.
  cbv zeta in H. destruct (in_angle_window rd _).
  - destruct H as [_ [Hctl (evs & Ht & Hevs & _)]]. cbn [fst snd] in *. split.
    + rewrite Hctl. destruct (at_index _ _ _); [by left | by right].
    + rewrite Ht. apply Forall_app. split; [done |].
      constructor; [done |]. constructor; [done |].
      eapply Forall_impl; [exact Hevs |]. by intros ev [-> | ->].
  - rewrite H. split; [by left | done].
Qed.

Lemma legacy_ignores_block_markers_witness :
  (unpack velodyne_constants rd64 scan64 empty_cloud).1 <> Returned
  /\ List.filter is_bad_header (trace (unpack velodyne_constants rd64 scan64 empty_cloud).2)
     = [].
Proof.
  destruct (legacy_ignores_block_markers velodyne_constants rd64 scan64 empty_cloud)
    as [Hctl Htrace].
  - by_computation.
  - by_computation.
  - split.
    + destruct Hctl as [-> | ->]; discriminate.
    + apply filter_bad_header_none.
      eapply Forall_impl; [exact Htrace |]. by intros ev [H _].
Defined.
(** ** Readings inside the range window *)

Lemma at_index_lookup (pc : VPointCloud) (col row : Z) (idx : nat) :
  at_index pc col row = Some idx -> exists old, points pc !! idx = Some old.
Proof. intros H%at_index_lt. by apply lookup_lt_is_Some_2. Qed.

(** The coordinates [store_coordinates] writes. *)
Lemma store_coordinates_cell (rd : RawData) (scan : VelodyneScan) (pkt : VelodynePacket)
    (col row : Z) (p : reading) (e : env) (idx : nat) (old : VPoint) :
  at_index (cloud e) col row = Some idx ->
  points (cloud e) !! idx = Some old ->
  let r := store_coordinates rd scan pkt col row p e in
  (no_transform rd = true ->
   r.1 = Next
   /\ points (cloud r.2) !! idx
      = Some (set_z (z_coord p) (set_y (y_coord p) (set_x (x_coord p) old))))
  /\ (forall tf t,
        tf_listener_ rd = Some tf ->
        string_empty (frame_id (config_ rd)) = false ->
        transformPoint tf (pc_frame_id (cloud e))
          {| ps_stamp := (stamp pkt, Fp.zero);
             ps_frame_id := scan_frame_id scan;
             ps_x := Double.of_single (x_coord p);
             ps_y := Double.of_single (y_coord p);
             ps_z := Double.of_single (z_coord p) |} = Some t ->
        r.1 = Next
        /\ points (cloud r.2) !! idx
           = Some (set_z (Single.of_double (ps_z t))
                     (set_y (Single.of_double (ps_y t))
                        (set_x (Single.of_double (ps_x t)) old)))).
Proof.
  intros Hat Hold r. subst r. unfold store_coordinates, no_transform. split.
  - intros Hno.
    assert (Hplain :
      let r := (cloud_update col row (set_x (x_coord p)) e >>> fun e =>
                cloud_update col row (set_y (y_coord p)) e >>> fun e =>
                cloud_update col row (set_z (z_coord p)) e) in
      r.1 = Next
      /\ points (cloud r.2) !! idx
         = Some (set_z (z_coord p) (set_y (y_coord p) (set_x (x_coord p) old)))).
    { cbv zeta. do 3 (rewrite (cloud_update_Some _ _ _ _ idx)
      by (cbn [cloud]; rewrite ?at_index_alter; exact Hat);
    cbn [and_then cloud trace]). split; [done |].
      cbn [fst snd cloud points with_points].
      by rewrite !list_alter_alter_eq, list_lookup_alter_eq, Hold. }
    destruct (tf_listener_ rd); [| exact Hplain].
    rewrite Hno. exact Hplain.
  - intros tf t Htf Hframe Ht. rewrite Htf, Hframe, Ht.
    do 3 (rewrite (cloud_update_Some _ _ _ _ idx)
      by (cbn [cloud]; rewrite ?at_index_alter; exact Hat);
    cbn [and_then cloud trace]). split; [done |].
    cbn [fst snd cloud points with_points].
    by rewrite !list_alter_alter_eq, list_lookup_alter_eq, Hold.
Qed.

(** X6. A reading of the legacy decoder that passes the angle gate and
    lies inside the range window replaces its cell and no other: the cell
    ends with the ring of the laser, the clamped intensity and - without a
    listener or target frame - the sensor-frame coordinates of the reading,
    or - when the listener transforms the point stamped with the packet time
    into the frame of the cloud - the transformed coordinates narrowed to
    [float]. Nothing of the old cell survives. *)
Theorem legacy_reading_in_range (K : Constants) (rd : RawData) (scan : VelodyneScan)
    (pkt : VelodynePacket) (i j : Z) (e : env) (n : Z) (idx : nat) :
  let blk := block_at (blocks pkt) i in
  let c := reading_corrections K rd blk j in
  let num := num_lasers (calibration_ rd) in
  let p := reading_values K rd blk j in
  let r := unpack_reading K rd scan pkt i j (e, n) in
  let pts := points (cloud r.2.1) in
  in_angle_window rd (rotation blk) = true ->
  num <> 0 ->
  pointInRange rd (distance p) = true ->
  at_index (cloud e) (Z.quot n num) (num - 1 - laser_ring c) = Some idx ->
  r.2.2 = n + 1
  /\ (forall k, k <> idx -> pts !! k = points (cloud e) !! k)
  /\ (no_transform rd = true ->
      r.1 = Next
      /\ pts !! idx = Some {| x := x_coord p; y := y_coord p; z := z_coord p;
                              intensity := intensity_ p; ring := laser_ring c |})
  /\ (forall tf t,
        tf_listener_ rd = Some tf ->
        string_empty (frame_id (config_ rd)) = false ->
        transformPoint tf (pc_frame_id (cloud e))
          {| ps_stamp := (stamp pkt, Fp.zero);
             ps_frame_id := scan_frame_id scan;
             ps_x := Double.of_single (x_coord p);
             ps_y := Double.of_single (y_coord p);
             ps_z := Double.of_single (z_coord p) |} = Some t ->
        r.1 = Next
        /\ pts !! idx = Some {| x := Single.of_double (ps_x t);
                                y := Single.of_double (ps_y t);
                                z := Single.of_double (ps_z t);
                                intensity := intensity_ p; ring := laser_ring c |}).
Proof.
  intros blk c num p r pts Hgate Hnum Hrange Hat.
  pose proof (unpack_reading_effect K rd scan pkt i j e n Hnum) as Heff.
  cbv zeta in Heff. fold blk c num r in Heff. rewrite Hgate in Heff.
  destruct Heff as [Hcount [_ (evs & _ & _ & Hcloud)]].
  rewrite Hat in Hcloud. destruct Hcloud as (g & Hcloud & _). cbn [snd] in Hcloud.
  split; [done |]. split.
  { intros k Hk. subst pts. rewrite Hcloud. cbn. by apply list_lookup_alter_ne. }
  destruct (at_index_lookup _ _ _ _ Hat) as (old & Hold).
  subst r pts. unfold unpack_reading. fold blk. rewrite Hgate. fold num.
  destruct (Z.eqb_spec num 0) as [| _]; [done |].
  fold c p. cbn [fst snd]. unfold store_point.
  (rewrite (cloud_update_Some _ _ _ _ idx)
      by (cbn [cloud]; rewrite ?at_index_alter; exact Hat);
    cbn [and_then cloud trace]). rewrite Hrange. cbn [negb].
  (rewrite (cloud_update_Some _ _ _ _ idx)
      by (cbn [cloud]; rewrite ?at_index_alter; exact Hat);
    cbn [and_then cloud trace]).
  set (e2 := {| cloud := _; trace := _ |}).
  assert (Hat2 : at_index (cloud e2) (Z.quot n num) (num - 1 - laser_ring c) = Some idx).
  { subst e2. cbn [cloud]. by rewrite !at_index_alter. }
  assert (Hold2 : points (cloud e2) !! idx
                  = Some (set_intensity (intensity_ p) (set_ring (laser_ring c) old))).
  { subst e2. unfold emit. cbn [cloud points with_points].
    by rewrite list_alter_alter_eq, list_lookup_alter_eq, Hold. }
  assert (Hframe : pc_frame_id (cloud e2) = pc_frame_id (cloud e)) by done.
  pose proof (store_coordinates_cell rd scan pkt _ _ p e2 idx _ Hat2 Hold2) as [H1 H2].
  rewrite Hframe in H2. split.
  - intros Hno. destruct (H1 Hno) as [Hn Hc]. by rewrite Hc.
  - intros tf t Htf Hf Ht. destruct (H2 tf t Htf Hf Ht) as [Hn Hc]. by rewrite Hc.
Qed.

(** The cell a beam of the 16-beam decoder leaves does not depend on the
    cloud it is stored in. *)
Lemma store_vlp16_point_cell (rd : RawData) (scan : VelodyneScan) (pkt : VelodynePacket)
    (offset : spec_float) (col row : Z) (point : VPoint) (p : reading) :
  exists q, forall e idx,
    at_index (cloud e) col row = Some idx ->
    points (cloud (store_vlp16_point rd scan pkt offset col row point p e).2) !! idx
    = Some q.
Proof.
  unfold store_vlp16_point.
  destruct (pointInRange rd (distance p)); cbn [negb];
    [destruct (tf_listener_ rd) as [tf |];
       [destruct (string_empty (frame_id (config_ rd)));
          [| destruct (transformPoint_fixed tf _ _ _ _)] |] |].
  all: eexists; intros e idx Hat;
       destruct (at_index_lookup _ _ _ _ Hat) as (old & Hold).
  all: repeat (rewrite (cloud_update_Some _ _ _ _ idx)
      by (cbn [cloud]; rewrite ?at_index_alter; exact Hat);
    cbn [and_then cloud trace]).
  all: unfold emit; cbn [fst snd cloud points with_points].
  all: rewrite ?list_alter_alter_eq, list_lookup_alter_eq, Hold; cbn; reflexivity.
Qed.

(** X7. A beam of the 16-beam decoder that passes the angle gate
    overwrites its cell whatever the cell held: decoding the same beam into
    two clouds leaves the same point in the addressed cell, be the beam out
    of range, in range, or its transform failed. (The legacy decoder does
    not: out of range it keeps the old position and intensity.) *)
Theorem vlp16_reading_resets_cell (K : Constants) (rd : RawData) (scan : VelodyneScan)
    (packet : Z) (pkt : VelodynePacket) (dual_return : bool) (block : Z)
    (azimuth azimuth_diff : spec_float) (firing dsr : Z) (e e' : env) (idx idx' : nat) :
  let c := laser_corrections (calibration_ rd) dsr in
  let az := azimuth_corrected K azimuth azimuth_diff (t_beam K dsr firing) in
  let col := vlp16_col K dual_return packet block firing in
  let row := num_lasers (calibration_ rd) - 1 - laser_ring c in
  let step := unpack_vlp16_reading K rd scan packet pkt dual_return block azimuth
                azimuth_diff firing dsr in
  in_angle_window_vlp16 rd az = true ->
  at_index (cloud e) col row = Some idx ->
  at_index (cloud e') col row = Some idx' ->
  points (cloud (step e).2) !! idx = points (cloud (step e').2) !! idx'.
Proof.
  intros c az col row step Hgate Hat Hat'. subst step.
  unfold unpack_vlp16_reading. fold az. rewrite Hgate. cbn [ring]. fold c col row.
  match goal with
  | |- context [store_vlp16_point rd scan pkt ?o col row ?pt ?p (emit ?a (emit ?b e))] =>
      destruct (store_vlp16_point_cell rd scan pkt o col row pt p) as (q & Hq);
      rewrite (Hq (emit a (emit b e)) idx Hat), (Hq (emit a (emit b e')) idx' Hat')
  end.
  done.
Qed.

(** X8. A beam of the 16-beam decoder that passes the angle gate and
    lies inside the range window leaves in its cell - and changes no other -
    the ring of the laser, the intensity converted to [uint8_t], and the
    sensor-frame coordinates (without a listener or target frame), or the
    coordinates the listener returns for the point, stamped with the packet
    time plus the firing time of the beam, transformed into the target frame
    through the fixed frame at the time of the scan. *)
Theorem vlp16_reading_in_range (K : Constants) (rd : RawData) (scan : VelodyneScan)
    (packet : Z) (pkt : VelodynePacket) (dual_return : bool) (block : Z)
    (azimuth azimuth_diff : spec_float) (firing dsr : Z) (e : env) (idx : nat) :
  let blk := block_at (blocks pkt) block in
  let c := laser_corrections (calibration_ rd) dsr in
  let az := azimuth_corrected K azimuth azimuth_diff (t_beam K dsr firing) in
  let p := vlp16_values K rd blk firing dsr az in
  let col := vlp16_col K dual_return packet block firing in
  let row := num_lasers (calibration_ rd) - 1 - laser_ring c in
  let offset :=
    (Double.of_single
       (Single.of_int block * VLP16_BLOCK_TDURATION K + t_beam K dsr firing)%single
     * Double.lit 1 1000000)%double in
  let stored_intensity := Single.of_int (Fp.to_uint8 (Fp.trunc (intensity_ p))) in
  let r := unpack_vlp16_reading K rd scan packet pkt dual_return block azimuth
             azimuth_diff firing dsr e in
  let pts := points (cloud r.2) in
  in_angle_window_vlp16 rd az = true ->
  pointInRange rd (distance p) = true ->
  at_index (cloud e) col row = Some idx ->
  (forall k, k <> idx -> pts !! k = points (cloud e) !! k)
  /\ (no_transform rd = true ->
      r.1 = Next
      /\ pts !! idx = Some {| x := x_coord p; y := y_coord p; z := z_coord p;
                              intensity := stored_intensity; ring := laser_ring c |})
  /\ (forall tf t,
        tf_listener_ rd = Some tf ->
        string_empty (frame_id (config_ rd)) = false ->
        transformPoint_fixed tf (frame_id (config_ rd)) (scan_stamp scan)
          {| ps_stamp := (stamp pkt, offset);
             ps_frame_id := scan_frame_id scan;
             ps_x := Double.of_single (x_coord p);
             ps_y := Double.of_single (y_coord p);
             ps_z := Double.of_single (z_coord p) |}
          (fixed_frame_id (config_ rd)) = Some t ->
        r.1 = Next
        /\ pts !! idx = Some {| x := Single.of_double (ps_x t);
                                y := Single.of_double (ps_y t);
                                z := Single.of_double (ps_z t);
                                intensity := stored_intensity; ring := laser_ring c |}).
Proof.
  intros blk c az p col row offset stored_intensity r pts Hgate Hrange Hat.
  destruct (unpack_vlp16_reading_effect K rd scan packet pkt dual_return block azimuth
              azimuth_diff firing dsr e) as (offset' & Heff).
  fold az c r in Heff. rewrite Hgate in Heff.
  destruct Heff as [_ (evs & _ & _ & Hcloud)]. fold col row in Hcloud.
  rewrite Hat in Hcloud. destruct Hcloud as (g & Hcloud & _).
  split.
  { intros k Hk. subst pts. rewrite Hcloud. cbn. by apply list_lookup_alter_ne. }
  destruct (at_index_lookup _ _ _ _ Hat) as (old & Hold).
  subst r pts. unfold unpack_vlp16_reading. fold blk az. rewrite Hgate.
  cbn [ring]. fold c col row p offset. unfold store_vlp16_point, no_transform.
  (rewrite (cloud_update_Some _ _ _ _ idx)
      by (cbn [cloud]; rewrite ?at_index_alter; exact Hat);
    cbn [and_then cloud trace]). rewrite Hrange. cbn [negb].
  assert (Hplain : forall vx vy vz e1,
    at_index (cloud e1) col row = Some idx ->
    points (cloud e1) !! idx
    = Some {| x := Fp.nan; y := Fp.nan; z := Fp.nan; intensity := Single.of_int 0;
              ring := laser_ring c |} ->
    let r := (cloud_update col row (set_x vx) e1 >>> fun e =>
              cloud_update col row (set_y vy) e >>> fun e =>
              cloud_update col row (set_z vz) e >>> fun e =>
              cloud_update col row (set_intensity stored_intensity) e) in
    r.1 = Next
    /\ points (cloud r.2) !! idx
       = Some {| x := vx; y := vy; z := vz; intensity := stored_intensity;
                 ring := laser_ring c |}).
  { intros vx vy vz e1 Hat1 Hold1. cbv zeta. do 4 (rewrite (cloud_update_Some _ _ _ _ idx)
      by (cbn [cloud]; rewrite ?at_index_alter; exact Hat1);
    cbn [and_then cloud trace]).
    split; [done |]. cbn [fst snd cloud points with_points].
    by rewrite !list_alter_alter_eq, list_lookup_alter_eq, Hold1. }
  set (e1 := {| cloud := _; trace := _ |}).
  assert (Hat1 : at_index (cloud e1) col row = Some idx).
  { subst e1. cbn [cloud]. by rewrite at_index_alter. }
  assert (Hold1 : points (cloud e1) !! idx
                  = Some {| x := Fp.nan; y := Fp.nan; z := Fp.nan;
                            intensity := Single.of_int 0; ring := laser_ring c |}).
  { subst e1. unfold emit. cbn [cloud points with_points].
    by rewrite list_lookup_alter_eq, Hold. }
  split.
  - intros Hno. destruct (tf_listener_ rd); [rewrite Hno |]; by apply Hplain.
  - intros tf t Htf Hf Ht. rewrite Htf, Hf, Ht. by apply Hplain.
Qed.

Lemma legacy_reading_in_range_witness :
  let p := reading_values velodyne_constants rd64 (block_at (blocks far_packet64) 0) 0 in
  points (cloud (unpack_reading velodyne_constants rd64 scan64 far_packet64 0 0
                   (begin64, 0)).2.1) !! 378%nat
  = Some {| x := x_coord p; y := y_coord p; z := z_coord p;
            intensity := intensity_ p; ring := 0 |}
  /\ points (cloud (unpack_reading velodyne_constants rd64_tf scan64 far_packet64 0 0
                      (begin64_tf, 0)).2.1) !! 378%nat
     = Some {| x := Single.of_double (Double.add (Double.of_single (x_coord p))
                                        (Double.of_int 1));
               y := Single.of_double (Double.of_single (y_coord p));
               z := Single.of_double (Double.of_single (z_coord p));
               intensity := intensity_ p; ring := 0 |}.
Proof.
  split.
  - destruct (legacy_reading_in_range velodyne_constants rd64 scan64 far_packet64 0 0
                begin64 0 378) as (_ & _ & Hplain & _).
    + by_computation.
    + by_computation.
    + by_computation.
    + by_computation.
    + destruct Hplain as [_ Hcell]; [reflexivity |]. exact Hcell.
  - destruct (legacy_reading_in_range velodyne_constants rd64_tf scan64 far_packet64 0 0
                begin64_tf 0 378) as (_ & _ & _ & Htf).
    + by_computation.
    + by_computation.
    + by_computation.
    + by_computation.
    + destruct (Htf shifting_listener _ eq_refl eq_refl eq_refl) as [_ Hcell].
      exact Hcell.
Defined.

Lemma vlp16_reading_resets_cell_witness :
  points (cloud (first_beam16 begin16).2) !! 360%nat
  = points (cloud (first_beam16 after_first_beam16).2) !! 360%nat.
Proof.
  apply (vlp16_reading_resets_cell velodyne_constants rd16 scan16 0 far_packet16 false 0
           (Single.of_int 0) (Single.of_int 100) 0 0 begin16 after_first_beam16).
  - by_computation.
  - by_computation.
  - by_computation.
Defined.

Lemma vlp16_reading_in_range_witness :
  let p := vlp16_values velodyne_constants rd16 (block_at (blocks far_packet16) 0) 0 0 0 in
  points (cloud (first_beam16 begin16).2) !! 360%nat
  = Some {| x := x_coord p; y := y_coord p; z := z_coord p;
            intensity := Single.of_int 50; ring := 0 |}
  /\ points (cloud (unpack_vlp16_reading velodyne_constants rd16_tf scan16 0 far_packet16
                      false 0 (Single.of_int 0) (Single.of_int 100) 0 0
                      begin16_tf).2) !! 360%nat
     = Some {| x := Single.of_double (Double.add (Double.of_single (x_coord p))
                                        (Double.of_int 1));
               y := Single.of_double (Double.of_single (y_coord p));
               z := Single.of_double (Double.of_single (z_coord p));
               intensity := Single.of_int 50; ring := 0 |}.
Proof.
  split.
  - destruct (vlp16_reading_in_range velodyne_constants rd16 scan16 0 far_packet16 false 0
                (Single.of_int 0) (Single.of_int 100) 0 0 begin16 360)
      as (_ & Hplain & _).
    + by_computation.
    + by_computation.
    + by_computation.
    + destruct Hplain as [_ Hcell]; [reflexivity |]. exact Hcell.
  - destruct (vlp16_reading_in_range velodyne_constants rd16_tf scan16 0 far_packet16
                false 0 (Single.of_int 0) (Single.of_int 100) 0 0 begin16_tf 360)
      as (_ & _ & Htf).
    + by_computation.
    + by_computation.
    + by_computation.
    + destruct (Htf shifting_listener _ eq_refl eq_refl eq_refl) as [_ Hcell].
      exact Hcell.
Defined.
(** ** The intensity limits of the calibration *)

Lemma SFcompare_antisym (a b : spec_float) :
  SFcompare b a = option_map CompOpp (SFcompare a b).
Proof.
  destruct a as [[] | [] | | [] ma ea], b as [[] | [] | | [] mb eb]; try reflexivity.
  all: cbn; rewrite (Z.compare_antisym ea eb); destruct (ea ?= eb); cbn; try reflexivity.
  all: rewrite (Pos.compare_cont_antisym ma mb Eq); reflexivity.
Qed.

Lemma SFcompare_defined (a b : spec_float) :
  is_nan a = false -> is_nan b = false -> exists c, SFcompare a b = Some c.
Proof. destruct a, b; try done; intros _ _; cbn; eauto. Qed.

Lemma SFcompare_refl (a : spec_float) : is_nan a = false -> SFcompare a a = Some Eq.
Proof.
  destruct a as [[] | [] | | [] m e]; try done; intros _; cbn.
  all: rewrite Z.compare_refl. all: by rewrite Pos.compare_cont_refl.
Qed.

Lemma leb_is_number (a b : spec_float) :
  Fp.leb a b = true -> is_nan a = false /\ is_nan b = false.
Proof. unfold Fp.leb, SFleb. by destruct a, b. Qed.

Lemma not_ltb_leb (a b : spec_float) :
  is_nan a = false -> is_nan b = false -> Fp.ltb a b = false -> Fp.leb b a = true.
Proof.
  intros Ha Hb. unfold Fp.ltb, Fp.leb, SFltb, SFleb. rewrite (SFcompare_antisym a b).
  destruct (SFcompare_defined a b Ha Hb) as ([] & ->); done.
Qed.

Lemma leb_not_ltb (a b : spec_float) : Fp.leb a b = true -> Fp.ltb b a = false.
Proof.
  unfold Fp.ltb, Fp.leb, SFltb, SFleb. rewrite (SFcompare_antisym a b).
  by destruct (SFcompare a b) as [[] |].
Qed.

Lemma leb_refl (a : spec_float) : is_nan a = false -> Fp.leb a a = true.
Proof. intros Ha. unfold Fp.leb, SFleb. by rewrite SFcompare_refl. Qed.

Lemma gtb_ltb (a b : spec_float) : Fp.gtb a b = Fp.ltb b a.
Proof. done. Qed.

(** Lines 298-299 and 555-556 on a value [raw]. *)
Lemma clamp_between (lo hi raw : spec_float) :
  Fp.leb lo hi = true ->
  let v1 := if Fp.ltb raw lo then lo else raw in
  let v := if Fp.gtb v1 hi then hi else v1 in
  (is_nan raw = true /\ is_nan v = true)
  \/ (Fp.leb lo v = true /\ Fp.leb v hi = true).
Proof.
  intros Hle. destruct (leb_is_number _ _ Hle) as [Hlo Hhi]. cbv zeta.
  destruct (is_nan raw) eqn:Hraw.
  { left. destruct raw; try done. cbn.
    replace (Fp.gtb S754_nan hi) with false by (by destruct hi). done. }
  right. rewrite !gtb_ltb. destruct (Fp.ltb raw lo) eqn:E1.
  - rewrite (leb_not_ltb _ _ Hle). split; [by apply leb_refl | done].
  - pose proof (not_ltb_leb raw lo Hraw Hlo E1) as H1.
    destruct (Fp.ltb hi raw) eqn:E2.
    + split; [done | by apply leb_refl].
    + split; [done | by apply not_ltb_leb].
Qed.

(** X9. The intensity both decoders compute for a reading respects the
    limits of the calibration: when [min_intensity <= max_intensity], it lies
    between them, or it is NaN because the value before clamping was (the
    comparisons of lines 298-299 and 555-556 are false on NaN). The legacy
    decoder stores this value, the 16-beam decoder its conversion to
    [uint8_t]. *)
Theorem intensity_within_limits (K : Constants) (rd : RawData) (c : LaserCorrection)
    (rot d i : Z) :
  let v := intensity_ (unpack_point K rd c rot d i) in
  let v16 := intensity_ (unpack_vlp16_point K rd c rot d i) in
  Fp.leb (min_intensity c) (max_intensity c) = true ->
  (is_nan v = true
   \/ (Fp.leb (min_intensity c) v = true /\ Fp.leb v (max_intensity c) = true))
  /\ (is_nan v16 = true
      \/ (Fp.leb (min_intensity c) v16 = true /\ Fp.leb v16 (max_intensity c) = true)).
Proof.
  intros v v16 Hle. subst v v16. unfold unpack_point, unpack_vlp16_point.
  cbn [intensity_]. split.
  - match goal with
    | |- context [Fp.ltb ?raw (min_intensity c)] =>
        destruct (clamp_between (min_intensity c) (max_intensity c) raw Hle)
          as [[_ H] | H]
    end; [by left | by right].
  - match goal with
    | |- context [Fp.ltb ?raw (min_intensity c)] =>
        destruct (clamp_between (min_intensity c) (max_intensity c) raw Hle)
          as [[_ H] | H]
    end; [by left | by right].
Qed.

Lemma intensity_within_limits_witness :
  let v := intensity_ (unpack_point velodyne_constants fresh_rd (demo_correction 0)
                         0 32768 200) in
  Fp.leb (Single.of_int 0) v = true /\ Fp.leb v (Single.of_int 255) = true
  /\ v = Single.of_int 255.
Proof.
  destruct (intensity_within_limits velodyne_constants fresh_rd (demo_correction 0)
              0 32768 200) as [[Hnan | [Hlo Hhi]] _].
  - by_computation.
  - exfalso. revert Hnan. by_computation.
  - split; [exact Hlo |]. split; [exact Hhi |]. by_computation.
Defined.
(** ** More on the 16-beam decoder *)

(** X10. In dual-return mode the two returns of a firing get the same
    azimuth. When the blocks [2 b] and [2 b + 1] of every pair carry the same
    rotation code, the azimuth difference the block loop uses for block
    [2 b + 1] - computed two blocks ahead, or inherited from block [2 b] at
    the end of the packet - is the one it used for block [2 b], and each beam
    of the two blocks gets the same corrected azimuth, hence the same
    decision of the angle gate. *)
Theorem dual_return_pair_shares_azimuth (K : Constants) (rd : RawData)
    (pkt : VelodynePacket) (b : Z) (last : spec_float) (firing dsr : Z) :
  let rot0 := rotation (block_at (blocks pkt) (2 * b)) in
  let rot1 := rotation (block_at (blocks pkt) (2 * b + 1)) in
  let d0 := block_azimuth_diff K pkt 2 (2 * b) last in
  let d1 := block_azimuth_diff K pkt 2 (2 * b + 1) d0.2 in
  let az0 := azimuth_corrected K (Single.of_int rot0) d0.1 (t_beam K dsr firing) in
  let az1 := azimuth_corrected K (Single.of_int rot1) d1.1 (t_beam K dsr firing) in
  paired_rotations pkt ->
  d1 = d0 /\ az1 = az0
  /\ in_angle_window_vlp16 rd az1 = in_angle_window_vlp16 rd az0.
Proof.
  intros rot0 rot1 d0 d1 az0 az1 Hpair.
  assert (Hd : d1 = d0).
  { subst d0 d1. unfold block_azimuth_diff.
    destruct (2 * b <? BLOCKS_PER_PACKET K - 2) eqn:E0;
      destruct (2 * b + 1 <? BLOCKS_PER_PACKET K - 2) eqn:E1; cbn [fst snd].
    - replace (2 * b + 1 + 2) with (2 * (b + 1) + 1) by lia.
      rewrite !Hpair. by replace (2 * (b + 1)) with (2 * b + 2) by lia.
    - done.
    - apply Z.ltb_ge in E0. apply Z.ltb_lt in E1. lia.
    - done. }
  assert (Haz : az1 = az0).
  { subst az0 az1 rot0 rot1. by rewrite Hd, Hpair. }
  split; [done |]. split; [done |]. by rewrite Haz.
Qed.

(** The azimuth file. *)
Lemma azimuth_lines_app (e : env) (evs : list event) (t : list event) :
  trace e = t ++ evs ->
  azimuth_lines e
  = Z.of_nat (length (List.filter is_azimuth_line t))
    + Z.of_nat (length (List.filter is_azimuth_line evs)).
Proof.
  intros Ht. unfold azimuth_lines. rewrite Ht, List.filter_app, length_app. lia.
Qed.

Lemma cell_events_no_line (col row : Z) (evs : list event) :
  Forall (cell_event col row) evs -> List.filter is_azimuth_line evs = [].
Proof.
  induction 1 as [| ev evs [-> | ->] _ IH]; [done | |]; cbn; exact IH.
Qed.

Lemma unpack_vlp16_reading_line (K : Constants) (rd : RawData) (scan : VelodyneScan)
    (packet : Z) (pkt : VelodynePacket) (dual_return : bool) (block : Z)
    (azimuth azimuth_diff : spec_float) (firing dsr : Z) (e : env) :
  azimuth_lines (unpack_vlp16_reading K rd scan packet pkt dual_return block azimuth
                   azimuth_diff firing dsr e).2
  = azimuth_lines e + 1.
Proof.
  destruct (unpack_vlp16_reading_effect K rd scan packet pkt dual_return block azimuth
              azimuth_diff firing dsr e) as (offset & H).
  destruct (in_angle_window_vlp16 rd _).
  - destruct H as [_ (evs & Ht & Hevs & _)].
    rewrite (azimuth_lines_app _ _ _ Ht). cbn [app List.filter is_azimuth_line length].
    rewrite (cell_events_no_line _ _ _ Hevs). unfold azimuth_lines. cbn. lia.
  - rewrite H. unfold azimuth_lines, emit. cbn [snd trace].
    rewrite List.filter_app, length_app. cbn. lia.
Qed.

(** A loop that runs to its end adds up what its bodies add. *)
Lemma for_each_measure {A T : Type} (mu : T -> Z) (c : Z) (body : A -> T -> ctl * T)
    (xs : list A) (s s' : T) :
  (forall a s s1, a ∈ xs -> body a s = (Next, s1) -> mu s1 = mu s + c) ->
  for_each body xs s = (Next, s') ->
  mu s' = mu s + c * Z.of_nat (length xs).
Proof.
  intros Hstep. revert s. induction xs as [| a xs IH]; intros s Hrun.
  - cbn in Hrun. injection Hrun as <-. cbn. lia.
  - cbn [for_each] in Hrun. destruct (body a s) as [[] s1] eqn:Eb; try done.
    rewrite (IH (fun b s0 s2 Hb => Hstep b s0 s2 ltac:(apply elem_of_cons; by right))
                s1 Hrun).
    rewrite (Hstep a s s1 ltac:(apply elem_of_cons; by left) Eb). cbn [length]. lia.
Qed.

Lemma for_each_from_measure {A T : Type} (mu : T -> Z) (c : Z)
    (body : Z -> A -> T -> ctl * T) (xs : list A) (i0 : Z) (s s' : T) :
  (forall i a s s1, a ∈ xs -> body i a s = (Next, s1) -> mu s1 = mu s + c) ->
  for_each_from body i0 xs s = (Next, s') ->
  mu s' = mu s + c * Z.of_nat (length xs).
Proof.
  intros Hstep. revert i0 s. induction xs as [| a xs IH]; intros i0 s Hrun.
  - cbn in Hrun. injection Hrun as <-. cbn. lia.
  - cbn [for_each_from] in Hrun. destruct (body i0 a s) as [[] s1] eqn:Eb; try done.
    rewrite (IH (fun i b s0 s2 Hb => Hstep i b s0 s2 ltac:(apply elem_of_cons; by right))
                (i0 + 1) s1 Hrun).
    rewrite (Hstep i0 a s s1 ltac:(apply elem_of_cons; by left) Eb). cbn [length]. lia.
Qed.

(** X11. The azimuth file gets one line per beam. A scan that the
    16-beam decoder runs to its end writes
    [packets * BLOCKS_PER_PACKET * VLP16_FIRINGS_PER_BLOCK *
    VLP16_SCANS_PER_FIRING] lines to [file_], whether or not the beams pass
    the angle gate or lie in range. *)
Theorem vlp16_azimuth_file_lines (K : Constants) (rd : RawData) (scan : VelodyneScan)
    (pc : VPointCloud) :
  let r := unpack_vlp16 K rd scan pc in
  0 <= BLOCKS_PER_PACKET K -> 0 <= VLP16_FIRINGS_PER_BLOCK K ->
  0 <= VLP16_SCANS_PER_FIRING K ->
  r.1 = Next ->
  azimuth_lines r.2.1
  = Z.of_nat (length (packets scan)) * BLOCKS_PER_PACKET K
    * VLP16_FIRINGS_PER_BLOCK K * VLP16_SCANS_PER_FIRING K.
Proof.
  intros r HB HF HS Hnext. subst r.
  destruct (unpack_vlp16 K rd scan pc) as [c s'] eqn:Erun. cbn in Hnext. subst c.
  unfold unpack_vlp16 in Erun.
  apply (for_each_from_measure (fun s => azimuth_lines s.1)
           (BLOCKS_PER_PACKET K * VLP16_FIRINGS_PER_BLOCK K * VLP16_SCANS_PER_FIRING K))
    in Erun.
  { cbn [snd fst]. rewrite Erun.
    replace (azimuth_lines (vlp16_start K rd scan pc).1) with 0 by done. lia. }
  intros p pkt s s1 _ Hpkt. unfold unpack_vlp16_packet in Hpkt.
  destruct (negb _); [done |].
  apply (for_each_measure (fun s => azimuth_lines s.1)
           (VLP16_FIRINGS_PER_BLOCK K * VLP16_SCANS_PER_FIRING K)) in Hpkt.
  { rewrite Hpkt, length_seqZ. lia. }
  intros b [e last] [e1 last1] _ Hblk. unfold unpack_vlp16_block in Hblk.
  destruct (negb _); [done |].
  destruct (block_azimuth_diff _ _ _ _ _) as [d l'].
  destruct (for_each _ _ e) as [c e2] eqn:Ebeams. cbn [fst snd] in Hblk.
  injection Hblk as -> -> _. cbn [fst].
  apply (for_each_measure azimuth_lines (VLP16_SCANS_PER_FIRING K)) in Ebeams.
  { rewrite Ebeams, length_seqZ. lia. }
  intros f e3 e4 _ Hfiring.
  apply (for_each_measure azimuth_lines 1) in Hfiring.
  { rewrite Hfiring, length_seqZ. lia. }
  intros dsr e5 e6 _ Hbeam.
  pose proof (unpack_vlp16_reading_line K rd scan p pkt (is_dual_return K pkt) b
                (Single.of_int (rotation (block_at (blocks pkt) b))) d f dsr e5) as Hl.
  by rewrite Hbeam in Hl.
Qed.

Lemma vlp16_azimuth_file_lines_witness :
  azimuth_lines (unpack_vlp16 velodyne_constants rd16 scan16 empty_cloud).2.1 = 384.
Proof.
  refine (eq_trans
            (vlp16_azimuth_file_lines velodyne_constants rd16 scan16 empty_cloud _ _ _ _) _).
  - by_computation.
  - by_computation.
  - by_computation.
  - vm_compute. reflexivity.
  - reflexivity.
Defined.

Lemma dual_packet16_paired : paired_rotations dual_packet16.
Proof.
  intros b. unfold block_at.
  destruct (Z_lt_le_dec b 0) as [Hneg | Hpos].
  { by replace (Z.to_nat (2 * b + 1)) with (Z.to_nat (2 * b)) by lia. }
  destruct (Z_lt_le_dec b 6) as [Hin | Hout].
  - assert (Hcases : b = 0 \/ b = 1 \/ b = 2 \/ b = 3 \/ b = 4 \/ b = 5) by lia.
    repeat (destruct Hcases as [-> | Hcases]; [reflexivity |]). subst b. reflexivity.
  - rewrite !nth_overflow; [done | |];
      change (length (blocks dual_packet16)) with 12%nat; lia.
Qed.

Lemma dual_return_pair_shares_azimuth_witness :
  block_azimuth_diff velodyne_constants dual_packet16 2 (2 * 3 + 1)
    (block_azimuth_diff velodyne_constants dual_packet16 2 (2 * 3) (Single.of_int 0)).2
  = (Single.of_int 100, Single.of_int 100)
  /\ azimuth_corrected velodyne_constants (Single.of_int 300) (Single.of_int 100)
       (t_beam velodyne_constants 15 1) = 381.
Proof.
  destruct (dual_return_pair_shares_azimuth velodyne_constants rd16 dual_packet16 3
              (Single.of_int 0) 1 15 dual_packet16_paired) as (Hd & Haz & _).
  split.
  - rewrite Hd. vm_compute. reflexivity.
  - refine (eq_trans _ (eq_trans Haz _)); vm_compute; reflexivity.
Defined.
(** ** Configuration and set-up *)

(** X12. A scan without packets: [unpack] returns at once with an empty
    cloud that carries the stamp of the scan, the output frame, width 0 and
    one row per laser; nothing is looked up, stored or logged. *)
Theorem unpack_empty_scan (K : Constants) (rd : RawData) (scan : VelodyneScan)
    (pc : VPointCloud) :
  let num := num_lasers (calibration_ rd) in
  packets scan = [] -> uint64 num <> 0 ->
  unpack K rd scan pc
  = (Next,
     {| cloud := {| pc_stamp := scan_stamp scan; pc_frame_id := output_frame rd scan;
                    width := 0; height := uint32 num; points := [] |};
        trace := [] |}).
Proof.
  intros num Hempty Hnum. unfold unpack. fold num.
  assert (H32 : uint32 0 = 0) by done. assert (H64 : uint64 0 = 0) by done.
  destruct (num =? 16); cbn [fst snd].
  - unfold unpack_vlp16, vlp16_start, vlp16_width, prepare_cloud. rewrite Hempty.
    cbn [for_each_from fst snd]. fold num. change (Z.of_nat (length [])) with 0.
    rewrite ?Z.mul_0_l, ?H64, ?H32. rewrite ?Z.mul_0_l, ?H32.
    change (Z.to_nat 0) with 0%nat. by rewrite resize_0.
  - unfold unpack_legacy. fold num.
    destruct (Z.eqb_spec (uint64 num) 0) as [| _]; [done |].
    unfold legacy_start, legacy_width, prepare_cloud. rewrite Hempty.
    cbn [for_each fst snd]. fold num. change (Z.of_nat (length [])) with 0.
    rewrite ?Z.mul_0_l, ?H64. rewrite ?Z.div_0_l by done.
    rewrite ?H32. rewrite ?Z.mul_0_l, ?H32.
    change (Z.to_nat 0) with 0%nat. by rewrite resize_0.
Qed.

Lemma unpack_empty_scan_witness :
  unpack velodyne_constants rd64 (demo_scan []) empty_cloud
  = (Next,
     {| cloud := {| pc_stamp := 0; pc_frame_id := "velodyne";
                    width := 0; height := 64; points := [] |};
        trace := [] |}).
Proof.
  refine (eq_trans (unpack_empty_scan velodyne_constants rd64 (demo_scan []) empty_cloud
                      _ _) _).
  - reflexivity.
  - by_computation.
  - reflexivity.
Defined.

(** X13. [setup] and [setParameters] do not interfere: called in either
    order they leave the same object, and [setup] returns the same result and
    logs the same messages whether or not the parameters were set before.
    ([setup] touches the calibration, its file name, the heading tables and
    the listener; [setParameters] the ranges, the angle window and the frame
    names.) *)
Theorem setup_setParameters_commute (K : Constants) (E : SetupEnv)
    (tf : option TransformListener) (rd : RawData)
    (min_range' max_range' view_direction view_width : spec_float)
    (frame_id' fixed_frame_id' : string) :
  let set := setParameters min_range' max_range' view_direction view_width
               frame_id' fixed_frame_id' in
  (setup K E tf (set rd)).1.2 = set (setup K E tf rd).1.2
  /\ (setup K E tf (set rd)).1.1 = (setup K E tf rd).1.1
  /\ (setup K E tf (set rd)).2 = (setup K E tf rd).2
  /\ setParameters_log frame_id' fixed_frame_id' (setup K E tf rd).1.2
     = setParameters_log frame_id' fixed_frame_id' rd.
Proof.
  intros set. subst set. unfold setup, setParameters, setParameters_log.
  destruct (normalize_window _ _) as [mn mx].
  destruct (getParam E "calibration"); cbn [fst snd];
    destruct (initialized (read_calibration E _)); cbn; done.
Qed.

(** X14. [setParameters] reports a frame name only when it is not empty
    and differs from the one stored before the call, the fixed frame before
    the target frame; calling it again with the same names reports nothing. *)
Theorem setParameters_reports_changes
    (min_range' max_range' view_direction view_width : spec_float)
    (frame_id' fixed_frame_id' : string) (rd : RawData) :
  let log := setParameters_log frame_id' fixed_frame_id' rd in
  let rd' := setParameters min_range' max_range' view_direction view_width
               frame_id' fixed_frame_id' rd in
  (forall f, ROS_INFO_target_frame f ∈ log <->
             f = frame_id' /\ f <> EmptyString /\ f <> frame_id (config_ rd))
  /\ (forall f, ROS_INFO_fixed_frame f ∈ log <->
                f = fixed_frame_id' /\ f <> EmptyString
                /\ f <> fixed_frame_id (config_ rd))
  /\ (forall a l, log = ROS_INFO_target_frame a :: l -> l = [])
  /\ frame_id (config_ rd') = frame_id'
  /\ fixed_frame_id (config_ rd') = fixed_frame_id'
  /\ setParameters_log frame_id' fixed_frame_id' rd' = [].
Proof.
  intros log rd'.
  assert (Hchanged : forall new old,
            negb (string_empty new) && negb (String.eqb new old) = true
            <-> new <> EmptyString /\ new <> old).
  { intros new old. rewrite andb_true_iff, !negb_true_iff.
    destruct (String.eqb_spec new old); destruct new; cbn; split; intros []; done. }
  assert (Hrd' : frame_id (config_ rd') = frame_id'
                 /\ fixed_frame_id (config_ rd') = fixed_frame_id').
  { subst rd'. unfold setParameters. by destruct (normalize_window _ _). }
  destruct Hrd' as [Hf Hff].
  assert (Hagain : setParameters_log frame_id' fixed_frame_id' rd' = []).
  { unfold setParameters_log. rewrite Hf, Hff, !String.eqb_refl, !andb_false_r. done. }
  subst log. unfold setParameters_log.
  pose proof (Hchanged frame_id' (frame_id (config_ rd))) as HT.
  pose proof (Hchanged fixed_frame_id' (fixed_frame_id (config_ rd))) as HF.
  destruct (negb (string_empty fixed_frame_id') && _);
    destruct (negb (string_empty frame_id') && _); cbn [app].
  all: split; [| split; [| split; [| done]]].
  all: try (intros a l H; (discriminate H || by injection H)).
  all: intros f; split.
  all: try (intros H; repeat (apply elem_of_cons in H as [H | H]; try discriminate H);
            [injection H as ->; split; [done |]; (by apply HT) || (by apply HF)
            | by apply elem_of_nil in H]).
  all: try (intros H; repeat (apply elem_of_cons in H as [H | H]; try discriminate H);
            by apply elem_of_nil in H).
  all: try (intros H; by apply elem_of_nil in H).
  all: intros (-> & Hne); try (apply HT in Hne; done); try (apply HF in Hne; done).
  all: repeat ((apply elem_of_cons; by left) || (apply elem_of_cons; right)).
Qed.

(** X15. A failed [setup] leaves the object half set up: the calibration
    and its file name are already replaced, but the listener and the heading
    tables are those from before the call, and the last message is the error
    naming the file. A successful [setup] fills the tables for every rotation
    code in [0, ROTATION_MAX_UNITS) with [sinf] and [cosf] of its heading,
    leaves other entries alone, logs no such error and ends with the number of
    lasers. *)
Theorem setup_failure_is_partial (K : Constants) (E : SetupEnv)
    (tf : option TransformListener) (rd : RawData) :
  let r := setup K E tf rd in
  let cal := read_calibration E (calibration_file E) in
  (initialized cal = false ->
     tf_listener_ r.1.2 = tf_listener_ rd
     /\ (forall i, sin_rot_table_ r.1.2 i = sin_rot_table_ rd i
                   /\ cos_rot_table_ r.1.2 i = cos_rot_table_ rd i)
     /\ last r.2 = Some (ROS_ERROR_unable_to_open (calibration_file E)))
  /\ (initialized cal = true ->
      (forall i, 0 <= i < ROTATION_MAX_UNITS K ->
                 sin_rot_table_ r.1.2 i = sinf_of_code E i
                 /\ cos_rot_table_ r.1.2 i = cosf_of_code E i)
      /\ (forall i, ~ 0 <= i < ROTATION_MAX_UNITS K ->
                    sin_rot_table_ r.1.2 i = sin_rot_table_ rd i
                    /\ cos_rot_table_ r.1.2 i = cos_rot_table_ rd i)
      /\ (forall f, ROS_ERROR_unable_to_open f ∉ r.2)
      /\ last r.2 = Some (ROS_INFO_number_of_lasers (num_lasers cal))).
Proof.
  intros r cal. subst r cal. unfold setup, calibration_file.
  assert (Htable : forall (i : Z) (a b : spec_float),
            (0 <= i < ROTATION_MAX_UNITS K ->
             (if (0 <=? i) && (i <? ROTATION_MAX_UNITS K) then a else b) = a)
            /\ (~ 0 <= i < ROTATION_MAX_UNITS K ->
                (if (0 <=? i) && (i <? ROTATION_MAX_UNITS K) then a else b) = b)).
  { intros i a b.
    destruct (Z.leb_spec 0 i); destruct (Z.ltb_spec i (ROTATION_MAX_UNITS K));
      cbn [andb]; split; intros; (done || lia). }
  assert (Hnot : forall (f : string) (l : list log_entry),
            Forall (fun ev => match ev with ROS_ERROR_unable_to_open _ => False
                              | _ => True end) l ->
            ROS_ERROR_unable_to_open f ∉ l).
  { intros f l Hl Hin. rewrite Forall_forall in Hl. by apply Hl in Hin. }
  destruct (getParam E "calibration") as [file |]; cbn [fst snd app].
  all: destruct (initialized (read_calibration E _)); cbn [negb fst snd].
  all: split; intros Hinit; try discriminate Hinit.
  all: cbn [tf_listener_ sin_rot_table_ cos_rot_table_].
  all: try (split; [done |]; split; [done |]; done).
  all: split; [intros i Hi; split; by apply Htable |].
  all: split; [intros i Hi; split; by apply Htable |].
  all: split; [| done].
  all: intros f; apply Hnot; by repeat constructor.
Qed.

Lemma setup_failure_is_partial_witness :
  tf_listener_ (setup velodyne_constants env_unreadable (Some failing_listener)
                  fresh_rd).1.2 = None
  /\ sin_rot_table_ (setup velodyne_constants env_five_lasers None fresh_rd).1.2 17
     = Fp.zero.
Proof.
  destruct (setup_failure_is_partial velodyne_constants env_unreadable
              (Some failing_listener) fresh_rd) as [Hfail _].
  destruct (setup_failure_is_partial velodyne_constants env_five_lasers None fresh_rd)
    as [_ Hok].
  split.
  - destruct Hfail as (Htf & _); [reflexivity |]. exact Htf.
  - destruct Hok as (Htab & _); [reflexivity |].
    destruct (Htab 17) as [Hsin _]; [by_computation |]. exact Hsin.
Defined.
(** ** The angle window of [setParameters] lies on the circle *)

(** Powers of two. *)
Lemma q2_pos (e : Z) : (0 < q2 e)%Q.
Proof. unfold q2. by apply Qpower_0_lt. Qed.

Lemma q2_add (a b : Z) : (q2 (a + b) == q2 a * q2 b)%Q.
Proof. unfold q2. by apply Qpower_plus. Qed.

Lemma q2_le (a b : Z) : a <= b -> (q2 a <= q2 b)%Q.
Proof. intros H. unfold q2. by apply Qpower_le_compat_l. Qed.

Lemma q2_lt_inv (a b : Z) : (q2 a < q2 b)%Q -> a < b.
Proof.
  intros H. destruct (Z.lt_ge_cases a b) as [| Hge]; [done |].
  apply q2_le in Hge. lra.
Qed.

Lemma q2_Z (n : Z) : 0 <= n -> (inject_Z (2 ^ n) == q2 n)%Q.
Proof. intros H. unfold q2. by rewrite Zpower_Qpower. Qed.

Lemma q2_max (a b : Z) : (q2 (Z.max a b) <= q2 a + q2 b)%Q.
Proof.
  pose proof (q2_pos a). pose proof (q2_pos b).
  destruct (Z.max_spec a b) as [[_ ->] | [_ ->]]; lra.
Qed.

(** [a * 2 ^ n <= b] for integers, as rationals at any exponent. *)
Lemma scale_le (a b n e : Z) :
  0 <= n -> a * 2 ^ n <= b -> (inject_Z a * q2 (e + n) <= inject_Z b * q2 e)%Q.
Proof.
  intros Hn H. rewrite Zle_Qle, inject_Z_mult, q2_Z in H by done.
  rewrite (Z.add_comm e n), q2_add. pose proof (q2_pos e).
  nra.
Qed.

Lemma inject_Z_nonneg (a : Z) : 0 <= a -> (0 <= inject_Z a)%Q.
Proof. intros H. by rewrite Zle_Qle in H. Qed.

Section RoundingError.
Variables prec emax : Z.
Hypothesis Hprec : 0 < prec.

Lemma fexp_emin (k : Z) : emin prec emax <= fexp prec emax k.
Proof. unfold fexp, emin. lia. Qed.

Lemma fexp_prec (k : Z) : k - prec <= fexp prec emax k.
Proof. unfold fexp, emin. lia. Qed.

(** Shifting to the exponent of the format divides the mantissa. *)
Lemma shr_fexp_spec (mx ex : Z) (l : location) :
  0 <= mx ->
  let r := shr_fexp prec emax mx ex l in
  let g := fexp prec emax (Zdigits2 mx + ex) in
  r.2 = Z.max ex g
  /\ shr_m r.1 = mx / 2 ^ (r.2 - ex)
  /\ (g <= ex -> r.1 = shr_record_of_loc mx l).
Proof.
  intros Hm r g. subst r. unfold shr_fexp, shr. fold g.
  destruct (g - ex) as [| p | p] eqn:En; cbn [fst snd].
  - split; [lia |]. rewrite Z.sub_diag, Z.div_1_r, shr_record_of_loc_m. done.
  - split; [lia |]. split; [| lia].
    rewrite iter_shr_1_m by (rewrite shr_record_of_loc_m; lia).
    rewrite shr_record_of_loc_m. f_equal. f_equal. lia.
  - split; [lia |]. rewrite Z.sub_diag, Z.div_1_r, shr_record_of_loc_m. done.
Qed.

Lemma shr_fexp_value (mx ex : Z) (l : location) :
  0 <= mx ->
  let r := shr_fexp prec emax mx ex l in
  0 <= shr_m r.1
  /\ (inject_Z (shr_m r.1) * q2 r.2 <= inject_Z mx * q2 ex)%Q
  /\ ex <= r.2.
Proof.
  intros Hm r. destruct (shr_fexp_spec mx ex l Hm) as (He & Hmr & _). fold r in He, Hmr.
  assert (Hle : ex <= r.2) by lia.
  assert (Hp : 0 < 2 ^ (r.2 - ex)) by (apply Z.pow_pos_nonneg; lia).
  split; [rewrite Hmr; apply Z.div_pos; lia |]. split; [| done].
  replace r.2 with (ex + (r.2 - ex)) at 1 by lia.
  apply scale_le; [lia |]. rewrite Hmr.
  rewrite Z.mul_comm. apply Z.mul_div_le. done.
Qed.

(** The mantissa after the shift has at most [prec] digits. *)
Lemma shr_fexp_digits (mx ex : Z) (l : location) :
  0 <= mx ->
  let r := shr_fexp prec emax mx ex l in
  shr_m r.1 < 2 ^ prec /\ emin prec emax <= r.2.
Proof.
  intros Hm r. destruct (shr_fexp_spec mx ex l Hm) as (He & Hmr & _). fold r in He, Hmr.
  pose proof (fexp_emin (Zdigits2 mx + ex)). pose proof (fexp_prec (Zdigits2 mx + ex)).
  split; [| lia]. rewrite Hmr.
  assert (Hn : 0 <= r.2 - ex) by lia.
  assert (Hd : mx < 2 ^ Zdigits2 mx).
  { destruct mx as [| p | p]; [done | | lia]. apply digits2_pos_bounds. }
  assert (Hd0 : 0 <= Zdigits2 mx) by (destruct mx; cbn; lia).
  apply Z.div_lt_upper_bound; [apply Z.pow_pos_nonneg; lia |].
  rewrite <- Z.pow_add_r by lia.
  eapply Z.lt_le_trans; [exact Hd |]. apply Z.pow_le_mono_r; lia.
Qed.

(** The rounded result is a number of the format. *)
Lemma binary_round_aux_in_format (s : bool) (mx ex : Z) (lx : location) :
  0 <= mx -> in_format prec emax (binary_round_aux prec emax s mx ex lx).
Proof.
  intros Hm. unfold binary_round_aux.
  pose proof (shr_fexp_value mx ex lx Hm) as H1. cbv zeta in H1.
  destruct (shr_fexp prec emax mx ex lx) as [mrs' e']. cbn [fst snd] in H1.
  destruct H1 as (H1 & _).
  pose proof (round_nearest_even_bounds (shr_m mrs') (loc_of_shr_record mrs')) as Hr.
  set (m1 := round_nearest_even (shr_m mrs') (loc_of_shr_record mrs')) in *.
  pose proof (shr_fexp_digits m1 e' loc_Exact ltac:(lia)) as H2. cbv zeta in H2.
  destruct (shr_fexp prec emax m1 e' loc_Exact) as [mrs'' e'']. cbn [fst snd] in H2.
  destruct (shr_m mrs'') as [| m | m]; [done | | done].
  destruct (e'' <=? emax - prec); [| done]. cbn [in_format].
  split; [| lia]. apply Zdigits2_le; lia.
Qed.

(** Rounding a non-negative value, given as [mx * 2 ^ ex] with a
    location, goes up by at most one unit of the exponent it is rounded
    at. The location must be exact unless the value is given at or below
    that exponent. *)
Lemma binary_round_aux_upper (mx ex : Z) (lx : location) (U : Q) :
  0 <= mx ->
  lx = loc_Exact \/ ex <= fexp prec emax (Zdigits2 mx + ex) ->
  (inject_Z mx * q2 ex + q2 (fexp prec emax (Zdigits2 mx + ex)) <= U)%Q ->
  (U < q2 (emax - prec + 1))%Q ->
  let r := binary_round_aux prec emax false mx ex lx in
  nonneg_finite r /\ (SF2Q r <= U)%Q.
Proof.
  intros Hm Hloc HU Hbig r. subst r. unfold binary_round_aux.
  set (g := fexp prec emax (Zdigits2 mx + ex)) in *.
  pose proof (shr_fexp_spec mx ex lx Hm) as H1. cbv zeta in H1. fold g in H1.
  pose proof (shr_fexp_value mx ex lx Hm) as H1'. cbv zeta in H1'.
  destruct (shr_fexp prec emax mx ex lx) as [mrs' e']. cbn [fst snd] in H1, H1'.
  destruct H1 as (He' & Hm' & Hsame). destruct H1' as (Hm0 & Hval & Hex).
  pose proof (round_nearest_even_bounds (shr_m mrs') (loc_of_shr_record mrs')) as Hr.
  set (m1 := round_nearest_even (shr_m mrs') (loc_of_shr_record mrs')) in *.
  pose proof (q2_pos g) as Hg. pose proof (q2_pos ex) as Hqex. pose proof (q2_pos e') as Hqe'.
  assert (Hm1 : (inject_Z m1 * q2 e' <= U)%Q).
  { destruct (Z.le_gt_cases ex g) as [Hshift | Hnoshift].
    - (* rounded at exponent g *)
      replace e' with g in * by lia.
      assert (inject_Z m1 <= inject_Z (shr_m mrs') + 1)%Q.
      { rewrite <- (inject_Z_plus _ 1). rewrite <- Zle_Qle. lia. }
      nra.
    - (* no shift: the location is exact *)
      destruct Hloc as [-> | Hle]; [| lia].
      replace e' with ex in * by lia.
      assert (Hmx : m1 = mx).
      { subst m1. rewrite Hsame by lia. cbn. done. }
      rewrite Hmx. lra. }
  pose proof (shr_fexp_value m1 e' loc_Exact ltac:(lia)) as H2. cbv zeta in H2.
  destruct (shr_fexp prec emax m1 e' loc_Exact) as [mrs'' e'']. cbn [fst snd] in H2.
  destruct H2 as (H2a & H2b & H2c).
  destruct (shr_m mrs'') as [| m | m] eqn:Em; [| | lia].
  - cbn. split; [done |]. pose proof (inject_Z_nonneg mx Hm). nra.
  - assert (He : e'' <= emax - prec).
    { assert (Hq : (q2 e'' < q2 (emax - prec + 1))%Q).
      { pose proof (q2_pos e'') as Hq.
        assert (1 <= inject_Z (Zpos m))%Q by (change 1%Q with (inject_Z 1); rewrite <- Zle_Qle; lia).
        nra. }
      apply q2_lt_inv in Hq. lia. }
    destruct (Z.leb_spec e'' (emax - prec)); [| lia].
    cbn. split; [done | lra].
Qed.

(** A value whose mantissa already sits at the exponent of the format is
    not changed. *)
Lemma binary_round_aux_exact (s : bool) (m : positive) (ex : Z) :
  fexp prec emax (Zdigits2 (Zpos m) + ex) <= ex -> ex <= emax - prec ->
  binary_round_aux prec emax s (Zpos m) ex loc_Exact = S754_finite s m ex.
Proof.
  intros Hg He. unfold binary_round_aux.
  assert (Hshr : shr_fexp prec emax (Zpos m) ex loc_Exact
                 = (shr_record_of_loc (Zpos m) loc_Exact, ex)).
  { unfold shr_fexp, shr. destruct (_ - ex) as [| p | p] eqn:En; [done | lia | done]. }
  rewrite Hshr. cbn [shr_record_of_loc shr_m loc_of_shr_record round_nearest_even].
  change {| shr_m := Zpos m; shr_r := false; shr_s := false |}
    with (shr_record_of_loc (Zpos m) loc_Exact) in Hshr.
  rewrite Hshr. cbn [shr_record_of_loc shr_m].
  destruct (Z.leb_spec ex (emax - prec)); [done | lia].
Qed.

(** The unit of the rounding exponent against the value. *)
Lemma rounding_unit (mx ex : Z) :
  1 <= mx ->
  (q2 (fexp prec emax (Zdigits2 mx + ex))
   <= inject_Z mx * q2 ex * q2 (1 - prec) + q2 (emin prec emax))%Q.
Proof.
  intros Hm. unfold fexp. fold (emin prec emax).
  eapply Qle_trans; [apply q2_max |].
  pose proof (q2_pos (emin prec emax)).
  destruct mx as [| p | p]; [lia | | lia]. cbn [Zdigits2].
  pose proof (digits2_pos_bounds p) as [Hlo _].
  set (d := Zpos (digits2_pos p)) in *.
  assert (Hd : 1 <= d) by (subst d; lia).
  replace (d + ex - prec) with ((1 - prec) + (ex + (d - 1))) by lia.
  rewrite q2_add.
  assert (Hs : (inject_Z 1 * q2 (ex + (d - 1)) <= inject_Z (Zpos p) * q2 ex)%Q).
  { apply scale_le; lia. }
  pose proof (q2_pos (1 - prec)). change (inject_Z 1) with 1%Q in Hs.
  nra.
Qed.

Lemma SF2Q_nonneg (x : spec_float) : nonneg_finite x -> (0 <= SF2Q x)%Q.
Proof.
  destruct x as [| | | [] m e]; try done. intros _. cbn.
  pose proof (q2_pos e). assert (0 <= inject_Z (Zpos m))%Q by (by apply inject_Z_nonneg).
  nra.
Qed.

(** A product: relative error [2 ^ (1 - prec)], absolute error
    [2 ^ emin]. *)
Lemma SFmul_upper (x y : spec_float) (X Y U : Q) :
  nonneg_finite x -> nonneg_finite y ->
  (SF2Q x <= X)%Q -> (SF2Q y <= Y)%Q ->
  (X * Y * (1 + q2 (1 - prec)) + q2 (emin prec emax) <= U)%Q ->
  (U < q2 (emax - prec + 1))%Q ->
  nonneg_finite (SFmul prec emax x y) /\ (SF2Q (SFmul prec emax x y) <= U)%Q.
Proof.
  intros Hx Hy HX HY HU Hbig.
  pose proof (SF2Q_nonneg x Hx) as Hx0. pose proof (SF2Q_nonneg y Hy) as Hy0.
  pose proof (q2_pos (1 - prec)) as Heps. pose proof (q2_pos (emin prec emax)) as Hdelta.
  assert (HXY : (SF2Q x * SF2Q y <= X * Y)%Q).
  { apply Qle_trans with (SF2Q x * Y)%Q.
    - rewrite !(Qmult_comm (SF2Q x)). by apply Qmult_le_compat_r.
    - apply Qmult_le_compat_r; [done | lra]. }
  assert (HV0 : (0 <= SF2Q x * SF2Q y)%Q) by (by apply Qmult_le_0_compat).
  set (P := (X * Y)%Q) in *.
  assert (HU0 : (0 <= U)%Q) by nra.
  destruct x as [sx | | | [] mx ex], y as [sy | | | [] my ey]; try done.
  cbn [SFmul xorb]. cbn [SF2Q cond_Zopp] in *.
  apply binary_round_aux_upper; [lia | by left | | done].
  pose proof (rounding_unit (Zpos (mx * my)) (ex + ey) ltac:(lia)) as Hunit.
  set (u := q2 (fexp prec emax _)) in *.
  assert (Hval : (inject_Z (Zpos (mx * my)) * q2 (ex + ey)
                  == inject_Z (Zpos mx) * q2 ex * (inject_Z (Zpos my) * q2 ey))%Q).
  { rewrite Pos2Z.inj_mul, inject_Z_mult, q2_add. ring. }
  rewrite Hval in *.
  set (V := (inject_Z (Zpos mx) * q2 ex * (inject_Z (Zpos my) * q2 ey))%Q) in *.
  nra.
Qed.

(** A non-negative integer times a power of two, normalized. *)
Lemma binary_normalize_upper (m e : Z) (U : Q) :
  0 <= m ->
  (inject_Z m * q2 e * (1 + q2 (1 - prec)) + q2 (emin prec emax) <= U)%Q ->
  (U < q2 (emax - prec + 1))%Q ->
  nonneg_finite (binary_normalize prec emax m e false)
  /\ (SF2Q (binary_normalize prec emax m e false) <= U)%Q.
Proof.
  intros Hm HU Hbig.
  pose proof (q2_pos (1 - prec)) as Heps. pose proof (q2_pos (emin prec emax)) as Hdelta.
  pose proof (q2_pos e) as He.
  destruct m as [| p | p]; [| | lia].
  - cbn. split; [done |].
    assert (E : (inject_Z 0 * q2 e * (1 + q2 (1 - prec)) == 0)%Q) by (cbn; ring).
    rewrite E in HU. lra.
  - cbn [binary_normalize]. unfold binary_round.
    pose proof (shl_align_spec p e (fexp prec emax (Zpos (digits2_pos p) + e))) as H.
    cbv zeta in H. destruct (shl_align _ _ _) as [mz ez]. cbn [fst snd] in H.
    destruct H as [Hez Hmz].
    apply binary_round_aux_upper; [lia | by left | | done].
    pose proof (rounding_unit (Zpos mz) ez ltac:(lia)) as Hunit.
    assert (Hval : (inject_Z (Zpos mz) * q2 ez == inject_Z (Zpos p) * q2 e)%Q).
    { rewrite Hmz, inject_Z_mult, q2_Z by lia.
      replace e with (ez + (e - ez)) at 2 by lia. rewrite q2_add.
      replace (ez + (e - ez) - ez) with (e - ez) by lia. ring. }
    set (u := q2 (fexp prec emax _)) in *.
    rewrite Hval in *.
    assert (0 <= inject_Z (Zpos p))%Q by (by apply inject_Z_nonneg).
    set (V := (inject_Z (Zpos p) * q2 e)%Q) in *.
    assert (0 <= V)%Q by (subst V; nra).
    nra.
Qed.

Lemma binary_round_in_format (s : bool) (m : positive) (e : Z) :
  in_format prec emax (binary_round prec emax s m e).
Proof.
  unfold binary_round. destruct (shl_align _ _ _) as [mz ez].
  by apply binary_round_aux_in_format.
Qed.

Lemma binary_normalize_in_format (m e : Z) (s : bool) :
  in_format prec emax (binary_normalize prec emax m e s).
Proof. destruct m; [done | |]; apply binary_round_in_format. Qed.

Lemma SFadd_in_format (x y : spec_float) :
  in_format prec emax x -> in_format prec emax y ->
  in_format prec emax (SFadd prec emax x y).
Proof.
  intros Hx Hy.
  destruct x as [[] | [] | | sx mx ex], y as [[] | [] | | sy my ey]; try done.
  apply binary_normalize_in_format.
Qed.

Lemma SFsub_in_format (x y : spec_float) :
  in_format prec emax x -> in_format prec emax y ->
  in_format prec emax (SFsub prec emax x y).
Proof.
  intros Hx Hy.
  destruct x as [[] | [] | | sx mx ex], y as [[] | [] | | sy my ey]; try done.
  apply binary_normalize_in_format.
Qed.

Lemma SFdiv_in_format (x y : spec_float) : in_format prec emax (SFdiv prec emax x y).
Proof.
  destruct x as [[] | [] | | sx mx ex], y as [[] | [] | | sy my ey]; try done.
  cbn [SFdiv]. unfold SFdiv_core_binary.
  destruct (Z.div_eucl _ _) as [q r] eqn:Ediv.
  apply binary_round_aux_in_format.
  set (m' := match _ with Z0 => _ | _ => _ end) in Ediv.
  assert (0 <= m').
  { subst m'. destruct (_ - _ - _) as [| p | p]; [lia | | lia].
    apply Z.shiftl_nonneg. lia. }
  pose proof (Z.div_eucl_eq m' (Zpos my) ltac:(lia)) as Hq.
  pose proof (Z.mod_pos_bound m' (Zpos my) ltac:(lia)) as Hr.
  unfold Z.modulo in Hr. rewrite Ediv in Hq, Hr. nia.
Qed.

Lemma Zdigits2_upper (q : Z) : 0 <= q -> q < 2 ^ Zdigits2 q.
Proof.
  intros Hq. destruct q as [| p | p]; [done | | lia]. apply digits2_pos_bounds.
Qed.

Lemma Zdigits2_nonneg (q : Z) : 0 <= Zdigits2 q.
Proof. destruct q; cbn; lia. Qed.

(** A quotient by a positive number. *)
Lemma SFdiv_upper (x : spec_float) (my : positive) (ey : Z) (X Ylow U : Q) :
  nonneg_finite x -> (SF2Q x <= X)%Q ->
  (0 < Ylow)%Q -> (Ylow <= SF2Q (S754_finite false my ey))%Q ->
  (X / Ylow * (1 + q2 (1 - prec)) + q2 (emin prec emax) <= U)%Q ->
  (U < q2 (emax - prec + 1))%Q ->
  nonneg_finite (SFdiv prec emax x (S754_finite false my ey))
  /\ (SF2Q (SFdiv prec emax x (S754_finite false my ey)) <= U)%Q.
Proof.
  intros Hx HX HY0 HY HU Hbig.
  pose proof (SF2Q_nonneg x Hx) as Hx0.
  pose proof (q2_pos (1 - prec)) as Heps. pose proof (q2_pos (emin prec emax)) as Hdelta.
  assert (HW0 : (0 <= X / Ylow)%Q).
  { apply Qle_shift_div_l; [done | lra]. }
  set (W := (X / Ylow)%Q) in *.
  assert (HU0 : (0 <= U)%Q) by nra.
  destruct x as [sx | | | [] mx ex]; try done.
  cbn [SFdiv xorb]. unfold SFdiv_core_binary. cbn [Zdigits2].
  set (d1 := Zpos (digits2_pos mx)). set (d2 := Zpos (digits2_pos my)).
  set (D := d1 + ex - (d2 + ey)).
  set (e' := Z.min (fexp prec emax D) (ex - ey)).
  set (s := ex - ey - e').
  assert (Hs : 0 <= s) by (subst s e'; lia).
  set (m' := match s with Z0 => Zpos mx | Zpos _ => Z.shiftl (Zpos mx) s | Zneg _ => 0 end).
  assert (Hm' : m' = Zpos mx * 2 ^ s).
  { subst m'. destruct s as [| p | p] eqn:Es; [lia | | lia].
    rewrite Z.shiftl_mul_pow2; lia. }
  pose proof (Z.div_eucl_eq m' (Zpos my) ltac:(lia)) as Hq.
  pose proof (Z.mod_pos_bound m' (Zpos my) ltac:(lia)) as Hr.
  unfold Z.modulo in Hr. destruct (Z.div_eucl m' (Zpos my)) as [q r].
  assert (H2s : 0 < 2 ^ s) by (apply Z.pow_pos_nonneg; lia).
  assert (Hq0 : 0 <= q) by nia.
  pose proof (digits2_pos_bounds mx) as [Hd1 _]. fold d1 in Hd1.
  pose proof (digits2_pos_bounds my) as [_ Hd2]. fold d2 in Hd2.
  assert (Hd1' : 1 <= d1) by (subst d1; lia).
  assert (Hd2' : 1 <= d2) by (subst d2; lia).
  pose proof (Zdigits2_upper q Hq0) as Hdq. pose proof (Zdigits2_nonneg q) as Hdq0.
  (* the quotient has enough digits *)
  assert (HD : D <= Zdigits2 q + e').
  { assert (Hlt : 2 ^ (d1 - 1 + s) < 2 ^ (Zdigits2 q + d2)).
    { rewrite !Z.pow_add_r by lia.
      assert (q + 1 <= 2 ^ Zdigits2 q) by lia.
      assert (0 < 2 ^ Zdigits2 q) by (apply Z.pow_pos_nonneg; lia).
      nia. }
    apply Z.pow_lt_mono_r_iff in Hlt; [| lia | lia]. subst D s. lia. }
  assert (Hloc : e' <= fexp prec emax (Zdigits2 q + e')).
  { pose proof (fexp_le prec emax D (Zdigits2 q + e') HD). subst e'. lia. }
  (* the value of the quotient *)
  assert (Hval : (inject_Z q * q2 e' <= W)%Q).
  { pose proof (q2_pos e') as He'. pose proof (inject_Z_nonneg q Hq0) as Hq'.
    subst W. apply Qle_shift_div_l; [done |].
    apply Qle_trans with (SF2Q (S754_finite false mx ex)); [| done].
    apply Qle_trans with (inject_Z q * q2 e' * SF2Q (S754_finite false my ey))%Q.
    { rewrite !(Qmult_comm (inject_Z q * q2 e')). apply Qmult_le_compat_r; [done | nra]. }
    cbn [SF2Q cond_Zopp].
    assert (H1 : (inject_Z (q * Zpos my) * q2 ((e' + ey) + s)
                  <= inject_Z (Zpos mx * 2 ^ s) * q2 (e' + ey + s))%Q).
    { pose proof (q2_pos (e' + ey + s)).
      apply Qmult_le_compat_r; [| lra]. rewrite <- Zle_Qle. nia. }
    rewrite !inject_Z_mult, q2_Z in H1 by done.
    replace (e' + ey + s) with ex in H1 by (subst s; lia).
    assert (E : (q2 ex == q2 e' * q2 ey * q2 s)%Q).
    { rewrite <- !q2_add. by replace (e' + ey + s) with ex by (subst s; lia). }
    pose proof (q2_pos s). pose proof (q2_pos ey). pose proof (q2_pos ex).
    set (Q1 := inject_Z q) in *. set (M1 := inject_Z (Zpos mx)) in *.
    set (M2 := inject_Z (Zpos my)) in *.
    assert (Hc : (Q1 * M2 * (q2 e' * q2 ey * q2 s) <= M1 * q2 s * (q2 e' * q2 ey * q2 s))%Q)
      by (by rewrite <- E).
    assert (Hpos : (0 < q2 e' * q2 ey * q2 s)%Q) by (rewrite <- E; done).
    assert (Hc' : (Q1 * M2 * (q2 e' * q2 ey) * q2 s <= M1 * (q2 e' * q2 ey * q2 s) * q2 s)%Q)
      by nra.
    apply Qmult_lt_0_le_reg_r in Hc'; [| done].
    rewrite E. nra. }
  (* the unit of the rounding exponent *)
  assert (Hunit : (q2 (fexp prec emax (Zdigits2 q + e'))
                   <= inject_Z q * q2 e' * q2 (1 - prec) + q2 (emin prec emax))%Q).
  { destruct (Z.eq_dec q 0) as [-> | Hne].
    - cbn [Zdigits2]. rewrite Z.add_0_l.
      assert (He'min : e' <= emin prec emax).
      { cbn [Zdigits2] in HD. subst e'. unfold fexp in *. lia. }
      assert (E : fexp prec emax e' = emin prec emax) by (unfold fexp; lia).
      rewrite E. change (inject_Z 0) with 0%Q.
      set (a := q2 e'). set (b := q2 (1 - prec)). lra.
    - apply rounding_unit. lia. }
  apply binary_round_aux_upper; [done | by right | | done].
  pose proof (q2_pos e'). pose proof (inject_Z_nonneg q Hq0).
  set (u := q2 (fexp prec emax _)) in *.
  set (V := (inject_Z q * q2 e')%Q) in *.
  assert (0 <= V)%Q by (subst V; nra).
  nra.
Qed.

(** The aligned mantissas of a sum or difference. *)
Lemma shl_align_value (m : positive) (e ez : Z) :
  ez <= e ->
  (shl_align m e ez).2 = ez
  /\ (inject_Z (Zpos (shl_align m e ez).1) * q2 ez == inject_Z (Zpos m) * q2 e)%Q.
Proof.
  intros Hle. pose proof (shl_align_spec m e ez) as [_ Hm]. cbv zeta in Hm.
  assert (E : (shl_align m e ez).2 = ez).
  { unfold shl_align. destruct (ez - e) eqn:En; cbn [snd]; lia. }
  split; [done |]. rewrite Hm, E, inject_Z_mult, q2_Z by lia.
  replace e with (ez + (e - ez)) at 2 by lia. rewrite q2_add. ring.
Qed.

(** A sum of a number [x >= - y] and a non-negative number [y]. *)
Lemma SFadd_upper (x y : spec_float) (X Y U : Q) :
  is_finite x = true -> nonneg_finite y ->
  (- SF2Q y <= SF2Q x)%Q -> (SF2Q x <= X)%Q -> (SF2Q y <= Y)%Q ->
  ((X + Y) * (1 + q2 (1 - prec)) + q2 (emin prec emax) <= U)%Q ->
  (U < q2 (emax - prec + 1))%Q ->
  nonneg_finite (SFadd prec emax x y) /\ (SF2Q (SFadd prec emax x y) <= U)%Q.
Proof.
  intros Hx Hy Hlow HX HY HU Hbig.
  pose proof (SF2Q_nonneg y Hy) as Hy0.
  pose proof (q2_pos (1 - prec)) as Heps. pose proof (q2_pos (emin prec emax)) as Hdelta.
  set (P := (X + Y)%Q) in *. assert (HP : (SF2Q x + SF2Q y <= P)%Q) by (subst P; lra).
  assert (HU0 : (SF2Q x + SF2Q y <= U)%Q) by nra.
  destruct x as [sx | | | sx mx ex], y as [sy | | | [] my ey]; try done.
  - cbn [SFadd]. destruct sx, sy; cbn; lra.
  - cbn [SFadd]. split; [done |]. cbn [SF2Q] in *. lra.
  - cbn [SFadd]. cbn [SF2Q] in *.
    destruct sx; [| split; [done | lra]].
    exfalso. cbn [cond_Zopp] in Hlow. pose proof (q2_pos ex).
    assert (0 < inject_Z (Zpos mx))%Q by (change 0%Q with (inject_Z 0); rewrite <- Zlt_Qlt; lia).
    rewrite inject_Z_opp in Hlow. nra.
  - cbn [SFadd]. set (ez := Z.min ex ey).
    destruct (shl_align_value mx ex ez ltac:(lia)) as [_ H1].
    destruct (shl_align_value my ey ez ltac:(lia)) as [_ H2].
    set (a := Zpos (shl_align mx ex ez).1) in *. set (b := Zpos (shl_align my ey ez).1) in *.
    cbn [SF2Q cond_Zopp] in *. pose proof (q2_pos ez) as Hez.
    assert (Hsum : (inject_Z (cond_Zopp sx a + b) * q2 ez
                    == inject_Z (cond_Zopp sx (Zpos mx)) * q2 ex
                       + inject_Z (Zpos my) * q2 ey)%Q).
    { rewrite inject_Z_plus. destruct sx; cbn [cond_Zopp]; rewrite ?inject_Z_opp; lra. }
    assert (Hm : 0 <= cond_Zopp sx a + b).
    { rewrite Zle_Qle. change (inject_Z 0) with 0%Q.
      set (M := inject_Z (cond_Zopp sx a + b)) in *.
      destruct (Qlt_le_dec M 0) as [Hneg | Hpos]; [| done]. nra. }
    apply binary_normalize_upper; [done | | done].
    rewrite Hsum. nra.
Qed.

(** A difference [x - y] with [0 <= y <= x]. *)
Lemma SFsub_upper (mx : positive) (ex : Z) (y : spec_float) (X U : Q) :
  nonneg_finite y ->
  (SF2Q y <= SF2Q (S754_finite false mx ex))%Q ->
  (SF2Q (S754_finite false mx ex) <= X)%Q ->
  (X * (1 + q2 (1 - prec)) + q2 (emin prec emax) <= U)%Q ->
  (U < q2 (emax - prec + 1))%Q ->
  nonneg_finite (SFsub prec emax (S754_finite false mx ex) y)
  /\ (SF2Q (SFsub prec emax (S754_finite false mx ex) y) <= U)%Q.
Proof.
  intros Hy Hle HX HU Hbig.
  pose proof (SF2Q_nonneg y Hy) as Hy0.
  pose proof (q2_pos (1 - prec)) as Heps. pose proof (q2_pos (emin prec emax)) as Hdelta.
  assert (HX0 : (0 <= X)%Q) by lra.
  destruct y as [sy | | | [] my ey]; try done.
  - cbn [SFsub]. split; [done |]. nra.
  - cbn [SFsub]. set (ez := Z.min ex ey).
    destruct (shl_align_value mx ex ez ltac:(lia)) as [_ H1].
    destruct (shl_align_value my ey ez ltac:(lia)) as [_ H2].
    set (a := Zpos (shl_align mx ex ez).1) in *. set (b := Zpos (shl_align my ey ez).1) in *.
    cbn [SF2Q cond_Zopp] in *. pose proof (q2_pos ez) as Hez.
    assert (Hdiff : (inject_Z (a - b) * q2 ez
                     == inject_Z (Zpos mx) * q2 ex - inject_Z (Zpos my) * q2 ey)%Q).
    { unfold Z.sub. rewrite inject_Z_plus, inject_Z_opp. lra. }
    assert (Hm : 0 <= a - b).
    { rewrite Zle_Qle. change (inject_Z 0) with 0%Q.
      set (M := inject_Z (a - b)) in *.
      destruct (Qlt_le_dec M 0) as [Hneg | Hpos]; [| done]. nra. }
    apply binary_normalize_upper; [done | | done].
    rewrite Hdiff. nra.
Qed.

(** Normalizing a mantissa of the format is exact. *)
Lemma digits2_pos_iter (m : positive) (k : positive) :
  digits2_pos (Pos.iter xO m k) = (digits2_pos m + k)%positive.
Proof.
  induction k as [| k IH] using Pos.peano_ind.
  - cbn. lia.
  - rewrite Pos.iter_succ. cbn [digits2_pos]. rewrite IH. lia.
Qed.

Lemma binary_round_exact (s : bool) (m : positive) (e : Z) :
  Zdigits2 (Zpos m) <= prec -> emin prec emax <= e -> e <= emax - prec ->
  exists mz ez,
    binary_round prec emax s m e = S754_finite s mz ez
    /\ (inject_Z (Zpos mz) * q2 ez == inject_Z (Zpos m) * q2 e)%Q.
Proof.
  intros Hd He Hemax. unfold binary_round. cbn [Zdigits2] in Hd.
  set (ex' := fexp prec emax (Zpos (digits2_pos m) + e)).
  assert (Hex' : ex' <= e) by (subst ex'; unfold fexp; lia).
  destruct (shl_align_value m e ex' Hex') as [E2 Hval].
  destruct (shl_align m e ex') as [mz ez] eqn:Esh. cbn [fst snd] in *. subst ez.
  exists mz, ex'. split; [| done].
  apply binary_round_aux_exact; [| lia].
  cbn [Zdigits2].
  assert (Hdig : Zpos (digits2_pos mz) + ex' = Zpos (digits2_pos m) + e).
  { unfold shl_align in Esh. destruct (ex' - e) as [| p | p] eqn:En.
    - injection Esh as <-. lia.
    - lia.
    - injection Esh as <-. rewrite digits2_pos_iter. lia. }
  rewrite Hdig. fold ex'. lia.
Qed.

End RoundingError.

(** *** Double precision *)

Lemma Zdigits2_mono (a b : Z) : 0 <= a <= b -> Zdigits2 a <= Zdigits2 b.
Proof.
  intros [Ha Hab]. apply Zdigits2_le; [done | apply Zdigits2_nonneg |].
  pose proof (Zdigits2_upper b ltac:(lia)). lia.
Qed.

(** [fmod] by a positive number of the format is exact: the result is a
    number of the format strictly inside [(- y, y)], with the sign of [x]. *)
Lemma fmod_range (x : spec_float) (my : positive) (ey : Z) :
  let y := S754_finite false my ey in
  let t := Double.fmod x y in
  is_finite x = true ->
  in_format Double.prec Double.emax x -> in_format Double.prec Double.emax y ->
  ey <= Double.emax - Double.prec ->
  is_finite t = true /\ in_format Double.prec Double.emax t
  /\ (- SF2Q y < SF2Q t)%Q /\ (SF2Q t < SF2Q y)%Q
  /\ (nonneg_finite x -> nonneg_finite t).
Proof.
  intros y t Hfin Hx Hy Hey. subst y t.
  assert (HY : (0 < SF2Q (S754_finite false my ey))%Q).
  { cbn. pose proof (q2_pos ey).
    assert (0 < inject_Z (Zpos my))%Q by (change 0%Q with (inject_Z 0); rewrite <- Zlt_Qlt; lia).
    nra. }
  destruct x as [sx | | | sx mx ex]; try done.
  { cbn [Double.fmod]. change (SF2Q (S754_zero sx)) with 0%Q.
    repeat split; try done; lra. }
  cbn [Double.fmod]. cbn [in_format Zdigits2] in Hx, Hy.
  destruct Hx as [Hdx Hex], Hy as [Hdy Hey'].
  set (e := Z.min ex ey).
  rewrite !Z.shiftl_mul_pow2 by lia.
  set (A := Zpos mx * 2 ^ (ex - e)). set (B := Zpos my * 2 ^ (ey - e)).
  assert (HA : 0 < A) by (subst A; apply Z.mul_pos_pos; [lia | apply Z.pow_pos_nonneg; lia]).
  assert (HB : 0 < B) by (subst B; apply Z.mul_pos_pos; [lia | apply Z.pow_pos_nonneg; lia]).
  pose proof (Z.rem_bound_pos A B ltac:(lia) HB) as [Hr0 HrB].
  pose proof (Z.rem_le A B ltac:(lia) HB) as HrA.
  set (r := Z.rem A B) in *.
  assert (HBval : (inject_Z B * q2 e == inject_Z (Zpos my) * q2 ey)%Q).
  { subst B. rewrite inject_Z_mult, q2_Z by lia.
    replace ey with (e + (ey - e)) at 2 by lia. rewrite q2_add. ring. }
  pose proof (q2_pos e) as Hqe.
  assert (Hrval : (inject_Z r * q2 e < SF2Q (S754_finite false my ey))%Q).
  { cbn [SF2Q cond_Zopp]. rewrite <- HBval.
    assert (inject_Z r < inject_Z B)%Q by (by rewrite <- Zlt_Qlt). nra. }
  destruct (Z.eq_dec r 0) as [Er | Hne].
  { rewrite Er. replace (cond_Zopp sx 0) with 0 by (by destruct sx).
    cbn [binary_normalize]. change (SF2Q (S754_zero sx)) with 0%Q.
    repeat split; try done; lra. }
  assert (Hdr : Zdigits2 r <= Double.prec).
  { destruct (Z.le_ge_cases ex ey) as [Hle | Hge].
    - assert (A = Zpos mx).
      { subst A e. rewrite Z.min_l, Z.sub_diag by done. cbn. lia. }
      etransitivity; [apply (Zdigits2_mono r (Zpos mx)); lia | done].
    - assert (B = Zpos my).
      { subst B e. rewrite Z.min_r, Z.sub_diag by lia. cbn. lia. }
      etransitivity; [apply (Zdigits2_mono r (Zpos my)); lia | done]. }
  destruct r as [| p | p] eqn:Ep; [done | | lia].
  assert (Hexact : forall s, exists mz ez,
            binary_round Double.prec Double.emax s p e = S754_finite s mz ez
            /\ (inject_Z (Zpos mz) * q2 ez == inject_Z (Zpos p) * q2 e)%Q).
  { intros s. apply binary_round_exact; [done | subst e; lia | subst e; lia]. }
  assert (Hform : forall s, in_format Double.prec Double.emax
                              (binary_round Double.prec Double.emax s p e))
    by (intros s; apply (binary_round_in_format Double.prec Double.emax eq_refl)).
  destruct sx; cbn [cond_Zopp]; [change (- Zpos p) with (Zneg p) |];
    cbn [binary_normalize].
  - destruct (Hexact true) as (mz & ez & E & Hval). specialize (Hform true).
    rewrite E in *. split; [done |]. split; [done |].
    cbn [SF2Q cond_Zopp] in *. rewrite inject_Z_opp.
    assert (0 < inject_Z (Zpos p))%Q by (change 0%Q with (inject_Z 0); rewrite <- Zlt_Qlt; lia).
    repeat split; try done; nra.
  - destruct (Hexact false) as (mz & ez & E & Hval). specialize (Hform false).
    rewrite E in *. split; [done |]. split; [done |].
    cbn [SF2Q cond_Zopp] in *.
    assert (0 < inject_Z (Zpos p))%Q by (change 0%Q with (inject_Z 0); rewrite <- Zlt_Qlt; lia).
    repeat split; try done; nra.
Qed.

(** Truncation of a non-negative number. *)
Lemma trunc_floor (x : spec_float) :
  nonneg_finite x ->
  exists z, Fp.trunc x = Some z /\ 0 <= z /\ (inject_Z z <= SF2Q x)%Q.
Proof.
  destruct x as [s | | | [] m e]; try done; intros _.
  { exists 0. split; [done |]. split; [done |].
    change (SF2Q (S754_zero s)) with 0%Q. change (inject_Z 0) with 0%Q. lra. }
  cbn [Fp.trunc cond_Zopp SF2Q]. eexists. split; [done |].
  destruct (Z.leb_spec 0 e).
  - rewrite Z.shiftl_mul_pow2 by lia.
    split; [apply Z.mul_nonneg_nonneg; [lia | apply Z.pow_nonneg; lia] |].
    rewrite inject_Z_mult, q2_Z by done. lra.
  - rewrite Z.shiftr_div_pow2 by lia.
    assert (Hp : 0 < 2 ^ (- e)) by (apply Z.pow_pos_nonneg; lia).
    split; [apply Z.div_pos; lia |].
    pose proof (scale_le (Zpos m / 2 ^ (- e)) (Zpos m) (- e) e ltac:(lia)) as Hs.
    replace (e + - e) with 0 in Hs by lia.
    assert (E : (q2 0 == 1)%Q) by done. rewrite E in Hs.
    rewrite Qmult_1_r in Hs. apply Hs.
    rewrite Z.mul_comm. apply Z.mul_div_le. done.
Qed.

(** Lines 72-73 on a border in [0, 2 pi]: the hundredths of a degree lie
    in [0, 36000]. *)
Lemma to_hardware_angle_range (tmp : spec_float) :
  nonneg_finite tmp -> (SF2Q tmp <= SF2Q two_pi)%Q ->
  0 <= to_hardware_angle tmp <= 36000.
Proof.
  intros Htmp Hle. unfold to_hardware_angle.
  assert (Etp : two_pi = S754_finite false 7074237752028440 (-50))
    by (vm_compute; reflexivity).
  rewrite Etp in *.
  unfold Double.add, Double.div, Double.mul, Double.sub.
  set (s := SFsub Double.prec Double.emax _ tmp).
  destruct (SFsub_upper Double.prec Double.emax 7074237752028440 (-50) tmp
              (SF2Q (S754_finite false 7074237752028440 (-50))) (62831854 # 10000000)
              Htmp Hle ltac:(apply Qle_refl) ltac:(by vm_compute) ltac:(by vm_compute))
    as [Hs Hs'].
  fold s in Hs, Hs'.
  set (a1 := SFmul Double.prec Double.emax (Double.of_int 100) s).
  destruct (SFmul_upper Double.prec Double.emax (Double.of_int 100) s 100
              (62831854 # 10000000) (62831855 # 100000)
              ltac:(by vm_compute) Hs ltac:(by vm_compute) Hs'
              ltac:(by vm_compute) ltac:(by vm_compute)) as [H1 H1'].
  fold a1 in H1, H1'.
  set (a2 := SFmul Double.prec Double.emax a1 (Double.of_int 180)).
  destruct (SFmul_upper Double.prec Double.emax a1 (Double.of_int 180)
              (62831855 # 100000) 180 (11309734 # 100)
              H1 ltac:(by vm_compute) H1' ltac:(by vm_compute)
              ltac:(by vm_compute) ltac:(by vm_compute)) as [H2 H2'].
  fold a2 in H2, H2'.
  set (a3 := SFdiv Double.prec Double.emax a2 Double.M_PI).
  destruct (SFdiv_upper Double.prec Double.emax eq_refl a2 7074237752028440 (-51)
              (11309734 # 100) (31415926 # 10000000) (3600001 # 100)
              H2 H2' ltac:(by vm_compute) ltac:(by vm_compute)
              ltac:(by vm_compute) ltac:(by vm_compute)) as [H3 H3'].
  change (S754_finite false 7074237752028440 (-51)) with Double.M_PI in H3, H3'.
  fold a3 in H3, H3'.
  set (a4 := SFadd Double.prec Double.emax a3 (Double.lit 1 2)).
  assert (H3fin : is_finite a3 = true) by (by destruct a3 as [| | | []]).
  pose proof (SF2Q_nonneg a3 H3) as H3nn.
  assert (Hhalf : (SF2Q (Double.lit 1 2) == 1 # 2)%Q) by (by vm_compute).
  destruct (SFadd_upper Double.prec Double.emax a3 (Double.lit 1 2)
              (3600001 # 100) (1 # 2) (360006 # 10)
              H3fin ltac:(by vm_compute)) as [H4 H4'].
  { lra. }
  { done. }
  { lra. }
  { by vm_compute. }
  { by vm_compute. }
  fold a4 in H4, H4'.
  destruct (trunc_floor a4 H4) as (z & -> & Hz0 & Hz).
  assert (Hz' : z <= 36000).
  { assert (Hlt : (inject_Z z < inject_Z 36001)%Q).
    { eapply Qle_lt_trans; [exact Hz |]. eapply Qle_lt_trans; [exact H4' |]. by vm_compute. }
    rewrite <- Zlt_Qlt in Hlt. lia. }
  unfold Fp.to_int, Fp.INT_MIN.
  destruct (Z.leb_spec (- 2 ^ 31) z); [| lia].
  destruct (Z.ltb_spec z (2 ^ 31)); cbn [andb]; lia.
Qed.

(** Lines 67-68: the positive modulo of a finite number lies in
    [0, 2 pi). *)
Lemma positive_modulo_range (a : spec_float) :
  is_finite a = true -> in_format Double.prec Double.emax a ->
  nonneg_finite (positive_modulo a)
  /\ (SF2Q (positive_modulo a) < SF2Q two_pi)%Q.
Proof.
  intros Hfin Hform. unfold positive_modulo.
  assert (Etp : two_pi = S754_finite false 7074237752028440 (-50))
    by (vm_compute; reflexivity).
  rewrite Etp.
  assert (Hy : in_format Double.prec Double.emax (S754_finite false 7074237752028440 (-50)))
    by (by vm_compute).
  destruct (fmod_range a 7074237752028440 (-50) Hfin Hform Hy ltac:(by vm_compute))
    as (H1fin & H1form & H1lo & H1hi & _).
  set (f1 := Double.fmod a _) in *.
  unfold Double.add.
  destruct (SFadd_upper Double.prec Double.emax f1 (S754_finite false 7074237752028440 (-50))
              (SF2Q (S754_finite false 7074237752028440 (-50)))
              (SF2Q (S754_finite false 7074237752028440 (-50))) 13
              H1fin ltac:(done) ltac:(lra) ltac:(lra) ltac:(apply Qle_refl)
              ltac:(by vm_compute) ltac:(by vm_compute)) as [H2 H2'].
  pose proof (SFadd_in_format Double.prec Double.emax eq_refl f1 _ H1form Hy) as H2form.
  set (f2 := SFadd Double.prec Double.emax f1 _) in *.
  assert (H2fin : is_finite f2 = true) by (by destruct f2 as [| | | []]).
  destruct (fmod_range f2 7074237752028440 (-50) H2fin H2form Hy ltac:(by vm_compute))
    as (_ & _ & _ & H3hi & H3nn).
  split; [by apply H3nn | done].
Qed.

Lemma valid_binary_in_format (x : spec_float) :
  valid_binary Double.prec Double.emax x = true -> in_format Double.prec Double.emax x.
Proof.
  destruct x as [| | | s m e]; try done. cbn [valid_binary in_format Zdigits2].
  unfold bounded, canonical_mantissa, fexp.
  intros [Hc _]%andb_true_iff. apply Z.eqb_eq in Hc.
  unfold emin in *. unfold Double.prec, Double.emax in *. lia.
Qed.

Lemma hardware_borders_range (view_direction view_width : spec_float) :
  let half := Double.div view_width (Double.of_int 2) in
  let tmp_min := positive_modulo (Double.add view_direction half) in
  let tmp_max := positive_modulo (Double.sub view_direction half) in
  valid_binary Double.prec Double.emax view_direction = true ->
  is_finite (Double.add view_direction half) = true ->
  is_finite (Double.sub view_direction half) = true ->
  (nonneg_finite tmp_min /\ (SF2Q tmp_min < SF2Q two_pi)%Q)
  /\ (nonneg_finite tmp_max /\ (SF2Q tmp_max < SF2Q two_pi)%Q)
  /\ 0 <= to_hardware_angle tmp_min <= 36000
  /\ 0 <= to_hardware_angle tmp_max <= 36000.
Proof.
  intros half tmp_min tmp_max Hvalid Hup Hlow.
  pose proof (valid_binary_in_format _ Hvalid) as Hvd.
  pose proof (SFdiv_in_format Double.prec Double.emax eq_refl view_width (Double.of_int 2))
    as Hhalf.
  pose proof (SFadd_in_format Double.prec Double.emax eq_refl _ _ Hvd Hhalf) as Hupf.
  pose proof (SFsub_in_format Double.prec Double.emax eq_refl _ _ Hvd Hhalf) as Hlowf.
  destruct (positive_modulo_range _ Hup Hupf) as [Hmin Hmin'].
  destruct (positive_modulo_range _ Hlow Hlowf) as [Hmax Hmax'].
  pose proof (to_hardware_angle_range _ Hmin ltac:(by apply Qlt_le_weak)) as Hhmin.
  pose proof (to_hardware_angle_range _ Hmax ltac:(by apply Qlt_le_weak)) as Hhmax.
  done.
Qed.

(** X17. The angle window lies on the circle. When the view direction
    is a double and the two borders [view_direction + view_width / 2] and
    [view_direction - view_width / 2] are finite, [setParameters] leaves
    [tmp_min_angle] and [tmp_max_angle] in [0, 2 pi) and [min_angle] and
    [max_angle] in [0, 36000], and the two differ - in double-precision
    arithmetic with rounding to nearest, not only over the reals. *)
Theorem setParameters_window_on_circle
    (min_range' max_range' view_direction view_width : spec_float)
    (frame_id' fixed_frame_id' : string) (rd : RawData) :
  let half := Double.div view_width (Double.of_int 2) in
  let c := config_ (setParameters min_range' max_range' view_direction view_width
                      frame_id' fixed_frame_id' rd) in
  valid_binary Double.prec Double.emax view_direction = true ->
  is_finite (Double.add view_direction half) = true ->
  is_finite (Double.sub view_direction half) = true ->
  (nonneg_finite (tmp_min_angle c) /\ (SF2Q (tmp_min_angle c) < SF2Q two_pi)%Q)
  /\ (nonneg_finite (tmp_max_angle c) /\ (SF2Q (tmp_max_angle c) < SF2Q two_pi)%Q)
  /\ 0 <= min_angle c <= 36000
  /\ 0 <= max_angle c <= 36000
  /\ min_angle c <> max_angle c.
Proof.
  intros half c Hvalid Hup Hlow.
  destruct (hardware_borders_range _ _ Hvalid Hup Hlow) as ([Hmin Hmin2] & [Hmax Hmax2] & Hhmin & Hhmax).
  subst c half. unfold setParameters.
  unfold Double.add, Double.sub, Double.div in *.
  destruct (normalize_window_cases
              (to_hardware_angle
                 (positive_modulo
                    (SFadd Double.prec Double.emax view_direction
                       (SFdiv Double.prec Double.emax view_width (Double.of_int 2)))))
              (to_hardware_angle
                 (positive_modulo
                    (SFsub Double.prec Double.emax view_direction
                       (SFdiv Double.prec Double.emax view_width (Double.of_int 2))))))
    as [[Heq ->] | [Hne ->]].
  all: cbn [config_ with_config tmp_min_angle tmp_max_angle min_angle max_angle].
  all: repeat split; try done; lia.
Qed.

(** X18. The angle window is never empty. After [setParameters] with
    finite borders there is a rotation code of the sensor, in
    [0, 35999], that the window test of [unpack] and the one of
    [unpack_vlp16] both accept: whether the window is an interval
    ([min_angle < max_angle]) or wraps around the zero direction
    ([min_angle > max_angle]), some block of a full revolution is kept. *)
Theorem setParameters_window_admits_rotation
    (min_range' max_range' view_direction view_width : spec_float)
    (frame_id' fixed_frame_id' : string) (rd : RawData) :
  let half := Double.div view_width (Double.of_int 2) in
  let rd' := setParameters min_range' max_range' view_direction view_width
               frame_id' fixed_frame_id' rd in
  valid_binary Double.prec Double.emax view_direction = true ->
  is_finite (Double.add view_direction half) = true ->
  is_finite (Double.sub view_direction half) = true ->
  exists rot, 0 <= rot < 36000
    /\ in_angle_window rd' rot = true
    /\ in_angle_window_vlp16 rd' rot = true.
Proof.
  intros half rd' Hvalid Hup Hlow.
  destruct (hardware_borders_range _ _ Hvalid Hup Hlow) as (_ & _ & Hhmin & Hhmax).
  subst rd' half. unfold in_angle_window, in_angle_window_vlp16, setParameters.
  unfold Double.add, Double.sub, Double.div in *.
  destruct (normalize_window_cases
              (to_hardware_angle
                 (positive_modulo
                    (SFadd Double.prec Double.emax view_direction
                       (SFdiv Double.prec Double.emax view_width (Double.of_int 2)))))
              (to_hardware_angle
                 (positive_modulo
                    (SFsub Double.prec Double.emax view_direction
                       (SFdiv Double.prec Double.emax view_width (Double.of_int 2))))))
    as [[Heq ->] | [Hne ->]].
  all: cbn [config_ with_config min_angle max_angle].
  - exists 0. split; [lia |]. by split.
  - destruct (Z_lt_le_dec
                (to_hardware_angle
                   (positive_modulo
                      (SFadd Double.prec Double.emax view_direction
                         (SFdiv Double.prec Double.emax view_width (Double.of_int 2)))))
                (to_hardware_angle
                   (positive_modulo
                      (SFsub Double.prec Double.emax view_direction
                         (SFdiv Double.prec Double.emax view_width (Double.of_int 2)))))) as [Hlt | Hge].
    + exists (to_hardware_angle
                (positive_modulo
                   (SFadd Double.prec Double.emax view_direction
                      (SFdiv Double.prec Double.emax view_width (Double.of_int 2))))).
      split; [lia |].
      assert (Hgeb : forall a b, a <= b -> (b >=? a) = true)
        by (intros a b Hab; apply Z.geb_le; exact Hab).
      rewrite Hgeb by lia.
      rewrite (proj2 (Z.leb_le _ _)) by lia.
      rewrite (proj2 (Z.ltb_lt _ _)) by lia. done.
    + exists (to_hardware_angle
                (positive_modulo
                   (SFsub Double.prec Double.emax view_direction
                      (SFdiv Double.prec Double.emax view_width (Double.of_int 2))))).
      split; [lia |].
      assert (Hgtb : forall a b, b < a -> (a >? b) = true)
        by (intros a b Hab; apply Z.gtb_lt; exact Hab).
      rewrite Hgtb by lia.
      rewrite (proj2 (Z.leb_le _ _)) by lia.
      rewrite !orb_true_r. done.
Qed.

Lemma setParameters_window_on_circle_witness :
  let c := config_ (setParameters (Double.lit 9 10) (Double.of_int 130) Fp.zero
                      Double.M_PI EmptyString EmptyString fresh_rd) in
  (0 <= min_angle c <= 36000 /\ 0 <= max_angle c <= 36000)
  /\ min_angle c = 27000 /\ max_angle c = 9000.
Proof.
  destruct (setParameters_window_on_circle (Double.lit 9 10) (Double.of_int 130) Fp.zero
              Double.M_PI EmptyString EmptyString fresh_rd)
    as (_ & _ & Hmin & Hmax & _).
  - reflexivity.
  - reflexivity.
  - reflexivity.
  - split; [split; [exact Hmin | exact Hmax] |]. by_computation.
Defined.

Lemma setParameters_window_admits_rotation_witness :
  exists rot, 0 <= rot < 36000
    /\ in_angle_window
         (setParameters (Double.lit 9 10) (Double.of_int 130) Fp.zero
            Double.M_PI EmptyString EmptyString fresh_rd) rot = true
    /\ in_angle_window_vlp16
         (setParameters (Double.lit 9 10) (Double.of_int 130) Fp.zero
            Double.M_PI EmptyString EmptyString fresh_rd) rot = true.
Proof.
  apply (setParameters_window_admits_rotation (Double.lit 9 10) (Double.of_int 130)
           Fp.zero Double.M_PI EmptyString EmptyString fresh_rd); reflexivity.
Defined.
